(** * next-llm-ready: the conversion core, the TOC builder and the route handlers

    A shallow embedding of
    - [src/utils/html-to-markdown.ts]  (converter, text metrics, heading extractor),
    - [src/server/generate-markdown.ts] (Markdown assembler, Markdown-path slugs),
    - [src/hooks/use-toc.ts]            (heading ids, nested TOC),
    - [src/api/markdown-handler.ts] and [src/api/analytics-handler.ts],
    followed by the properties the specification states about them.

    JavaScript strings are sequences of UTF-16 code units; they are modelled
    as [list Z].  Regular expressions are kept as syntax trees and run by a
    backtracking matcher that lists the successful matches in the priority
    order of ECMAScript's matcher, so the first element is the match that
    [RegExp.prototype.exec] reports. *)

From Stdlib Require Import ZArith List Bool Ascii String Lia QArith Qround.
From Stdlib Require Import DecimalString SpecFloat.
From stdpp Require Import gmap.
Import ListNotations.

Local Open Scope Z_scope.
Set Warnings "-register-all".

(* ===================================================================== *)
(** * Part I: definitions                                                 *)
(* ===================================================================== *)

(** ** JavaScript strings *)

Definition jsstring := list Z.

Definition code (a : ascii) : Z := Z.of_N (N_of_ascii a).

(** [lit] turns an ASCII literal into a JavaScript string; other code units
    are written as numbers. *)
Definition lit (s : string) : jsstring := List.map code (list_ascii_of_string s).

Definition NL : Z := 10.        (* line feed *)
Definition DQUOTE : Z := 34.    (* double quote *)
Definition SQUOTE : Z := 39.    (* single quote *)
Definition HYPHEN : Z := 45.    (* hyphen-minus *)

Definition between (lo hi c : Z) : bool := (lo <=? c) && (c <=? hi).

Definition isDigit (c : Z) : bool := between 48 57 c.
Definition isLower (c : Z) : bool := between 97 122 c.
Definition isUpper (c : Z) : bool := between 65 90 c.

(** [\w] : [A-Za-z0-9_] *)
Definition isWordChar (c : Z) : bool :=
  isLower c || isUpper c || isDigit c || (c =? 95).

(** LineTerminator: the characters [.] does not match without the [s] flag. *)
Definition isLineTerminator (c : Z) : bool :=
  (c =? 10) || (c =? 13) || (c =? 8232) || (c =? 8233).

(** WhiteSpace and LineTerminator: the class [\s], also what [trim] removes. *)
Definition isWhiteSpace (c : Z) : bool :=
  between 9 13 c || (c =? 32) || (c =? 160) || (c =? 5760) ||
  between 8192 8202 c || (c =? 8232) || (c =? 8233) || (c =? 8239) ||
  (c =? 8287) || (c =? 12288) || (c =? 65279).

Fixpoint dropWhile (p : Z -> bool) (s : jsstring) : jsstring :=
  match s with
  | c :: tl => if p c then dropWhile p tl else s
  | [] => []
  end.

Definition trimStart (s : jsstring) : jsstring := dropWhile isWhiteSpace s.
Definition trimEnd (s : jsstring) : jsstring := rev (dropWhile isWhiteSpace (rev s)).

(** [String.prototype.trim] *)
Definition trim (s : jsstring) : jsstring := trimEnd (trimStart s).

(** [String.prototype.toLowerCase], one code unit at a time.  Basic Latin and
    Latin-1 are mapped as Unicode does; U+0130 and U+212A are the only code
    units outside ASCII whose lower case contains an ASCII letter.  The rest
    of the Unicode table is not reproduced: those code units are, and lower
    to, characters outside [A-Za-z0-9], white space and punctuation. *)
Definition lowerUnit (c : Z) : jsstring :=
  if isUpper c then [c + 32]
  else if (between 192 222 c) && negb (c =? 215) then [c + 32]
  else if c =? 304 then [105; 775]
  else if c =? 8490 then [107]
  else if c =? 8491 then [229]
  else [c].

Definition toLowerCase (s : jsstring) : jsstring := flat_map lowerUnit s.

(** [s.substring(0, n)] *)
Definition substring0 (n : nat) (s : jsstring) : jsstring := firstn n s.

(** [Array.prototype.join] *)
Fixpoint join (sep : jsstring) (parts : list jsstring) : jsstring :=
  match parts with
  | [] => []
  | [p] => p
  | p :: tl => p ++ sep ++ join sep tl
  end.

(** Decimal rendering of an array index or a counter. *)
Definition natToString (n : nat) : jsstring :=
  lit (NilZero.string_of_uint (Nat.to_uint n)).

(** Decimal rendering of an integral Number. *)
Definition intToString (z : Z) : jsstring :=
  lit (NilZero.string_of_int (Z.to_int z)).

(** ASCII case folding, as the [i] flag does for the patterns of this code:
    every literal character in them is ASCII, and the canonical form of a
    code unit outside ASCII is never an ASCII character. *)
Definition fold (c : Z) : Z := if isUpper c then c + 32 else c.

(** ** Regular expressions *)

Inductive regex : Type :=
| Eps
| Chr (p : Z -> bool)
| Seq (r1 r2 : regex)
| Alt (r1 r2 : regex)
| Star (greedy : bool) (r : regex)
| Group (n : nat) (r : regex)
| Backref (ignoreCase : bool) (n : nat)
| NotAhead (r : regex)
| Bol
| Eol
| WordB.

(** Derived forms. *)
Definition Plus (greedy : bool) (r : regex) : regex := Seq r (Star greedy r).
Definition Opt (r : regex) : regex := Alt r Eps.

Fixpoint Upto (n : nat) (r : regex) : regex :=
  match n with
  | O => Eps
  | S k => Alt (Seq r (Upto k r)) Eps
  end.

(** [r{lo,hi}] with [lo <= hi], greedy. *)
Fixpoint Repeat (lo extra : nat) (r : regex) : regex :=
  match lo with
  | O => Upto extra r
  | S k => Seq r (Repeat k extra r)
  end.

Definition Is (c : Z) : regex := Chr (Z.eqb c).
Definition IsI (c : Z) : regex := Chr (fun x => fold x =? fold c).
Definition Not1 (c : Z) : regex := Chr (fun x => negb (x =? c)).
Definition Dot : regex := Chr (fun x => negb (isLineTerminator x)).
Definition DotAll : regex := Chr (fun _ => true).

Fixpoint seqOf (rs : list regex) : regex :=
  match rs with
  | [] => Eps
  | [r] => r
  | r :: tl => Seq r (seqOf tl)
  end.

Fixpoint altOf (rs : list regex) : regex :=
  match rs with
  | [] => Eps
  | [r] => r
  | r :: tl => Alt r (altOf tl)
  end.

(** A literal run of characters, case sensitive or not. *)
Definition Str (s : jsstring) : regex := seqOf (List.map Is s).
Definition StrI (s : jsstring) : regex := seqOf (List.map IsI s).

(** The capture groups a pattern contains: a quantifier forgets them at the
    start of every iteration. *)
Fixpoint groups (r : regex) : list nat :=
  match r with
  | Seq r1 r2 | Alt r1 r2 => groups r1 ++ groups r2
  | Star _ r' | NotAhead r' => groups r'
  | Group n r' => n :: groups r'
  | _ => []
  end.

(** ** The matcher *)

Definition captures := list (nat * jsstring).

Record MatchState : Type := mkState {
  before : jsstring;     (* the input left of the position, nearest first *)
  rest : jsstring;       (* the input from the position on *)
  caps : captures
}.

Definition getcap (n : nat) (cs : captures) : option jsstring :=
  match List.find (fun p => Nat.eqb (fst p) n) cs with
  | Some (_, s) => Some s
  | None => None
  end.

Definition clearcaps (ns : list nat) (cs : captures) : captures :=
  List.filter (fun p => negb (existsb (Nat.eqb (fst p)) ns)) cs.

Definition setcap (n : nat) (s : jsstring) (cs : captures) : captures :=
  (n, s) :: clearcaps [n] cs.

(** [$n] in a replacement template: an undefined capture reads as the empty
    string. *)
Definition cap (n : nat) (cs : captures) : jsstring :=
  match getcap n cs with Some s => s | None => [] end.

Definition start (s : jsstring) : MatchState := mkState [] s [].

Definition advance (st : MatchState) : MatchState :=
  match rest st with
  | c :: tl => mkState (c :: before st) tl (caps st)
  | [] => st
  end.

Definition withCaps (cs : captures) (st : MatchState) : MatchState :=
  mkState (before st) (rest st) cs.

(** The text consumed between two states of one match. *)
Definition consumed (st st' : MatchState) : jsstring :=
  firstn (length (rest st) - length (rest st')) (rest st).

Definition progressed (st st' : MatchState) : bool :=
  (length (rest st') <? length (rest st))%nat.

Fixpoint skip (n : nat) (st : MatchState) : MatchState :=
  match n with
  | O => st
  | S k => skip k (advance st)
  end.

Fixpoint startsWith (eq : Z -> Z -> bool) (s input : jsstring) : bool :=
  match s, input with
  | [], _ => true
  | c :: s', d :: input' => eq c d && startsWith eq s' input'
  | _ :: _, [] => false
  end.

(** RepeatMatcher with min = 0 and max = infinity: an iteration that consumes
    nothing is rejected, so at most [length (rest st)] iterations happen. *)
Fixpoint starLoop (f : MatchState -> list MatchState) (forget : list nat)
    (greedy : bool) (fuel : nat) (st : MatchState) : list MatchState :=
  match fuel with
  | O => [st]
  | S k =>
      let again :=
        flat_map (starLoop f forget greedy k)
          (List.filter (progressed st) (f (withCaps (clearcaps forget (caps st)) st))) in
      if greedy then again ++ [st] else st :: again
  end.

Definition isWordAt (o : option Z) : bool :=
  match o with Some c => isWordChar c | None => false end.

(** All the ways [r] matches at [st], best first. *)
Fixpoint matches (r : regex) (st : MatchState) : list MatchState :=
  match r with
  | Eps => [st]
  | Chr p =>
      match rest st with
      | c :: _ => if p c then [advance st] else []
      | [] => []
      end
  | Seq r1 r2 => flat_map (matches r2) (matches r1 st)
  | Alt r1 r2 => matches r1 st ++ matches r2 st
  | Star greedy r' =>
      starLoop (matches r') (groups r') greedy (S (length (rest st))) st
  | Group n r' =>
      List.map (fun st' => withCaps (setcap n (consumed st st') (caps st')) st')
        (matches r' st)
  | Backref ic n =>
      match getcap n (caps st) with
      | None => [st]
      | Some s =>
          let eq := if ic then (fun a b => fold a =? fold b) else Z.eqb in
          if startsWith eq s (rest st) then [skip (length s) st] else []
      end
  | NotAhead r' =>
      match matches r' st with
      | [] => [st]
      | _ :: _ => []
      end
  | Bol => match before st with [] => [st] | _ :: _ => [] end
  | Eol => match rest st with [] => [st] | _ :: _ => [] end
  | WordB =>
      if xorb (isWordAt (head (before st))) (isWordAt (head (rest st)))
      then [st] else []
  end.

(** One attempt at the position of [st], with fresh captures. *)
Definition matchAt (r : regex) (st : MatchState) : option MatchState :=
  head (matches r (withCaps [] st)).

(** [RegExp.prototype.exec] without the sticky flag: the leftmost position
    from [st] on at which the pattern matches.  Returns the state where the
    match begins and the state where it ends. *)
Fixpoint searchFrom (r : regex) (bef s : jsstring) : option (MatchState * MatchState) :=
  match matchAt r (mkState bef s []) with
  | Some st' => Some (mkState bef s [], st')
  | None =>
      match s with
      | c :: tl => searchFrom r (c :: bef) tl
      | [] => None
      end
  end.

Definition search (r : regex) (st : MatchState) : option (MatchState * MatchState) :=
  searchFrom r (before st) (rest st).

(** [regex.test(s)] *)
Definition test (r : regex) (s : jsstring) : bool :=
  match search r (start s) with Some _ => true | None => false end.

(** [String.prototype.match] with a pattern that has no [g] flag: the captures
    of the first match, if any. *)
Definition firstMatch (r : regex) (s : jsstring) : option captures :=
  match search r (start s) with
  | Some (_, st') => Some (caps st')
  | None => None
  end.

(** [String.prototype.replace] with a [g] pattern.  [t] builds the replacement
    from the captures (a template with [$n], or a callback).  One step: the
    text to emit at this position and the position to go on from, if any.
    After an empty match the next attempt starts one code unit further. *)
Definition replaceStep (r : regex) (t : captures -> jsstring) (bef s : jsstring)
  : jsstring * option (jsstring * jsstring) :=
  let copy :=
    match s with
    | c :: tl => ([c], Some (c :: bef, tl))
    | [] => ([], None)
    end in
  match matchAt r (mkState bef s []) with
  | Some st' =>
      if (length (rest st') <? length s)%nat
      then (t (caps st'), Some (before st', rest st'))
      else (t (caps st') ++ fst copy, snd copy)
  | None => copy
  end.

Fixpoint replaceLoop (r : regex) (t : captures -> jsstring) (fuel : nat)
    (bef s : jsstring) : jsstring :=
  match fuel with
  | O => s
  | S k =>
      match replaceStep r t bef s with
      | (out, Some (bef', s')) => out ++ replaceLoop r t k bef' s'
      | (out, None) => out
      end
  end.

Definition replaceAll (r : regex) (t : captures -> jsstring) (s : jsstring) : jsstring :=
  replaceLoop r t (S (length s)) [] s.

(** Exceptions. *)
Inductive result (A : Type) : Type :=
| Ok (a : A)
| Throw (error : jsstring).
Arguments Ok {A} a.
Arguments Throw {A} error.

Definition bind {A B : Type} (x : result A) (f : A -> result B) : result B :=
  match x with
  | Ok a => f a
  | Throw e => Throw e
  end.

Notation "'let*' x ':=' e 'in' k" := (bind e (fun x => k))
  (at level 10, x name, e at level 200, k at level 200).

(** [replace] with a callback that may throw. *)
Definition replaceStepWith (r : regex) (f : captures -> result jsstring) (bef s : jsstring)
  : result (jsstring * option (jsstring * jsstring)) :=
  let copy :=
    match s with
    | c :: tl => ([c], Some (c :: bef, tl))
    | [] => ([], None)
    end in
  match matchAt r (mkState bef s []) with
  | Some st' =>
      let* piece := f (caps st') in
      if (length (rest st') <? length s)%nat
      then Ok (piece, Some (before st', rest st'))
      else Ok (piece ++ fst copy, snd copy)
  | None => Ok copy
  end.

Fixpoint replaceLoopWith (r : regex) (f : captures -> result jsstring) (fuel : nat)
    (bef s : jsstring) : result jsstring :=
  match fuel with
  | O => Ok s
  | S k =>
      let* step := replaceStepWith r f bef s in
      match step with
      | (out, Some (bef', s')) =>
          let* more := replaceLoopWith r f k bef' s' in Ok (out ++ more)
      | (out, None) => Ok out
      end
  end.

Definition replaceAllWith (r : regex) (f : captures -> result jsstring) (s : jsstring)
  : result jsstring :=
  replaceLoopWith r f (S (length s)) [] s.

(** [String.prototype.split] with a pattern without capture groups.
    [lenP] is the length of the input from the start of the current piece,
    [acc] the piece so far (reversed).  A match that ends where the piece
    starts is skipped; an empty match elsewhere closes the piece and is
    skipped in the next round, so a position takes two rounds at most. *)
Fixpoint splitLoop (r : regex) (fuel lenP : nat) (acc bef s : jsstring) : list jsstring :=
  match fuel with
  | O => [rev acc ++ s]
  | S k =>
      match s with
      | [] => [rev acc]
      | c :: tl =>
          match matchAt r (mkState bef s []) with
          | Some st' =>
              if (length (rest st') =? lenP)%nat
              then splitLoop r k lenP (c :: acc) (c :: bef) tl
              else rev acc :: splitLoop r k (length (rest st')) [] (before st') (rest st')
          | None => splitLoop r k lenP (c :: acc) (c :: bef) tl
          end
      end
  end.

Definition split (r : regex) (s : jsstring) : list jsstring :=
  match s with
  | [] => match matchAt r (start []) with Some _ => [] | None => [[]] end
  | _ :: _ => splitLoop r (S (2 * length s)) (length s) [] [] s
  end.

(** ** Numbers read out of character references *)

Definition digitValue (c : Z) : Z :=
  if isDigit c then c - 48
  else if between 97 102 c then c - 87
  else if between 65 70 c then c - 55
  else 0.

(** The mathematical value of a run of digits in the given radix. *)
Definition digitsValue (radix : Z) (s : jsstring) : Z :=
  fold_left (fun acc c => acc * radix + digitValue c) s 0.

(** The Number nearest to a non-negative integer (binary64, ties to even).
    Values of 2^1024 and more become Infinity; [ToUint16] sends Infinity to 0,
    as it does every multiple of 2^16, so they need no case of their own. *)
Definition toDouble (z : Z) : Z :=
  if z <? 2 ^ 53 then z
  else
    let k := Z.log2 z - 52 in
    let q := z / 2 ^ k in
    let r := z mod 2 ^ k in
    let half := 2 ^ (k - 1) in
    let q' := if (half <? r) || ((r =? half) && Z.odd q) then q + 1 else q in
    q' * 2 ^ k.

(** [parseInt(s, radix)] for a capture; an undefined or empty one gives NaN. *)
Definition parseInt (radix : Z) (o : option jsstring) : option Z :=
  match o with
  | Some (c :: s) => Some (toDouble (digitsValue radix (c :: s)))
  | _ => None
  end.

(** [String.fromCharCode(n)] : [ToUint16]; NaN becomes 0. *)
Definition fromCharCode (n : option Z) : jsstring :=
  match n with
  | Some z => [z mod 65536]
  | None => [0]
  end.

(** ** [src/utils/html-to-markdown.ts] *)

(** *** decodeHTMLEntities *)

(** The entries of the [entities] table, in the order [Object.entries] lists
    them. *)
Definition entities : list (jsstring * jsstring) :=
  [ (lit "&amp;", lit "&");
    (lit "&lt;", lit "<");
    (lit "&gt;", lit ">");
    (lit "&quot;", [DQUOTE]);
    (lit "&#39;", [SQUOTE]);
    (lit "&apos;", [SQUOTE]);
    (lit "&nbsp;", lit " ");
    (lit "&mdash;", [8212]);
    (lit "&ndash;", [8211]);
    (lit "&hellip;", [8230]);
    (lit "&copy;", [169]);
    (lit "&reg;", [174]);
    (lit "&trade;", [8482]) ].

Definition isHexDigit (c : Z) : bool :=
  isDigit c || between 97 102 c || between 65 70 c.

(** [/&#(\d+);/g] *)
Definition reDecimalEntity : regex :=
  seqOf [Str (lit "&#"); Group 1 (Plus true (Chr isDigit)); Is 59].

(** [/&#x([0-9a-f]+);/gi] *)
Definition reHexEntity : regex :=
  seqOf [StrI (lit "&#x"); Group 1 (Plus true (Chr isHexDigit)); Is 59].

Definition decodeHTMLEntities (text : jsstring) : jsstring :=
  let result :=
    fold_left (fun result e => replaceAll (Str (fst e)) (fun _ => snd e) result)
      entities text in
  let result :=
    replaceAll reDecimalEntity (fun cs => fromCharCode (parseInt 10 (getcap 1 cs))) result in
  replaceAll reHexEntity (fun cs => fromCharCode (parseInt 16 (getcap 1 cs))) result.

(** *** The DOM, as far as [convertNode] looks at it *)

Inductive Node : Type :=
| TextNode (data : jsstring)
| OtherNode                      (* a comment or any other non-element node *)
| Element (tag : jsstring)       (* element.tagName.toLowerCase() *)
          (attrs : list (jsstring * jsstring))
          (childNodes : list Node).

(** *** Options *)

Record HTMLToMarkdownOptions : Type := mkOptions {
  preserveLineBreaks : option bool;
  convertImages : option bool;
  convertLinks : option bool;
  stripScripts : option bool;
  customHandlers : option (list (jsstring * (Node -> jsstring)))
}.

Definition noOptions : HTMLToMarkdownOptions :=
  mkOptions None None None None None.

Definition defaultOptions : HTMLToMarkdownOptions :=
  mkOptions (Some true) (Some true) (Some true) (Some true) (Some []).

Definition orElse {A : Type} (o d : option A) : option A :=
  match o with Some _ => o | None => d end.

(** [{ ...defaultOptions, ...options }] *)
Definition mergeOptions (d o : HTMLToMarkdownOptions) : HTMLToMarkdownOptions :=
  mkOptions
    (orElse (preserveLineBreaks o) (preserveLineBreaks d))
    (orElse (convertImages o) (convertImages d))
    (orElse (convertLinks o) (convertLinks d))
    (orElse (stripScripts o) (stripScripts d))
    (orElse (customHandlers o) (customHandlers d)).

(** Truthiness of an optional boolean property. *)
Definition on (o : option bool) : bool :=
  match o with Some b => b | None => false end.

(** *** serverSideConvert: the patterns *)

Definition LT : Z := 60.
Definition GT : Z := 62.
Definition SLASH : Z := 47.

Definition notGT : regex := Star true (Not1 GT).        (* [^>]* *)
Definition notLT : regex := Star true (Not1 LT).        (* [^<]* *)
Definition quote : regex := Chr (fun c => (c =? DQUOTE) || (c =? SQUOTE)).
Definition notQuotes : regex :=
  Star true (Chr (fun c => negb ((c =? DQUOTE) || (c =? SQUOTE)))).
Definition lazyDot : regex := Star false Dot.            (* .*? *)
Definition lazyAny : regex := Star false DotAll.         (* .*? with the s flag *)

(** [/<script\b[^<]*(?:(?!<\/script>)<[^<]* )*<\/script>/gi], also for style.
    In these comments Q stands for the class of the two quote characters. *)
Definition reBlock (name : string) : regex :=
  seqOf [ StrI (lit "<" ++ lit name); WordB; notLT;
          Star true (seqOf [NotAhead (StrI (lit "</" ++ lit name ++ lit ">")); Is LT; notLT]);
          StrI (lit "</" ++ lit name ++ lit ">") ].

(** [/<h1[^>]*>(.*?)<\/h1>/gi] and the like: an opening tag whose name begins
    with [name], a lazy body in group 1, the closing tag. *)
Definition reElement (name : string) (body : regex) : regex :=
  seqOf [ StrI (lit "<" ++ lit name); notGT; Is GT; Group 1 body;
          StrI (lit "</" ++ lit name ++ lit ">") ].

(** [/<(strong|b)[^>]*>(.*?)<\/\1>/gi] *)
Definition rePair (a b : string) : regex :=
  seqOf [ Is LT; Group 1 (Alt (StrI (lit a)) (StrI (lit b))); notGT; Is GT;
          Group 2 lazyDot; StrI (lit "</"); Backref true 1; Is GT ].

(** [name=Q([^Q]* )Q] with the value in group [n] *)
Definition reAttr (name : string) (n : nat) : regex :=
  seqOf [ StrI (lit name ++ lit "="); quote; Group n notQuotes; quote ].

(** [/<a[^>]*href=Q([^Q]* )Q[^>]*>(.*?)<\/a>/gi] *)
Definition reLink : regex :=
  seqOf [ StrI (lit "<a"); notGT; reAttr "href" 1; notGT; Is GT;
          Group 2 lazyDot; StrI (lit "</a>") ].

(** [/<img[^>]*a=Q([^Q]* )Q[^>]*b=Q([^Q]* )Q[^>]*\/?>/gi] *)
Definition reImg2 (a b : string) : regex :=
  seqOf [ StrI (lit "<img"); notGT; reAttr a 1; notGT; reAttr b 2; notGT;
          Opt (Is SLASH); Is GT ].

(** [/<img[^>]*src=Q([^Q]* )Q[^>]*\/?>/gi] *)
Definition reImg1 : regex :=
  seqOf [ StrI (lit "<img"); notGT; reAttr "src" 1; notGT; Opt (Is SLASH); Is GT ].

(** [/<ul[^>]*>/gi], [/<ol[^>]*>/gi] *)
Definition reOpen (name : string) : regex :=
  seqOf [ StrI (lit "<" ++ lit name); notGT; Is GT ].

(** [/<pre[^>]*><code[^>]*>(.*?)<\/code><\/pre>/gis] *)
Definition rePreCode : regex :=
  seqOf [ StrI (lit "<pre"); notGT; Is GT; StrI (lit "<code"); notGT; Is GT;
          Group 1 lazyAny; StrI (lit "</code></pre>") ].

(** [/<br\s*\/?>/gi] *)
Definition reBr : regex :=
  seqOf [ StrI (lit "<br"); Star true (Chr isWhiteSpace); Opt (Is SLASH); Is GT ].

(** [/<hr[^>]*\/?>/gi] *)
Definition reHr : regex :=
  seqOf [ StrI (lit "<hr"); notGT; Opt (Is SLASH); Is GT ].

(** [/<[^>]+>/g] *)
Definition reAnyTag : regex :=
  seqOf [ Is LT; Plus true (Not1 GT); Is GT ].

(** [/\n{3,}/g] *)
Definition reBlankLines : regex :=
  seqOf [ Is NL; Is NL; Plus true (Is NL) ].

(** [/\n/g] *)
Definition reNewline : regex := Is NL.

(** A replacement that ignores the captures. *)
Definition const (s : jsstring) : captures -> jsstring := fun _ => s.

(** ['\n' + hashes + ' $1\n'] *)
Definition headingTemplate (n : nat) : captures -> jsstring :=
  fun cs => [NL] ++ repeat 35 n ++ lit " " ++ cap 1 cs ++ [NL].

(** The blockquote callback [(_, content) => '\n> ' + content.trim()...]:
    calling [trim] on an undefined capture is a TypeError. *)
Definition blockquoteCallback (cs : captures) : result jsstring :=
  match getcap 1 cs with
  | Some content =>
      Ok ([NL] ++ lit "> " ++
          replaceAll reNewline (const ([NL] ++ lit "> ")) (trim content) ++ [NL])
  | None => Throw (lit "TypeError: Cannot read properties of undefined")
  end.

(** *** serverSideConvert *)

Definition stripBlocks (opts : HTMLToMarkdownOptions) (markdown : jsstring) : jsstring :=
  if on (stripScripts opts)
  then replaceAll (reBlock "style") (const [])
         (replaceAll (reBlock "script") (const []) markdown)
  else markdown.

Definition convertHeadings (markdown : jsstring) : jsstring :=
  let markdown := replaceAll (reElement "h1" lazyDot) (headingTemplate 1) markdown in
  let markdown := replaceAll (reElement "h2" lazyDot) (headingTemplate 2) markdown in
  let markdown := replaceAll (reElement "h3" lazyDot) (headingTemplate 3) markdown in
  let markdown := replaceAll (reElement "h4" lazyDot) (headingTemplate 4) markdown in
  let markdown := replaceAll (reElement "h5" lazyDot) (headingTemplate 5) markdown in
  replaceAll (reElement "h6" lazyDot) (headingTemplate 6) markdown.

Definition convertBoldItalic (markdown : jsstring) : jsstring :=
  let markdown :=
    replaceAll (rePair "strong" "b") (fun cs => lit "**" ++ cap 2 cs ++ lit "**") markdown in
  replaceAll (rePair "em" "i") (fun cs => lit "*" ++ cap 2 cs ++ lit "*") markdown.

Definition convertAnchors (opts : HTMLToMarkdownOptions) (markdown : jsstring) : jsstring :=
  if on (convertLinks opts)
  then replaceAll reLink (fun cs => lit "[" ++ cap 2 cs ++ lit "](" ++ cap 1 cs ++ lit ")") markdown
  else markdown.

Definition convertImgs (opts : HTMLToMarkdownOptions) (markdown : jsstring) : jsstring :=
  if on (convertImages opts)
  then
    let markdown :=
      replaceAll (reImg2 "src" "alt")
        (fun cs => lit "![" ++ cap 2 cs ++ lit "](" ++ cap 1 cs ++ lit ")") markdown in
    let markdown :=
      replaceAll (reImg2 "alt" "src")
        (fun cs => lit "![" ++ cap 1 cs ++ lit "](" ++ cap 2 cs ++ lit ")") markdown in
    replaceAll reImg1 (fun cs => lit "![](" ++ cap 1 cs ++ lit ")") markdown
  else markdown.

Definition convertLists (markdown : jsstring) : jsstring :=
  let markdown := replaceAll (reOpen "ul") (const [NL]) markdown in
  let markdown := replaceAll (StrI (lit "</ul>")) (const [NL]) markdown in
  let markdown := replaceAll (reOpen "ol") (const [NL]) markdown in
  let markdown := replaceAll (StrI (lit "</ol>")) (const [NL]) markdown in
  replaceAll (reElement "li" lazyDot) (fun cs => lit "- " ++ cap 1 cs ++ [NL]) markdown.

Definition convertCode (markdown : jsstring) : jsstring :=
  let markdown :=
    replaceAll rePreCode
      (fun cs => [NL] ++ lit "```" ++ [NL] ++ cap 1 cs ++ [NL] ++ lit "```" ++ [NL]) markdown in
  replaceAll (reElement "code" lazyDot) (fun cs => lit "`" ++ cap 1 cs ++ lit "`") markdown.

Definition convertParagraphs (markdown : jsstring) : jsstring :=
  let markdown :=
    replaceAll (reElement "p" lazyAny) (fun cs => [NL] ++ cap 1 cs ++ [NL]) markdown in
  replaceAll reBr (const [NL]) markdown.

Definition cleanUp (markdown : jsstring) : jsstring :=
  let markdown := replaceAll reHr (const ([NL] ++ lit "---" ++ [NL])) markdown in
  let markdown := replaceAll reAnyTag (const []) markdown in
  let markdown := decodeHTMLEntities markdown in
  let markdown := replaceAll reBlankLines (const [NL; NL]) markdown in
  trim markdown.

Definition serverSideConvert (html : jsstring) (opts : HTMLToMarkdownOptions)
  : result jsstring :=
  let markdown := stripBlocks opts html in
  let markdown := convertHeadings markdown in
  let markdown := convertBoldItalic markdown in
  let markdown := convertAnchors opts markdown in
  let markdown := convertImgs opts markdown in
  let markdown := convertLists markdown in
  let* markdown := replaceAllWith (reElement "blockquote" lazyAny) blockquoteCallback markdown in
  let markdown := convertCode markdown in
  let markdown := convertParagraphs markdown in
  Ok (cleanUp markdown).

(** *** convertNode and convertTable *)

Definition isElement (n : Node) : bool :=
  match n with Element _ _ _ => true | _ => false end.

Definition tagOf (n : Node) : jsstring :=
  match n with Element t _ _ => t | _ => [] end.

Fixpoint eqString (a b : jsstring) : bool :=
  match a, b with
  | [], [] => true
  | x :: a', y :: b' => (x =? y) && eqString a' b'
  | _, _ => false
  end.

Definition hasTag (names : list jsstring) (n : Node) : bool :=
  isElement n && existsb (eqString (tagOf n)) names.

(** [node.textContent] *)
Fixpoint textContent (n : Node) : jsstring :=
  match n with
  | TextNode data => data
  | OtherNode => []
  | Element _ _ kids => concat (List.map textContent kids)
  end.

(** The descendants of a node in document order, the node itself not
    included: what [querySelectorAll] filters. *)
Fixpoint descendants (n : Node) : list Node :=
  match n with
  | Element _ _ kids => concat (List.map (fun k => k :: descendants k) kids)
  | _ => []
  end.

Definition querySelectorAll (names : list jsstring) (n : Node) : list Node :=
  List.filter (hasTag names) (descendants n).

Definition querySelector (names : list jsstring) (n : Node) : option Node :=
  head (querySelectorAll names n).

Definition lookupString {A : Type} (key : jsstring) (l : list (jsstring * A)) : option A :=
  match List.find (fun p => eqString (fst p) key) l with
  | Some (_, a) => Some a
  | None => None
  end.

(** [element.getAttribute(name) || ''] *)
Definition getAttribute (name : string) (n : Node) : jsstring :=
  match n with
  | Element _ attrs _ =>
      match lookupString (lit name) attrs with Some v => v | None => [] end
  | _ => []
  end.

(** [s || d] on strings *)
Definition orString (s d : jsstring) : jsstring :=
  match s with [] => d | _ :: _ => s end.

Definition convertTable (table : Node) : jsstring :=
  let rows := querySelectorAll [lit "tr"] table in
  match rows with
  | [] => []
  | _ :: _ =>
      let step (acc : jsstring * bool * nat) (row : Node) :=
        let '(markdown, headerProcessed, index) := acc in
        let cells := querySelectorAll [lit "th"; lit "td"] row in
        let rowContent := join (lit " | ") (List.map (fun c => trim (textContent c)) cells) in
        let markdown := markdown ++ lit "| " ++ rowContent ++ lit " |" ++ [NL] in
        if negb headerProcessed &&
           (match querySelector [lit "th"] row with Some _ => true | None => false end
            || Nat.eqb index 0)
        then
          let separator := join (lit " | ") (List.map (fun _ => lit "---") cells) in
          (markdown ++ lit "| " ++ separator ++ lit " |" ++ [NL], true, S index)
        else (markdown, headerProcessed, S index) in
      let '(markdown, _, _) := fold_left step rows ([NL], false, O) in
      markdown ++ [NL]
  end.

(** [/language-(\w+)/] *)
Definition reLanguage : regex :=
  seqOf [ Str (lit "language-"); Group 1 (Plus true (Chr isWordChar)) ].

Definition heading (n : nat) (childContent : jsstring) : jsstring :=
  [NL] ++ repeat 35 n ++ lit " " ++ trim childContent ++ [NL].

Definition named (tagName : jsstring) (name : string) : bool :=
  eqString tagName (lit name).

(** The [switch] of [convertNode], given the converted children.  [parent]
    is [element.parentElement?.tagName.toLowerCase()]. *)
Definition convertElement (opts : HTMLToMarkdownOptions) (parent : option jsstring)
    (element : Node) (childContent : jsstring) : jsstring :=
  let tagName := tagOf element in
  if named tagName "h1" then heading 1 childContent
  else if named tagName "h2" then heading 2 childContent
  else if named tagName "h3" then heading 3 childContent
  else if named tagName "h4" then heading 4 childContent
  else if named tagName "h5" then heading 5 childContent
  else if named tagName "h6" then heading 6 childContent
  else if named tagName "p" then [NL] ++ trim childContent ++ [NL]
  else if named tagName "br" then (if on (preserveLineBreaks opts) then [NL] else lit " ")
  else if named tagName "strong" || named tagName "b" then lit "**" ++ childContent ++ lit "**"
  else if named tagName "em" || named tagName "i" then lit "*" ++ childContent ++ lit "*"
  else if named tagName "u" then lit "_" ++ childContent ++ lit "_"
  else if named tagName "s" || named tagName "strike" || named tagName "del" then lit "~~" ++ childContent ++ lit "~~"
  else if named tagName "a" then
    (if on (convertLinks opts)
     then lit "[" ++ childContent ++ lit "](" ++ getAttribute "href" element ++ lit ")"
     else childContent)
  else if named tagName "img" then
    (if on (convertImages opts)
     then lit "![" ++ getAttribute "alt" element ++ lit "](" ++
          getAttribute "src" element ++ lit ")"
     else [])
  else if named tagName "ul" then [NL] ++ childContent ++ [NL]
  else if named tagName "ol" then [NL] ++ childContent ++ [NL]
  else if named tagName "li" then lit "- " ++ trim childContent ++ [NL]
  else if named tagName "blockquote" then
    [NL] ++ lit "> " ++
    replaceAll reNewline (const ([NL] ++ lit "> ")) (trim childContent) ++ [NL]
  else if named tagName "pre" then
    let codeElement := querySelector [lit "code"] element in
    let lang :=
      match codeElement with
      | Some c =>
          match firstMatch reLanguage (getAttribute "class" c) with
          | Some cs => cap 1 cs
          | None => []
          end
      | None => []
      end in
    let code :=
      match codeElement with
      | Some c => orString (textContent c) childContent
      | None => childContent
      end in
    [NL] ++ lit "```" ++ lang ++ [NL] ++ trim code ++ [NL] ++ lit "```" ++ [NL]
  else if named tagName "code" then
    (match parent with
     | Some p => if eqString p (lit "pre") then childContent
                 else lit "`" ++ childContent ++ lit "`"
     | None => lit "`" ++ childContent ++ lit "`"
     end)
  else if named tagName "hr" then [NL] ++ lit "---" ++ [NL]
  else if named tagName "table" then convertTable element
  else childContent.

Fixpoint convertNode (opts : HTMLToMarkdownOptions) (parent : option jsstring)
    (node : Node) : jsstring :=
  match node with
  | TextNode data => data
  | OtherNode => []
  | Element tagName _ kids =>
      match
        match customHandlers opts with
        | Some hs => lookupString tagName hs
        | None => None
        end
      with
      | Some handler => handler node
      | None =>
          if on (stripScripts opts) &&
             (eqString tagName (lit "script") || eqString tagName (lit "style"))
          then []
          else
            convertElement opts parent node
              (concat (List.map (convertNode opts (Some tagName)) kids))
      end
  end.

(** *** htmlToMarkdown *)

(** Where the code runs: without a [window] (server) or with one, in which
    case [DOMParser] is the platform's; [parseBody html] stands for
    [new DOMParser().parseFromString(html, 'text/html').body]. *)
Inductive Env : Type :=
| Server
| Browser (parseBody : jsstring -> Node).

Definition htmlToMarkdown (env : Env) (html : jsstring) (options : HTMLToMarkdownOptions)
  : result jsstring :=
  let opts := mergeOptions defaultOptions options in
  match env with
  | Server => serverSideConvert html opts
  | Browser parseBody => Ok (convertNode opts (Some (lit "html")) (parseBody html))
  end.

(** *** Text metrics *)

(** [/[^\w\s]/g] *)
Definition rePunctuation : regex :=
  Chr (fun c => negb (isWordChar c || isWhiteSpace c)).

(** [/\s+/] *)
Definition reSpaces : regex := Plus true (Chr isWhiteSpace).

Definition nonEmpty (s : jsstring) : bool :=
  match s with [] => false | _ :: _ => true end.

Definition countWords (text : jsstring) : Z :=
  Z.of_nat
    (length (List.filter nonEmpty (split reSpaces (replaceAll rePunctuation (const []) text)))).

(** [Math.ceil(words / wordsPerMinute)] for an integral, non-zero
    [wordsPerMinute]: the quotient is taken in the rationals. *)
Definition calculateReadingTime (text : jsstring) (wordsPerMinute : Z) : Z :=
  let words := countWords text in
  Qceiling (inject_Z words / inject_Z wordsPerMinute).

(** The default value of the parameter. *)
Definition defaultWordsPerMinute : Z := 200.

(** *** extractHeadings (HTML) *)

Inductive HeadingLevel : Type := h1 | h2 | h3 | h4 | h5 | h6.

Definition levelName (l : HeadingLevel) : string :=
  match l with
  | h1 => "h1" | h2 => "h2" | h3 => "h3" | h4 => "h4" | h5 => "h5" | h6 => "h6"
  end.

Definition defaultLevels : list HeadingLevel := [h2; h3; h4].

(** [levels.join('|')] inside the group.  The parameter is typed [string[]];
    its values are the tag names [h1] to [h6]. *)
Definition levelPattern (levels : list HeadingLevel) : regex :=
  altOf (List.map (fun l => StrI (lit (levelName l))) levels).

(** [<(levelPattern)[^>]*(?:id=Q([^Q]* )Q)?[^>]*>(.*?)<\/\1>] with flags [gi] *)
Definition reHeading (levels : list HeadingLevel) : regex :=
  seqOf [ Is LT; Group 1 (levelPattern levels); notGT;
          Opt (reAttr "id" 2); notGT; Is GT;
          Group 3 lazyDot; StrI (lit "</"); Backref true 1; Is GT ].

(** What [extractHeadings] returns; [None] as a level is NaN. *)
Record HtmlHeading : Type := mkHtmlHeading {
  hid : jsstring;
  htext : jsstring;
  hlevel : option Z
}.

(** [parseInt(s.charAt(1), 10)] *)
Definition levelOf (s : jsstring) : option Z :=
  match s with
  | _ :: c :: _ => if isDigit c then Some (c - 48) else None
  | _ => None
  end.

(** The body of the [while] loop: one heading from one match.  Group 3 takes
    part in every match of the pattern, so [match[3]] is a string. *)
Definition headingOfMatch (cs : captures) (index : nat) : HtmlHeading :=
  let level := levelOf (cap 1 cs) in
  let id := orString (cap 2 cs) (lit "heading-" ++ natToString index) in
  let text := trim (replaceAll reAnyTag (const []) (cap 3 cs)) in
  mkHtmlHeading id text level.

(** [while ((match = regex.exec(html)) !== null)]: each [exec] resumes at
    [lastIndex], the end of the previous match.  A match of this pattern is
    never empty, so the loop ends within [length html] rounds. *)
Fixpoint execLoop (r : regex) (fuel index : nat) (bef s : jsstring) : list HtmlHeading :=
  match fuel with
  | O => []
  | S k =>
      match searchFrom r bef s with
      | Some (_, st') =>
          headingOfMatch (caps st') index ::
          execLoop r k (S index) (before st') (rest st')
      | None => []
      end
  end.

Definition extractHeadings (html : jsstring) (levels : list HeadingLevel) : list HtmlHeading :=
  execLoop (reHeading levels) (S (length html)) O [] html.

(** ** [src/hooks/use-toc.ts] *)

(** [/[^a-z0-9\s-]/g] *)
Definition isSlugChar (c : Z) : bool :=
  isLower c || isDigit c || isWhiteSpace c || (c =? HYPHEN).
Definition reNotSlugChar : regex := Chr (fun c => negb (isSlugChar c)).

(** [/\s+/g] is [reSpaces]; [/-+/g] *)
Definition reHyphens : regex := Plus true (Is HYPHEN).

(** [/^-+|-+$/g] *)
Definition reEdgeHyphens : regex :=
  Alt (Seq Bol (Plus true (Is HYPHEN))) (Seq (Plus true (Is HYPHEN)) Eol).

(** The chain of replacements both id generators share. *)
Definition slugOf (text : jsstring) : jsstring :=
  replaceAll reEdgeHyphens (const [])
    (replaceAll reHyphens (const [HYPHEN])
      (replaceAll reSpaces (const [HYPHEN])
        (replaceAll reNotSlugChar (const [])
          (toLowerCase text)))).

Definition generateHeadingId (text : jsstring) (index : nat) : jsstring :=
  let slug := substring0 50 (slugOf text) in
  orString slug (lit "heading-" ++ natToString index).

Inductive TOCHeading : Type :=
  mkHeading (id text : jsstring) (level : Z) (children : option (list TOCHeading)).

Definition id (h : TOCHeading) : jsstring := let 'mkHeading i _ _ _ := h in i.
Definition text (h : TOCHeading) : jsstring := let 'mkHeading _ t _ _ := h in t.
Definition level (h : TOCHeading) : Z := let 'mkHeading _ _ l _ := h in l.
Definition children (h : TOCHeading) : option (list TOCHeading) :=
  let 'mkHeading _ _ _ c := h in c.

(** *** buildNestedTOC

    The items the loop creates are shared: the same object sits in [result] or
    in its parent's [children] and on the stack, and is extended after it was
    stored.  The objects therefore live in a store, addressed by the order of
    their creation, and arrays hold addresses. *)

Record Item : Type := mkItem {
  itemId : jsstring;
  itemText : jsstring;
  itemLevel : Z;
  itemChildren : option (list nat)
}.

Record Builder : Type := mkBuilder {
  store : list Item;
  result_ : list nat;              (* the array result of the source *)
  stack : list (nat * Z)           (* top of the stack first *)
}.

(** [while (stack.length > 0 && stack[stack.length - 1].level >= level) stack.pop()] *)
Fixpoint popWhile (lvl : Z) (stk : list (nat * Z)) : list (nat * Z) :=
  match stk with
  | (a, l) :: tl => if lvl <=? l then popWhile lvl tl else stk
  | [] => []
  end.

(** [parent.children.push(item)], creating the array if it is missing. *)
Definition pushChild (child : nat) (parent : Item) : Item :=
  mkItem (itemId parent) (itemText parent) (itemLevel parent)
    (Some (match itemChildren parent with Some cs => cs | None => [] end ++ [child])).

(** One round of the [for] loop. *)
Definition addHeading (b : Builder) (heading : TOCHeading) : Builder :=
  let item := length (store b) in
  let store1 := store b ++ [mkItem (id heading) (text heading) (level heading) (Some [])] in
  let stack1 := popWhile (level heading) (stack b) in
  match stack1 with
  | [] =>
      mkBuilder store1 (result_ b ++ [item]) ((item, level heading) :: stack1)
  | (parent, _) :: _ =>
      mkBuilder (alter (pushChild item) parent store1) (result_ b)
        ((item, level heading) :: stack1)
  end.

(** The value behind an address, read once the loop is over.  Children are
    created after their parent, so [length store] levels are enough. *)
Fixpoint reify (fuel : nat) (st : list Item) (a : nat) : option TOCHeading :=
  match fuel with
  | O => None
  | S k =>
      match st !! a with
      | Some it =>
          Some (mkHeading (itemId it) (itemText it) (itemLevel it)
                  (match itemChildren it with
                   | Some cs => Some (omap (reify k st) cs)
                   | None => None
                   end))
      | None => None
      end
  end.

Definition buildNestedTOC (headings : list TOCHeading) : list TOCHeading :=
  match headings with
  | [] => []
  | _ :: _ =>
      let b := fold_left addHeading headings (mkBuilder [] [] []) in
      omap (reify (S (length (store b))) (store b)) (result_ b)
  end.

(** ** [src/server/generate-markdown.ts] *)

(** [LLMContent].  The type declares [title], [content] and [url] required and
    the rest optional; [None] is a property that is missing (undefined).
    [url] is kept optional here as well, because the specification's
    ContentRecord has it optional: a template literal renders the missing
    value as the text undefined.  [readingTime] is an integral Number
    (below 10^21, where JavaScript prints all the digits). *)
Record LLMContent : Type := mkContent {
  title : jsstring;
  content : jsstring;
  excerpt : option jsstring;
  url : option jsstring;
  date : option jsstring;
  modifiedDate : option jsstring;
  author : option jsstring;
  categories : option (list jsstring);
  tags : option (list jsstring);
  promptPrefix : option jsstring;
  image : option jsstring;
  readingTime : option Z
}.

Record MarkdownOutput : Type := mkOutput {
  markdown : jsstring;
  wordCount : Z;
  readingTime_ : Z;      (* readingTime in the source, as in LLMContent *)
  headings : list TOCHeading
}.

(** [`${value}`] for an optional string *)
Definition render (o : option jsstring) : jsstring :=
  match o with Some s => s | None => lit "undefined" end.

(** Truthiness of an optional string: present and not empty. *)
Definition truthy (o : option jsstring) : bool :=
  match o with Some (_ :: _) => true | _ => false end.

(** [array?.length] as a condition *)
Definition hasItems (o : option (list jsstring)) : bool :=
  match o with Some (_ :: _) => true | _ => false end.

Definition items (o : option (list jsstring)) : list jsstring :=
  match o with Some l => l | None => [] end.

(** Truthiness of an optional integral Number. *)
Definition nonZero (o : option Z) : bool :=
  match o with Some z => negb (z =? 0) | None => false end.

Definition push (x : jsstring) (parts : list jsstring) : list jsstring := parts ++ [x].

Definition pushIf (b : bool) (x : jsstring) (parts : list jsstring) : list jsstring :=
  if b then push x parts else parts.

(** [/<[a-z][\s\S]*>/i] *)
Definition reHTML : regex :=
  seqOf [ Is LT; Chr (fun c => isLower (fold c)); Star true DotAll; Is GT ].

Definition isHTML (str : jsstring) : bool := test reHTML str.

(** [generateSlug]: the chain of [generateHeadingId] without [substring]. *)
Definition generateSlug (text : jsstring) (index : nat) : jsstring :=
  orString (slugOf text) (lit "heading-" ++ natToString index).

(** [/^(#{1,6})\s+(.+)$/] *)
Definition reMarkdownHeading : regex :=
  seqOf [ Bol; Group 1 (Repeat 1 5 (Is 35)); Plus true (Chr isWhiteSpace);
          Group 2 (Plus true Dot); Eol ].

(** [markdown.split('\n')] *)
Fixpoint splitLines (acc s : jsstring) : list jsstring :=
  match s with
  | [] => [rev acc]
  | c :: tl => if c =? NL then rev acc :: splitLines [] tl else splitLines (c :: acc) tl
  end.

Definition lines (s : jsstring) : list jsstring := splitLines [] s.

Fixpoint headingLines (ls : list jsstring) (index : nat) : list TOCHeading :=
  match ls with
  | [] => []
  | line :: tl =>
      match firstMatch reMarkdownHeading line with
      | Some cs =>
          let level := Z.of_nat (length (cap 1 cs)) in
          let text := trim (cap 2 cs) in
          let id := generateSlug text index in
          mkHeading id text level None :: headingLines tl (S index)
      | None => headingLines tl index
      end
  end.

Definition extractMarkdownHeadings (markdown : jsstring) : list TOCHeading :=
  headingLines (lines markdown) O.

(** The pushes of [generateMarkdown] up to the body, in program order. *)
Definition headParts (c : LLMContent) : list jsstring :=
  let parts := [] in
  let prefix := match promptPrefix c with Some p => trim p | None => [] end in
  let parts := if nonEmpty prefix then push [] (push prefix parts) else parts in
  let parts := push (lit "# " ++ title c) parts in
  let parts := push [] parts in
  let parts :=
    if truthy (excerpt c) then push [] (push (lit "> " ++ render (excerpt c)) parts)
    else parts in
  let parts := push (lit "---") parts in
  let parts := push (lit "- **Source**: " ++ render (url c)) parts in
  let parts := pushIf (truthy (date c)) (lit "- **Date**: " ++ render (date c)) parts in
  let parts :=
    pushIf (truthy (modifiedDate c)) (lit "- **Modified**: " ++ render (modifiedDate c)) parts in
  let parts := pushIf (truthy (author c)) (lit "- **Author**: " ++ render (author c)) parts in
  let parts :=
    pushIf (hasItems (categories c))
      (lit "- **Categories**: " ++ join (lit ", ") (items (categories c))) parts in
  let parts :=
    pushIf (hasItems (tags c)) (lit "- **Tags**: " ++ join (lit ", ") (items (tags c))) parts in
  let parts :=
    pushIf (nonZero (readingTime c))
      (lit "- **Reading Time**: " ++
       intToString (match readingTime c with Some z => z | None => 0 end) ++ lit " min")
      parts in
  let parts := push (lit "---") parts in
  push [] parts.

(** All the pushes: the head, then the body when there is one. *)
Definition allParts (env : Env) (c : LLMContent) : result (list jsstring) :=
  let parts := headParts c in
  if nonEmpty (content c)
  then
    let* contentMarkdown :=
      (if isHTML (content c) then htmlToMarkdown env (content c) noOptions
       else Ok (content c)) in
    Ok (push contentMarkdown parts)
  else Ok parts.

Definition generateMarkdown (env : Env) (c : LLMContent) : result MarkdownOutput :=
  let* parts := allParts env c in
  let markdown := trim (join [NL] parts) in
  let wordCount := countWords markdown in
  let readingTime := calculateReadingTime markdown defaultWordsPerMinute in
  let headings := extractMarkdownHeadings markdown in
  Ok (mkOutput markdown wordCount readingTime headings).

Definition generateMarkdownString (env : Env) (c : LLMContent) : result jsstring :=
  let* out := generateMarkdown env c in Ok (markdown out).

(** ** Route handlers *)

(** A parsed JSON document. *)
Inductive JSON : Type :=
| JNull
| JBool (b : bool)
| JNumber (x : spec_float)
| JString (s : jsstring)
| JArray (elements : list JSON)
| JObject (fields : list (jsstring * JSON)).

(** A JavaScript value read from a request: [None] is undefined. *)
Definition JSValue := option JSON.

(** Truthiness. *)
Definition truthyJSON (v : JSON) : bool :=
  match v with
  | JNull => false
  | JBool b => b
  | JNumber (S754_zero _) | JNumber S754_nan => false
  | JNumber _ => true
  | JString s => nonEmpty s
  | JArray _ | JObject _ => true
  end.

Definition truthyValue (v : JSValue) : bool :=
  match v with Some j => truthyJSON j | None => false end.

(** [body.key] for one of the keys the handlers read (action, contentId, url,
    metadata): reading a property of null is a TypeError; values other than
    objects have no such property. *)
Definition getProp (body : JSON) (key : string) : result JSValue :=
  match body with
  | JNull => Throw (lit "TypeError: Cannot read properties of null")
  | JObject fields => Ok (lookupString (lit key) fields)
  | _ => Ok None
  end.

(** [body?.key]: undefined and null give undefined. *)
Definition getPropOpt (body : JSValue) (key : string) : JSValue :=
  match body with
  | Some (JObject fields) => lookupString (lit key) fields
  | _ => None
  end.

(** [a || b] *)
Definition orValue (a b : JSValue) : JSValue := if truthyValue a then a else b.

Inductive Body : Type :=
| NoBody
| TextBody (s : jsstring)
| JsonBody (fields : list (jsstring * JSON)).

Record Response : Type := mkResponse {
  status : Z;
  headers : list (jsstring * jsstring);    (* the headers the handler passes *)
  body : Body
}.

(** *** [src/api/markdown-handler.ts] *)

Record MarkdownHandlerOptions : Type := mkMarkdownOptions {
  getContent : jsstring -> result (option LLMContent);
  cacheControl : option jsstring;
  cors : option bool
}.

Definition corsGet (o : option bool) : list (jsstring * jsstring) :=
  if on o
  then [ (lit "Access-Control-Allow-Origin", lit "*");
         (lit "Access-Control-Allow-Methods", lit "GET") ]
  else [].

Definition markdownHeaders (options : MarkdownHandlerOptions) : list (jsstring * jsstring) :=
  [ (lit "Content-Type", lit "text/markdown; charset=utf-8");
    (lit "Cache-Control",
     orString (match cacheControl options with Some s => s | None => [] end)
       (lit "public, max-age=3600"));
    (lit "X-Robots-Tag", lit "noindex") ] ++ corsGet (cors options).

(** The [try] block of the handler [createMarkdownHandler] returns. *)
Definition markdownHandlerTry (env : Env) (options : MarkdownHandlerOptions)
    (slugParam : option jsstring) : result Response :=
  let slug := match slugParam with Some s => s | None => [] end in
  let* content := getContent options slug in
  match content with
  | None =>
      Ok (mkResponse 404 [ (lit "Content-Type", lit "text/plain") ]
            (TextBody (lit "Content not found")))
  | Some c =>
      let* markdown := generateMarkdownString env c in
      Ok (mkResponse 200 (markdownHeaders options) (TextBody markdown))
  end.

(** [createMarkdownHandler(options)(request, { params })]; [slugParam] is
    [params?.slug]. *)
Definition createMarkdownHandler (env : Env) (options : MarkdownHandlerOptions)
    (slugParam : option jsstring) : Response :=
  match markdownHandlerTry env options slugParam with
  | Ok response => response
  | Throw _ => mkResponse 500 [] (TextBody (lit "Error generating markdown"))
  end.

(** *** [src/api/analytics-handler.ts] *)

Record AnalyticsEvent : Type := mkEvent {
  action : JSON;
  contentId : JSValue;
  eventUrl : JSValue;    (* url in the source, as in LLMContent *)
  timestamp : jsstring;
  metadata : JSValue
}.

(** The storage adapter acts on a state of its own; [save] may reject. *)
Record AnalyticsStorageAdapter (S : Type) : Type := mkAdapter {
  save : AnalyticsEvent -> S -> result S;
  getAll : S -> result (list AnalyticsEvent);
  clear : S -> result S
}.
Arguments save {S} _ _ _.
Arguments getAll {S} _ _.
Arguments clear {S} _ _.

(** [createInMemoryStorage] *)
Definition createInMemoryStorage : AnalyticsStorageAdapter (list AnalyticsEvent) :=
  mkAdapter (list AnalyticsEvent)
    (fun event events => Ok (events ++ [event]))
    (fun events => Ok events)
    (fun _ => Ok []).

Record AnalyticsHandlerOptions (S : Type) : Type := mkAnalyticsOptions {
  storage : AnalyticsStorageAdapter S;
  rateLimit : option Z;
  analyticsCors : option bool
}.
Arguments storage {S} _.
Arguments rateLimit {S} _.
Arguments analyticsCors {S} _.

Record ClientData : Type := mkClientData {
  count : Z;
  resetAt : Z
}.

(** What the handler closes over ([requestCounts]) and the adapter's state. *)
Record HandlerState (S : Type) : Type := mkHandlerState {
  requestCounts : gmap jsstring ClientData;
  stored : S
}.
Arguments mkHandlerState {S} _ _.
Arguments requestCounts {S} _.
Arguments stored {S} _.

(** A request as the handler observes it, with the two clock readings it
    makes: [Date.now()] and [new Date().toISOString()]. *)
Record Request : Type := mkRequest {
  method : jsstring;
  forwardedFor : option jsstring;     (* headers.get('x-forwarded-for') *)
  referer : option jsstring;          (* headers.get('referer') *)
  json : result JSON;                 (* await request.json() *)
  now : Z;
  isoNow : jsstring
}.

Definition windowMs : Z := 60000.

(** [Math.ceil((resetAt - now) / 1000).toString()] *)
Definition retryAfter (data : ClientData) (now : Z) : Z :=
  Qceiling (inject_Z (resetAt data - now) / inject_Z 1000).

(** [request.headers.get('x-forwarded-for') || 'unknown'] *)
Definition clientKey (request : Request) : jsstring :=
  orString (match forwardedFor request with Some s => s | None => [] end) (lit "unknown").

(** The rate-limiting block: the updated map, and the 429 response when the
    client is over the limit. *)
Definition rateLimitStep (limit : Z) (request : Request)
    (counts : gmap jsstring ClientData) : gmap jsstring ClientData * option Response :=
  let clientIp := clientKey request in
  let now := now request in
  let clientData :=
    match counts !! clientIp with
    | Some d => d
    | None => mkClientData 0 (now + windowMs)
    end in
  let clientData :=
    if resetAt clientData <? now then mkClientData 0 (now + windowMs) else clientData in
  let clientData := mkClientData (count clientData + 1) (resetAt clientData) in
  let counts := <[clientIp := clientData]> counts in
  if limit <? count clientData
  then (counts,
        Some (mkResponse 429
                [ (lit "Retry-After", intToString (retryAfter clientData now)) ]
                (TextBody (lit "Rate limit exceeded"))))
  else (counts, None).

Definition jsonOfValue (v : JSValue) : list JSON :=
  match v with Some j => [j] | None => [] end.

(** The event as [NextResponse.json] serialises it: undefined properties are
    left out. *)
Definition eventJSON (e : AnalyticsEvent) : JSON :=
  JObject
    ([ (lit "action", action e) ] ++
     List.map (fun j => (lit "contentId", j)) (jsonOfValue (contentId e)) ++
     List.map (fun j => (lit "url", j)) (jsonOfValue (eventUrl e)) ++
     [ (lit "timestamp", JString (timestamp e)) ] ++
     List.map (fun j => (lit "metadata", j)) (jsonOfValue (metadata e))).

Definition headerValue (o : option jsstring) : JSON :=
  match o with Some s => JString s | None => JNull end.

(** The event the App Router handler builds from a parsed body. *)
Definition buildEvent (request : Request) (body : JSON) : result AnalyticsEvent :=
  let* a := getProp body "action" in
  let* cid := getProp body "contentId" in
  let* u := getProp body "url" in
  let* m := getProp body "metadata" in
  Ok (mkEvent
        (match orValue a (Some (JString (lit "copy"))) with
         | Some j => j
         | None => JString (lit "copy")
         end)
        cid
        (orValue u (Some (headerValue (referer request))))
        (isoNow request)
        m).

(** The [try] block of the App Router handler. *)
Definition analyticsTry {S : Type} (options : AnalyticsHandlerOptions S)
    (request : Request) (st : S) : result (Response * S) :=
  let* body := json request in
  let* event := buildEvent request body in
  let* st' := save (storage options) event st in
  let headers :=
    [ (lit "Content-Type", lit "application/json") ] ++
    (if on (analyticsCors options) then [ (lit "Access-Control-Allow-Origin", lit "*") ]
     else []) in
  Ok (mkResponse 200 headers
        (JsonBody [ (lit "success", JBool true); (lit "event", eventJSON event) ]),
      st').

Definition failureBody : Body :=
  JsonBody [ (lit "success", JBool false);
             (lit "error", JString (lit "Failed to track event")) ].

(** [createAnalyticsHandler(options)], one call of the handler it returns. *)
Definition createAnalyticsHandler {S : Type} (options : AnalyticsHandlerOptions S)
    (state : HandlerState S) (request : Request) : Response * HandlerState S :=
  if eqString (method request) (lit "OPTIONS")
  then (mkResponse 204
          [ (lit "Access-Control-Allow-Origin", lit "*");
            (lit "Access-Control-Allow-Methods", lit "POST, OPTIONS");
            (lit "Access-Control-Allow-Headers", lit "Content-Type") ]
          NoBody,
        state)
  else if negb (eqString (method request) (lit "POST"))
  then (mkResponse 405 [] (TextBody (lit "Method Not Allowed")), state)
  else
    let '(counts, limited) :=
      if nonZero (rateLimit options)
      then rateLimitStep (match rateLimit options with Some l => l | None => 0 end)
             request (requestCounts state)
      else (requestCounts state, None) in
    match limited with
    | Some response => (response, mkHandlerState counts (stored state))
    | None =>
        match analyticsTry options request (stored state) with
        | Ok (response, st') => (response, mkHandlerState counts st')
        | Throw _ => (mkResponse 500 [] failureBody, mkHandlerState counts (stored state))
        end
    end.

(** The request object of the Pages Router. *)
Record PageRequest : Type := mkPageRequest {
  pageMethod : option jsstring;
  pageBody : JSValue;
  pageReferer : option jsstring;      (* req.headers?.referer *)
  pageIsoNow : jsstring
}.

Definition buildPageEvent (req : PageRequest) : AnalyticsEvent :=
  let body := pageBody req in
  mkEvent
    (match orValue (getPropOpt body "action") (Some (JString (lit "copy"))) with
     | Some j => j
     | None => JString (lit "copy")
     end)
    (getPropOpt body "contentId")
    (orValue (getPropOpt body "url")
       (match pageReferer req with Some s => Some (JString s) | None => None end))
    (pageIsoNow req)
    (getPropOpt body "metadata").

(** [createAnalyticsPageHandler(options)], one call: the response written to
    [res] and the adapter's state. *)
Definition createAnalyticsPageHandler {S : Type} (options : AnalyticsHandlerOptions S)
    (st : S) (req : PageRequest) : Response * S :=
  if negb (eqString (match pageMethod req with Some m => m | None => [] end) (lit "POST"))
  then (mkResponse 405 [] (TextBody (lit "Method Not Allowed")), st)
  else
    let event := buildPageEvent req in
    match save (storage options) event st with
    | Ok st' =>
        (mkResponse 200
           (if on (analyticsCors options)
            then [ (lit "Access-Control-Allow-Origin", lit "*") ] else [])
           (JsonBody [ (lit "success", JBool true); (lit "event", eventJSON event) ]),
         st')
    | Throw _ => (mkResponse 500 [] failureBody, st)
    end.

(** ** Notions used in the statements *)

(** The next request of this client starts a new window: the client has no
    entry, or its entry has expired. *)
Definition opensWindow (counts : gmap jsstring ClientData) (key : jsstring) (t : Z) : Prop :=
  match counts !! key with
  | Some d => resetAt d < t
  | None => True
  end.

(** The entry of a client after one more request: what the rate-limiting
    block writes back. *)
Definition nextClientData (counts : gmap jsstring ClientData) (request : Request)
  : ClientData :=
  let d :=
    match counts !! clientKey request with
    | Some d => d
    | None => mkClientData 0 (now request + windowMs)
    end in
  let d := if resetAt d <? now request then mkClientData 0 (now request + windowMs) else d in
  mkClientData (count d + 1) (resetAt d).

(** The response to a request over the limit. *)
Definition tooManyRequests (data : ClientData) (request : Request) : Response :=
  mkResponse 429
    [ (lit "Retry-After", intToString (retryAfter data (now request))) ]
    (TextBody (lit "Rate limit exceeded")).

(** A request the handler accepts as an event: a POST whose body parses to a
    JSON value other than null. *)
Definition validPost (request : Request) : Prop :=
  method request = lit "POST" /\
  exists body, json request = Ok body /\ body <> JNull.

(** An adapter whose [save] never rejects. *)
Definition neverRejects {S : Type} (adapter : AnalyticsStorageAdapter S) : Prop :=
  forall event st, exists st', save adapter event st = Ok st'.

(** A value that [||] passes over: undefined or falsy. *)
Definition isFalsy (v : JSValue) : Prop :=
  v = None \/ exists j, v = Some j /\ truthyJSON j = false.

(** ** Sample inputs *)

Definition samplePost : LLMContent :=
  mkContent (lit "Hello") (lit "<p>Hi <b>there</b></p>") None
    (Some (lit "https://example.com/blog/hello")) (Some (lit "2024-01-01")) None None
    (Some [lit "news"; lit "tech"]) None None None (Some 5).

Definition sampleMarkdownOptions : MarkdownHandlerOptions :=
  mkMarkdownOptions
    (fun slug => if eqString slug (lit "hello") then Ok (Some samplePost) else Ok None)
    None None.

Definition sampleAnalyticsOptions : AnalyticsHandlerOptions (list AnalyticsEvent) :=
  mkAnalyticsOptions (list AnalyticsEvent) createInMemoryStorage (Some 2) None.

Definition sampleRequest (t : Z) (bodyAction : jsstring) : Request :=
  mkRequest (lit "POST") (Some (lit "203.0.113.7")) None
    (Ok (JObject [ (lit "action", JString bodyAction) ]))
    t (lit "2024-01-01T00:00:00.000Z").

Definition freshState : HandlerState (list AnalyticsEvent) := mkHandlerState ∅ [].

(** ** The metadata block, as the specification describes it *)











Definition isRule (line : jsstring) : bool := eqString line (lit "---").

Fixpoint dropUntil {A : Type} (p : A -> bool) (l : list A) : list A :=
  match l with
  | [] => []
  | x :: tl => if p x then tl else dropUntil p tl
  end.

Fixpoint takeUntil {A : Type} (p : A -> bool) (l : list A) : list A :=
  match l with
  | [] => []
  | x :: tl => if p x then [] else x :: takeUntil p tl
  end.

(** The lines of a document between its first two [---] lines. *)
Definition metadataBlock (document : jsstring) : list jsstring :=
  takeUntil isRule (dropUntil isRule (lines document)).




(** ** The slug chain, step by step, as functions on lists

    These describe what the four replacements of [slugOf] compute; Part II
    proves that the matcher agrees with them. *)

Definition isHyphen (c : Z) : bool := HYPHEN =? c.

(** The states a greedy star over one character class passes through, the
    longest run first. *)
Fixpoint chrStar (p : Z -> bool) (bef s : jsstring) (cs : captures) : list MatchState :=
  match s with
  | c :: tl =>
      if p c then chrStar p (c :: bef) tl cs ++ [mkState bef s cs]
      else [mkState bef s cs]
  | [] => [mkState bef [] cs]
  end.

(** Where the longest run of [p] from a position ends. *)
Fixpoint runEnd (p : Z -> bool) (bef s : jsstring) : jsstring * jsstring :=
  match s with
  | c :: tl => if p c then runEnd p (c :: bef) tl else (bef, s)
  | [] => (bef, [])
  end.

(** Every maximal run of [p] becomes one hyphen; [inRun] tells that the run
    the position is in has been replaced already. *)
Fixpoint squash (p : Z -> bool) (inRun : bool) (s : jsstring) : jsstring :=
  match s with
  | [] => []
  | c :: tl =>
      if p c then (if inRun then squash p true tl else HYPHEN :: squash p true tl)
      else c :: squash p false tl
  end.

(** Without the hyphens the string ends with. *)
Fixpoint stripTrailing (s : jsstring) : jsstring :=
  match s with
  | [] => []
  | c :: tl => if forallb isHyphen s then [] else c :: stripTrailing tl
  end.

(** The characters of a finished slug. *)
Definition slugAlphabet (c : Z) : bool := isLower c || isDigit c || isHyphen c.

Fixpoint noRun (s : jsstring) : bool :=
  match s with
  | a :: tl =>
      match tl with
      | b :: _ => negb (isHyphen a && isHyphen b) && noRun tl
      | [] => true
      end
  | [] => true
  end.

Definition noLead (s : jsstring) : bool :=
  match s with c :: _ => negb (isHyphen c) | [] => true end.

Fixpoint noTrail (s : jsstring) : bool :=
  match s with
  | [] => true
  | c :: tl => match tl with [] => negb (isHyphen c) | _ :: _ => noTrail tl end
  end.

(** A slug in final form: lower-case letters, digits and single hyphens, no
    hyphen at either end. *)
Definition normal (s : jsstring) : bool :=
  forallb slugAlphabet s && noRun s && noLead s && noTrail s.

(** Idempotence of the truncating id generator, as the specification states
    it. *)
Definition headingIdIdempotent (text : jsstring) (index : nat) : Prop :=
  generateHeadingId (generateHeadingId text index) index = generateHeadingId text index.

(** Forty-nine letters, a space and one more letter. *)
Definition longText : jsstring := repeat 97 49 ++ lit " b".

(** ** The two strategies on one input *)

Definition isVoid (tagName : jsstring) : bool :=
  existsb (eqString tagName) [lit "br"; lit "hr"; lit "img"].

Definition attrText (a : jsstring * jsstring) : jsstring :=
  lit " " ++ fst a ++ lit "=" ++ [DQUOTE] ++ snd a ++ [DQUOTE].

(** The HTML text of a tree whose text nodes and attribute values contain no
    markup characters (nothing has to be escaped): the input the parser turns
    into that tree. *)
Fixpoint outerHTML (n : Node) : jsstring :=
  match n with
  | TextNode data => data
  | OtherNode => lit "<!---->"
  | Element tagName attrs kids =>
      lit "<" ++ tagName ++ concat (List.map attrText attrs) ++ lit ">" ++
      (if isVoid tagName then []
       else concat (List.map outerHTML kids) ++ lit "</" ++ tagName ++ lit ">")
  end.

Definition innerHTML (n : Node) : jsstring :=
  match n with
  | Element _ _ kids => concat (List.map outerHTML kids)
  | _ => []
  end.

(** [countWords] after [decodeHTMLEntities] gives the same number for the
    Markdown of the two strategies, for the document whose body is [body]. *)
Definition strategiesAgree (options : HTMLToMarkdownOptions) (body : Node) : Prop :=
  forall structural pattern,
    htmlToMarkdown (Browser (fun _ => body)) (innerHTML body) options = Ok structural ->
    htmlToMarkdown Server (innerHTML body) options = Ok pattern ->
    countWords (decodeHTMLEntities structural) = countWords (decodeHTMLEntities pattern).

(** A list of two items, each with a line break in its text. *)
Definition twoItems : Node :=
  Element (lit "body") []
    [ Element (lit "ul") []
        [ Element (lit "li") [] [ TextNode (lit "first" ++ [NL] ++ lit "item") ];
          Element (lit "li") [] [ TextNode (lit "second" ++ [NL] ++ lit "item") ] ] ].

(** ** Notions for the heading extractor *)

(** [st'] lies further along the same input than [st]. *)
Definition reaches (st st' : MatchState) : Prop :=
  exists w, rest st = w ++ rest st' /\ before st' = rev w ++ before st.





(** ** The action rule as stated, for one request on the in-memory storage *)

(** The request is let through, and an event is stored whose action is the
    body's own value when that is truthy and [copy] when it is missing or
    falsy. *)
Definition persistsAction (request : Request) : Prop :=
  forall body,
    json request = Ok body ->
    exists event,
      stored (snd (createAnalyticsHandler sampleAnalyticsOptions freshState request))
      = [event] /\
      (forall v, getPropOpt (Some body) "action" = Some v -> truthyJSON v = true ->
                 action event = v) /\
      (isFalsy (getPropOpt (Some body) "action") -> action event = JString (lit "copy")).

(** A POST whose body is the JSON text [null]. *)
Definition nullPost : Request :=
  mkRequest (lit "POST") (Some (lit "203.0.113.7")) None (Ok JNull)
    0 (lit "2024-01-01T00:00:00.000Z").

Definition nullPagePost : PageRequest :=
  mkPageRequest (Some (lit "POST")) (Some JNull) None (lit "2024-01-01T00:00:00.000Z").

(** The same list with each item on one line, and two headings that span
    two lines. *)
Definition twoItemsOneLine : Node :=
  Element (lit "body") []
    [ Element (lit "ul") []
        [ Element (lit "li") [] [ TextNode (lit "first item") ];
          Element (lit "li") [] [ TextNode (lit "second item") ] ] ].

Definition twoHeadings : Node :=
  Element (lit "body") []
    [ Element (lit "h2") [] [ TextNode (lit "first" ++ [NL] ++ lit "part") ];
      Element (lit "h2") [] [ TextNode (lit "second" ++ [NL] ++ lit "part") ] ].

(** The word count of the decoded Markdown of each strategy. *)
Definition wordCounts (body : Node) : option (Z * Z) :=
  match htmlToMarkdown (Browser (fun _ => body)) (innerHTML body) noOptions,
        htmlToMarkdown Server (innerHTML body) noOptions with
  | Ok structural, Ok pattern =>
      Some (countWords (decodeHTMLEntities structural),
            countWords (decodeHTMLEntities pattern))
  | _, _ => None
  end.

(** A record whose url is the empty string. *)
Definition recordWithEmptyUrl : LLMContent :=
  mkContent (lit "Notes") (lit "Plain body.") None (Some []) None
    None None None None None None None.

(* ===================================================================== *)
(** * Part I, continued: the rest of the cited files and their callers    *)
(* ===================================================================== *)

(** ** The analytics handler over a sequence of requests *)

(** The handler [createAnalyticsHandler] returns, called once per request:
    the responses in order and the state left behind. *)
Fixpoint serve {S : Type} (options : AnalyticsHandlerOptions S) (state : HandlerState S)
    (requests : list Request) : list Response * HandlerState S :=
  match requests with
  | [] => ([], state)
  | request :: tl =>
      let '(response, state1) := createAnalyticsHandler options state request in
      let '(responses, state2) := serve options state1 tl in
      (response :: responses, state2)
  end.

(** The requests that were answered 200. *)
Definition accepted (requests : list Request) (responses : list Response) : list Request :=
  List.map fst (List.filter (fun p => status (snd p) =? 200) (combine requests responses)).

(** Options over the in-memory storage. *)
Definition inMemoryOptions (limit : option Z) (allowCors : option bool)
  : AnalyticsHandlerOptions (list AnalyticsEvent) :=
  mkAnalyticsOptions (list AnalyticsEvent) createInMemoryStorage limit allowCors.

(** ** Words as runs of characters *)

(** The number of maximal runs of characters that satisfy [p]; [inside] tells
    that the position is inside such a run. *)
Fixpoint countRuns (p : Z -> bool) (inside : bool) (s : jsstring) : nat :=
  match s with
  | [] => O
  | c :: tl =>
      if p c then (if inside then countRuns p true tl else S (countRuns p true tl))
      else countRuns p false tl
  end.

(** What [/[^\w\s]/g] leaves in place. *)
Definition isWordOrSpace (c : Z) : bool := isWordChar c || isWhiteSpace c.

Definition notSpace (c : Z) : bool := negb (isWhiteSpace c).

(** ** Patterns that can only match at a given character *)

(** Every match of [r] begins with a character of the class [q]. *)
Fixpoint opensWith (q : Z -> bool) (r : regex) : Prop :=
  match r with
  | Chr p => forall c, p c = true -> q c = true
  | Seq r1 _ => opensWith q r1
  | Alt r1 r2 => opensWith q r1 /\ opensWith q r2
  | Group _ r1 => opensWith q r1
  | _ => False
  end.

(** [s.includes(c)] for a one-character string [c]. *)
Definition includes (c : Z) (s : jsstring) : bool := existsb (Z.eqb c) s.

Definition AMP : Z := 38.

(** ** Runs of line feeds *)

(** Every run of line feeds cut down to two: what replacing [/\n{3,}/g] by
    two line feeds computes.  [k] counts the line feeds of the current run
    that were kept. *)
Fixpoint capRuns (k : nat) (s : jsstring) : jsstring :=
  match s with
  | [] => []
  | c :: tl =>
      if c =? NL then (if (k <? 2)%nat then c :: capRuns (S k) tl else capRuns k tl)
      else c :: capRuns O tl
  end.

(** No three line feeds in a row. *)
Fixpoint noBlankRun (s : jsstring) : bool :=
  match s with
  | a :: tl =>
      match tl with
      | b :: c :: _ => negb ((a =? NL) && (b =? NL) && (c =? NL)) && noBlankRun tl
      | _ => true
      end
  | [] => true
  end.

(** Neither the first nor the last character is white space. *)
Definition trimmed (s : jsstring) : bool :=
  match s with
  | [] => true
  | c :: _ => negb (isWhiteSpace c) && negb (isWhiteSpace (List.last s c))
  end.

(** The number of line feeds a string begins with. *)
Fixpoint leadNL (s : jsstring) : nat :=
  match s with
  | c :: tl => if c =? NL then S (leadNL tl) else O
  | [] => O
  end.

(** ** [src/hooks/use-llm-copy.ts] *)

(** The pushes of [generateMarkdownFromContent] up to the body: those of
    [generateMarkdown] without the Modified and Reading Time lines. *)
Definition clientHeadParts (c : LLMContent) : list jsstring :=
  let parts := [] in
  let prefix := match promptPrefix c with Some p => trim p | None => [] end in
  let parts := if nonEmpty prefix then push [] (push prefix parts) else parts in
  let parts := push (lit "# " ++ title c) parts in
  let parts := push [] parts in
  let parts :=
    if truthy (excerpt c) then push [] (push (lit "> " ++ render (excerpt c)) parts)
    else parts in
  let parts := push (lit "---") parts in
  let parts := push (lit "- **Source**: " ++ render (url c)) parts in
  let parts := pushIf (truthy (date c)) (lit "- **Date**: " ++ render (date c)) parts in
  let parts := pushIf (truthy (author c)) (lit "- **Author**: " ++ render (author c)) parts in
  let parts :=
    pushIf (hasItems (categories c))
      (lit "- **Categories**: " ++ join (lit ", ") (items (categories c))) parts in
  let parts :=
    pushIf (hasItems (tags c)) (lit "- **Tags**: " ++ join (lit ", ") (items (tags c))) parts in
  let parts := push (lit "---") parts in
  push [] parts.

(** [generateMarkdownFromContent(content)] for a record ([inl]) or a string
    ([inr]). *)
Definition generateMarkdownFromContent (env : Env) (c : LLMContent + jsstring)
  : result jsstring :=
  match c with
  | inr s => Ok s
  | inl c =>
      let parts := clientHeadParts c in
      let* parts :=
        (if nonEmpty (content c)
         then
           let* contentMarkdown :=
             (if includes LT (content c) && includes GT (content c)
              then htmlToMarkdown env (content c) noOptions
              else Ok (content c)) in
           Ok (push contentMarkdown parts)
         else Ok parts) in
      Ok (trim (join [NL] parts))
  end.

(** [useContentStats(content)]: the word count and the reading time. *)
Definition useContentStats (env : Env) (c : LLMContent + jsstring) : result (Z * Z) :=
  let* markdown := generateMarkdownFromContent env c in
  Ok (countWords markdown, calculateReadingTime markdown defaultWordsPerMinute).

(** ** Heading levels *)

(** The number in a heading's tag name. *)
Definition levelNumber (l : HeadingLevel) : Z :=
  match l with
  | h1 => 1 | h2 => 2 | h3 => 3 | h4 => 4 | h5 => 5 | h6 => 6
  end.

(** ** [src/utils/download.ts] *)

(** [sanitizeFilename]: the chain of the id generators, cut at 100. *)
Definition sanitizeFilename (name : jsstring) : jsstring :=
  substring0 100 (slugOf name).

(** [s.split(c)[0]] for a one-character separator: the text before the
    first [c]. *)
Fixpoint beforeFirst (c : Z) (s : jsstring) : jsstring :=
  match s with
  | [] => []
  | x :: tl => if x =? c then [] else x :: beforeFirst c tl
  end.

(** [generateFilename(title)]; [iso] is [new Date().toISOString()]. *)
Definition generateFilename (title iso : jsstring) : jsstring :=
  let base := sanitizeFilename title in
  let date := beforeFirst 84 iso in
  base ++ lit "-" ++ date.

Record DownloadOptions : Type := mkDownloadOptions {
  filename : option jsstring;
  extension : option jsstring;
  includeMetadata : option bool
}.

Definition defaultDownloadOptions : DownloadOptions :=
  mkDownloadOptions (Some (lit "content")) (Some (lit "md")) (Some false).

(** [{ ...defaultOptions, ...options }] *)
Definition mergeDownloadOptions (d o : DownloadOptions) : DownloadOptions :=
  mkDownloadOptions
    (orElse (filename o) (filename d))
    (orElse (extension o) (extension d))
    (orElse (includeMetadata o) (includeMetadata d)).

(** What [downloadAsFile] hands to the browser: the Blob with its type, and
    the [download] attribute of the link it clicks. *)
Record Download : Type := mkDownload {
  blobContent : jsstring;
  blobType : jsstring;
  downloadName : jsstring
}.

Definition downloadAsFile (content : jsstring) (options : DownloadOptions) : Download :=
  let opts := mergeDownloadOptions defaultDownloadOptions options in
  let filename :=
    sanitizeFilename
      (orString (match filename opts with Some s => s | None => [] end) (lit "content")) in
  let fullFilename := filename ++ lit "." ++ render (extension opts) in
  let mimeType :=
    if match extension opts with Some e => eqString e (lit "md") | None => false end
    then lit "text/markdown" else lit "text/plain" in
  mkDownload content (mimeType ++ lit ";charset=utf-8") fullFilename.

(** An ASCII lower-case letter or a digit. *)
Definition isAlnum (c : Z) : bool := isLower c || isDigit c.

(** ** The rows of [convertTable] *)

Definition cellsOf (row : Node) : list Node :=
  querySelectorAll [lit "th"; lit "td"] row.

(** The line of a row, and the separator line with as many columns. *)
Definition rowLine (row : Node) : jsstring :=
  lit "| " ++ join (lit " | ") (List.map (fun c => trim (textContent c)) (cellsOf row)) ++
  lit " |" ++ [NL].

Definition separatorLine (row : Node) : jsstring :=
  lit "| " ++ join (lit " | ") (List.map (fun _ => lit "---") (cellsOf row)) ++
  lit " |" ++ [NL].

(** ** [useTOCKeyboard] in [src/hooks/use-toc.ts] *)

Record KeyboardEvent : Type := mkKeyboardEvent {
  key : jsstring;
  altKey : bool
}.

(** [array.findIndex(p)]: -1 when no element satisfies [p]. *)
Fixpoint findIndex {A : Type} (p : A -> bool) (l : list A) (i : Z) : Z :=
  match l with
  | [] => -1
  | x :: tl => if p x then i else findIndex p tl (i + 1)
  end.

(** [headings[i].id]: outside the array the element is undefined and reading
    its [id] is a TypeError. *)
Definition idAt (headings : list TOCHeading) (i : Z) : result jsstring :=
  if i <? 0 then Throw (lit "TypeError: Cannot read properties of undefined")
  else
    match nth_error headings (Z.to_nat i) with
    | Some h => Ok (id h)
    | None => Throw (lit "TypeError: Cannot read properties of undefined")
    end.

(** [h.id === activeId], where [activeId] may be null. *)
Definition isActive (activeId : option jsstring) (h : TOCHeading) : bool :=
  match activeId with
  | Some a => eqString (id h) a
  | None => false
  end.

(** The [keydown] listener: the id it calls [scrollTo] with, if it does. *)
Definition handleKeyDown (headings : list TOCHeading) (activeId : option jsstring)
    (e : KeyboardEvent) : result (option jsstring) :=
  match headings with
  | [] => Ok None
  | _ :: _ =>
      let currentIndex := findIndex (isActive activeId) headings 0 in
      if eqString (key e) (lit "ArrowDown") && altKey e
      then
        let nextIndex := Z.min (currentIndex + 1) (Z.of_nat (length headings) - 1) in
        let* target := idAt headings nextIndex in Ok (Some target)
      else if eqString (key e) (lit "ArrowUp") && altKey e
      then
        let prevIndex := Z.max (currentIndex - 1) 0 in
        let* target := idAt headings prevIndex in Ok (Some target)
      else Ok None
  end.

(** ** [withLLMParam] and [hasLLMParam] in [src/api/markdown-handler.ts] *)






(** ** Notions for the nested table of contents *)

(** What a heading carries besides its children. *)
Definition entry (h : TOCHeading) : jsstring * jsstring * Z := (id h, text h, level h).

(** The headings of a tree in document order: a heading, then its children
    with theirs. *)
Fixpoint preorder (h : TOCHeading) : list (jsstring * jsstring * Z) :=
  match h with
  | mkHeading i t l c =>
      (i, t, l) :: match c with Some kids => flat_map preorder kids | None => [] end
  end.

Fixpoint nonIncreasing (ls : list Z) : bool :=
  match ls with
  | a :: tl =>
      match tl with
      | b :: _ => (b <=? a) && nonIncreasing tl
      | [] => true
      end
  | [] => true
  end.

(** A tree nested by level: [children] is an array at every node, every
    child lies deeper than its parent, and among the children of one node no
    level is greater than that of the sibling before it. *)
Fixpoint nested (h : TOCHeading) : bool :=
  match h with
  | mkHeading _ _ l c =>
      match c with
      | Some kids =>
          forallb (fun k => (l <? level k) && nested k) kids &&
          nonIncreasing (List.map level kids)
      | None => false
      end
  end.

Definition nestedForest (forest : list TOCHeading) : bool :=
  forallb nested forest && nonIncreasing (List.map level forest).

(** A heading without children, as the loop creates it. *)
Definition leaf (h : TOCHeading) : TOCHeading :=
  mkHeading (id h) (text h) (level h) (Some []).

(** *** The store read as a forest under construction

    [Lay st lo hi a t]: the object at address [a] and the objects below it
    have addresses from [lo] up to [hi], [hi] not included, and reading them
    gives the tree [t]. *)
Inductive Lay (st : list Item) : nat -> nat -> nat -> TOCHeading -> Prop :=
| Lay_node (lo hi a : nat) (it : Item) (cs : list nat) (kids : list TOCHeading) :
    (lo <= a < hi)%nat ->
    st !! a = Some it ->
    itemChildren it = Some cs ->
    LayAll st (S a) hi cs kids ->
    Lay st lo hi a (mkHeading (itemId it) (itemText it) (itemLevel it) (Some kids))
with LayAll (st : list Item) : nat -> nat -> list nat -> list TOCHeading -> Prop :=
| LayAll_nil (lo hi : nat) : LayAll st lo hi [] []
| LayAll_cons (lo hi a : nat) (t : TOCHeading) (cs : list nat) (kids : list TOCHeading) :
    Lay st lo hi a t -> LayAll st lo hi cs kids ->
    LayAll st lo hi (a :: cs) (t :: kids).

Scheme Lay_min := Minimality for Lay Sort Prop
  with LayAll_min := Minimality for LayAll Sort Prop.

(** An entry of the stack with the children it has received and that are
    complete: those are never touched again. *)
Record Frame : Type := mkFrame {
  frameAddr : nat;
  frameHead : TOCHeading;
  frameKids : list TOCHeading
}.

Definition frameKey (f : Frame) : nat * Z := (frameAddr f, level (frameHead f)).

Definition closeFrame (f : Frame) (inner : list TOCHeading) : TOCHeading :=
  mkHeading (id (frameHead f)) (text (frameHead f)) (level (frameHead f))
    (Some (frameKids f ++ inner)).

(** The trees the stack stands for, top of the stack first: each entry is
    the last child of the entry under it. *)
Fixpoint closeAll (frames : list Frame) (inner : list TOCHeading) : list TOCHeading :=
  match frames with
  | [] => inner
  | f :: below => closeAll below [closeFrame f inner]
  end.

(** The stack in the store: the object of each entry holds its complete
    children followed by the entry above it ([above]); under the last entry
    lies [result], which holds the complete roots [done]. *)
Inductive Spine (st : list Item) (res : list nat) (done : list TOCHeading)
  : nat -> list nat -> list Frame -> Prop :=
| Spine_root (hi : nat) (above rs : list nat) :
    res = rs ++ above ->
    LayAll st 0 hi rs done ->
    Spine st res done hi above []
| Spine_frame (hi : nat) (above : list nat) (f : Frame) (below : list Frame)
    (cs : list nat) :
    st !! frameAddr f
    = Some (mkItem (id (frameHead f)) (text (frameHead f)) (level (frameHead f))
              (Some (cs ++ above))) ->
    LayAll st (S (frameAddr f)) hi cs (frameKids f) ->
    (frameAddr f < hi)%nat ->
    Spine st res done (frameAddr f) [frameAddr f] below ->
    Spine st res done hi above (f :: below).

(** The last tree of a list, if there is one, has level [lvl] at least. *)
Definition endsFrom (lvl : Z) (l : list TOCHeading) : Prop :=
  forall pre t, l = pre ++ [t] -> lvl <= level t.

(** The builder stands for the forest, between two rounds of the loop. *)
Definition Represents (b : Builder) (forest : list TOCHeading) : Prop :=
  exists done frames,
    stack b = List.map frameKey frames /\
    Spine (store b) (result_ b) done (length (store b)) [] frames /\
    match frames with
    | [] => done = []
    | f :: _ => frameKids f = []
    end /\
    forest = done ++ closeAll frames [].

(** ** [aggregateEvents] in [src/api/analytics-handler.ts] *)

(** The property names every object inherits from [Object.prototype]. *)
Definition objectPrototypeKeys : list jsstring :=
  [ lit "constructor"; lit "__defineGetter__"; lit "__defineSetter__";
    lit "hasOwnProperty"; lit "__lookupGetter__"; lit "__lookupSetter__";
    lit "isPrototypeOf"; lit "propertyIsEnumerable"; lit "toString";
    lit "valueOf"; lit "__proto__"; lit "toLocaleString" ].

(** The object [counts]: its own properties in the order of their creation.
    A value is an integer (below 2^53) or NaN, which is [None]. *)
Definition Counts := list (jsstring * option Z).

Definition initialCounts : Counts :=
  [ (lit "copy", Some 0); (lit "view", Some 0); (lit "download", Some 0) ].

Definition hasOwn (key : jsstring) (counts : Counts) : bool :=
  existsb (fun p => eqString (fst p) key) counts.

(** [key in counts]: an own or an inherited property. *)
Definition hasProperty (key : jsstring) (counts : Counts) : bool :=
  hasOwn key counts || existsb (eqString key) objectPrototypeKeys.

(** [counts[key]++] for a key that [in] found.  An own property is counted
    up.  An inherited one holds a function, whose number is NaN; the
    assignment creates an own property with that value, except for
    [__proto__], whose setter ignores a number. *)
Definition increment (key : jsstring) (counts : Counts) : Counts :=
  if hasOwn key counts
  then List.map (fun p => if eqString (fst p) key
                          then (fst p, option_map (Z.add 1) (snd p)) else p) counts
  else if eqString key (lit "__proto__") then counts
  else counts ++ [(key, None)].

Section Aggregation.

(** [Number.prototype.toString] is the platform's. *)
Variable numberToString : spec_float -> jsstring.

(** [ToString] of a parsed JSON value, which is what [ToPropertyKey] does
    with it.  An array joins its elements with commas, null elements as
    empty strings.  An object prints as [[object Object]], unless it has a
    [toString] property of its own: coming from JSON that is not a function,
    and the object has no primitive value (a TypeError). *)
Fixpoint toStringJSON (v : JSON) : result jsstring :=
  match v with
  | JNull => Ok (lit "null")
  | JBool b => Ok (if b then lit "true" else lit "false")
  | JNumber x => Ok (numberToString x)
  | JString s => Ok s
  | JArray elements =>
      (fix joinAll (els : list JSON) : result jsstring :=
         match els with
         | [] => Ok []
         | e :: tl =>
             let* a := match e with JNull => Ok [] | _ => toStringJSON e end in
             match tl with
             | [] => Ok a
             | _ :: _ => let* b := joinAll tl in Ok (a ++ lit "," ++ b)
             end
         end) elements
  | JObject fields =>
      match lookupString (lit "toString") fields with
      | Some _ => Throw (lit "TypeError: Cannot convert object to primitive value")
      | None => Ok (lit "[object Object]")
      end
  end.

(** The [for] loop of [aggregateEvents]. *)
Fixpoint aggregateLoop (events : list AnalyticsEvent) (counts : Counts) : result Counts :=
  match events with
  | [] => Ok counts
  | event :: tl =>
      let* key := toStringJSON (action event) in
      aggregateLoop tl (if hasProperty key counts then increment key counts else counts)
  end.

Definition aggregateEvents {S : Type} (storage : AnalyticsStorageAdapter S) (st : S)
  : result Counts :=
  let* events := getAll storage st in
  aggregateLoop events initialCounts.

(** The events whose action reads as [name]. *)
Definition actionIs (name : jsstring) (event : AnalyticsEvent) : bool :=
  match toStringJSON (action event) with
  | Ok key => eqString key name
  | Throw _ => false
  end.

End Aggregation.

(* ===================================================================== *)
(** * Part II: properties                                                 *)
(* ===================================================================== *)

(** ** The model on documented inputs *)

Example convert_heading_and_bold :
  htmlToMarkdown Server (lit "<h1>Hi</h1><p>Bold <strong>word</strong>.</p>") noOptions
  = Ok (lit "# Hi" ++ [NL; NL] ++ lit "Bold **word**.").
Proof. vm_compute. reflexivity. Qed.

Example convert_list_quote_link :
  htmlToMarkdown Server
    (lit "<ul><li>a</li><li>b</li></ul><blockquote>q &amp; r</blockquote><a href='x'>y</a>")
    noOptions
  = Ok (lit "- a" ++ [NL] ++ lit "- b" ++ [NL; NL] ++ lit "> q & r" ++ [NL] ++ lit "[y](x)").
Proof. vm_compute. reflexivity. Qed.

Example decode_entities :
  decodeHTMLEntities (lit "&amp;lt; &#65;&#x42; &foo;") = lit "< AB &foo;".
Proof. vm_compute. reflexivity. Qed.

Example count_words : countWords (lit "Hello, world -- it's  me!") = 4.
Proof. vm_compute. reflexivity. Qed.

Example slug_of_heading : generateHeadingId (lit "Hello,  World -- Foo!") 3 = lit "hello-world-foo".
Proof. vm_compute. reflexivity. Qed.

Example slug_fallback : generateSlug (lit "!!!") 3 = lit "heading-3".
Proof. vm_compute. reflexivity. Qed.

Example assemble_sample :
  generateMarkdownString Server samplePost
  = Ok (lit "# Hello" ++ [NL; NL] ++ lit "---" ++ [NL] ++
        lit "- **Source**: https://example.com/blog/hello" ++ [NL] ++
        lit "- **Date**: 2024-01-01" ++ [NL] ++
        lit "- **Categories**: news, tech" ++ [NL] ++
        lit "- **Reading Time**: 5 min" ++ [NL] ++
        lit "---" ++ [NL; NL] ++ lit "Hi **there**").
Proof. vm_compute. reflexivity. Qed.

(** ** The TOC tree builder *)

(** C4.  On a flat list of headings whose levels are 2, 3, 3, 2, 4, in that
    order, [buildNestedTOC] returns two roots; the first root has two
    children, the second has one child, and that child has none. *)
Theorem buildNestedTOC_levels_23324 :
  forall hs : list TOCHeading,
    List.map level hs = [2; 3; 3; 2; 4] ->
    exists r1 r2 c11 c12 c21,
      buildNestedTOC hs = [r1; r2] /\
      children r1 = Some [c11; c12] /\
      children r2 = Some [c21] /\
      children c21 = Some [].
Proof.
  intros hs H.
  do 5 (destruct hs as [|[? ? ? ?] hs]; [discriminate H|]).
  destruct hs; [|discriminate H].
  cbn in H. injection H as -> -> -> -> ->.
  cbv. do 5 eexists. repeat split; reflexivity.
Qed.

(** A flat list with these levels, for the theorem above. *)
Lemma buildNestedTOC_levels_23324_witness :
  exists r1 r2 c11 c12 c21,
    buildNestedTOC
      (List.map (fun l => mkHeading (lit "sec") (lit "Section") l None) [2; 3; 3; 2; 4])
    = [r1; r2] /\
    children r1 = Some [c11; c12] /\
    children r2 = Some [c21] /\
    children c21 = Some [].
Proof.
  apply buildNestedTOC_levels_23324. reflexivity.
Defined.

(** ** Text metrics *)

(** [Math.ceil(a / b)] on integers with a positive divisor. *)
Lemma Qceiling_quotient :
  forall a b : Z, 0 < b -> Qceiling (inject_Z a / inject_Z b) = - ((- a) / b).
Proof.
  intros a b Hb.
  destruct b as [|p|p]; try lia.
  unfold Qceiling, Qfloor, Qdiv, Qmult, Qinv, Qopp, inject_Z. cbn.
  rewrite Z.mul_1_r, Pos.mul_1_l. reflexivity.
Qed.





(** ** The markdown-by-slug handler *)

(** C9.  The handler answers 404, as plain text [Content not found], exactly
    when the lookup returns null; when the lookup returns a record and the
    assembler returns normally, it answers 200 with content type
    [text/markdown; charset=utf-8] and the assembler's markdown as body. *)
Theorem markdown_handler_responses :
  forall (env : Env) (options : MarkdownHandlerOptions) (slugParam : option jsstring),
    let slug := match slugParam with Some s => s | None => [] end in
    let response := createMarkdownHandler env options slugParam in
    (getContent options slug = Ok None <-> status response = 404) /\
    (getContent options slug = Ok None ->
       body response = TextBody (lit "Content not found") /\
       lookupString (lit "Content-Type") (headers response) = Some (lit "text/plain")) /\
    (forall c out,
       getContent options slug = Ok (Some c) ->
       generateMarkdown env c = Ok out ->
       status response = 200 /\
       lookupString (lit "Content-Type") (headers response)
         = Some (lit "text/markdown; charset=utf-8") /\
       body response = TextBody (markdown out)).
Proof.
  intros env options slugParam slug response.
  subst response. unfold createMarkdownHandler, markdownHandlerTry.
  fold slug.
  destruct (getContent options slug) as [[c|]|e] eqn:Hget; cbn.
  - unfold generateMarkdownString.
    destruct (generateMarkdown env c) as [out|e] eqn:Hgen; cbn.
    + split; [split; [discriminate | discriminate]|].
      split; [discriminate|].
      intros c' out' Hc Hout. injection Hc as <-.
      rewrite Hgen in Hout. injection Hout as <-.
      repeat split; reflexivity.
    + split; [split; [discriminate | discriminate]|].
      split; [discriminate|].
      intros c' out' Hc Hout. injection Hc as <-.
      rewrite Hgen in Hout. discriminate.
  - split; [split; reflexivity|].
    split; [intros _; split; reflexivity|].
    intros c out Hc. discriminate.
  - split; [split; [discriminate | discriminate]|].
    split; [discriminate|].
    intros c out Hc. discriminate.
Qed.

(** A lookup that knows one slug, asked for it. *)
Lemma markdown_handler_responses_witness :
  exists out,
    getContent sampleMarkdownOptions (lit "hello") = Ok (Some samplePost) /\
    generateMarkdown Server samplePost = Ok out /\
    status (createMarkdownHandler Server sampleMarkdownOptions (Some (lit "hello"))) = 200 /\
    body (createMarkdownHandler Server sampleMarkdownOptions (Some (lit "hello")))
      = TextBody (markdown out).
Proof.
  destruct (generateMarkdown Server samplePost) as [out|e] eqn:Hgen;
    [|vm_compute in Hgen; discriminate Hgen].
  exists out.
  destruct (markdown_handler_responses Server sampleMarkdownOptions (Some (lit "hello")))
    as (_ & _ & H200).
  destruct (H200 samplePost out eq_refl Hgen) as (Hs & _ & Hb).
  repeat split; assumption.
Defined.

(** ** The analytics handlers *)

Lemma orValue_truthy : forall a b, truthyValue a = true -> orValue a b = a.
Proof. intros a b H. unfold orValue. rewrite H. reflexivity. Qed.

Lemma orValue_falsy : forall a b, isFalsy a -> orValue a b = b.
Proof.
  intros a b [->|(j & -> & Hj)]; unfold orValue; cbn; [reflexivity|].
  rewrite Hj. reflexivity.
Qed.

(** The event built from a body that is not null: its action is the body's
    own value when that is truthy, whatever it is, and [copy] otherwise. *)
Lemma buildEvent_action :
  forall request body,
    body <> JNull ->
    exists event,
      buildEvent request body = Ok event /\
      (forall v, getPropOpt (Some body) "action" = Some v -> truthyJSON v = true ->
                 action event = v) /\
      (isFalsy (getPropOpt (Some body) "action") -> action event = JString (lit "copy")).
Proof.
  intros request body Hnull.
  assert (Hprop : forall key, getProp body key = Ok (getPropOpt (Some body) key)).
  { intros key. destruct body; try reflexivity. contradiction. }
  unfold buildEvent. rewrite !Hprop. cbn [bind].
  eexists. split; [reflexivity|]. cbn [action]. split.
  - intros v Hv Ht. rewrite Hv. rewrite orValue_truthy by exact Ht. reflexivity.
  - intros Hf. rewrite orValue_falsy by exact Hf. reflexivity.
Qed.

Lemma buildPageEvent_action :
  forall req,
    (forall v, getPropOpt (pageBody req) "action" = Some v -> truthyJSON v = true ->
               action (buildPageEvent req) = v) /\
    (isFalsy (getPropOpt (pageBody req) "action") ->
     action (buildPageEvent req) = JString (lit "copy")).
Proof.
  intros req. unfold buildPageEvent. cbn [action]. split.
  - intros v Hv Ht. rewrite Hv. rewrite orValue_truthy by exact Ht. reflexivity.
  - intros Hf. rewrite orValue_falsy by exact Hf. reflexivity.
Qed.

(** C10, as the code has it.  A POST that the rate limiter lets through and
    whose body parsed to a JSON value other than null makes the App Router
    handler hand [storage.save] one event; the Pages Router handler does so
    for every body, null and undefined included.  The event's action is the
    body's [action] value whenever that value is truthy, without any check
    that it is [copy], [view] or [download], and [copy] whenever the value
    is missing or falsy.  What [save] returns becomes the stored state. *)
Theorem analytics_action_unvalidated :
  forall (S : Type) (options : AnalyticsHandlerOptions S),
    (forall (state : HandlerState S) (request : Request) (body : JSON),
        method request = lit "POST" ->
        json request = Ok body ->
        body <> JNull ->
        status (fst (createAnalyticsHandler options state request)) <> 429 ->
        exists event,
          (forall v, getPropOpt (Some body) "action" = Some v -> truthyJSON v = true ->
                     action event = v) /\
          (isFalsy (getPropOpt (Some body) "action") -> action event = JString (lit "copy")) /\
          match save (storage options) event (stored state) with
          | Ok st' =>
              status (fst (createAnalyticsHandler options state request)) = 200 /\
              stored (snd (createAnalyticsHandler options state request)) = st'
          | Throw _ =>
              status (fst (createAnalyticsHandler options state request)) = 500 /\
              stored (snd (createAnalyticsHandler options state request)) = stored state
          end) /\
    (forall (st : S) (req : PageRequest),
        pageMethod req = Some (lit "POST") ->
        exists event,
          (forall v, getPropOpt (pageBody req) "action" = Some v -> truthyJSON v = true ->
                     action event = v) /\
          (isFalsy (getPropOpt (pageBody req) "action") ->
           action event = JString (lit "copy")) /\
          match save (storage options) event st with
          | Ok st' =>
              status (fst (createAnalyticsPageHandler options st req)) = 200 /\
              snd (createAnalyticsPageHandler options st req) = st'
          | Throw _ =>
              status (fst (createAnalyticsPageHandler options st req)) = 500 /\
              snd (createAnalyticsPageHandler options st req) = st
          end).
Proof.
  intros S options. split.
  - intros state request body Hm Hj Hnull H429.
    destruct (buildEvent_action request body Hnull) as (event & Hev & Ht & Hf).
    exists event. split; [exact Ht|]. split; [exact Hf|].
    revert H429. unfold createAnalyticsHandler. rewrite Hm. cbn [eqString].
    change (eqString (lit "POST") (lit "OPTIONS")) with false.
    change (eqString (lit "POST") (lit "POST")) with true. cbn [negb].
    destruct (if nonZero (rateLimit options) then _ else _) as [counts [limited|]] eqn:Hrl.
    + (* over the limit: the response is the 429 one *)
      destruct (nonZero (rateLimit options)); [|discriminate Hrl].
      unfold rateLimitStep in Hrl.
      destruct (_ <? _) in Hrl; [|discriminate Hrl].
      injection Hrl as _ <-. cbn. intros H. contradiction H. reflexivity.
    + intros _. unfold analyticsTry. rewrite Hj. cbn [bind]. rewrite Hev. cbn [bind].
      destruct (save (storage options) event (stored state)) as [st'|e]; cbn; split; reflexivity.
  - intros st req Hm.
    destruct (buildPageEvent_action req) as (Ht & Hf).
    exists (buildPageEvent req). split; [exact Ht|]. split; [exact Hf|].
    unfold createAnalyticsPageHandler. rewrite Hm.
    change (eqString (lit "POST") (lit "POST")) with true. cbn [negb].
    destruct (save (storage options) (buildPageEvent req) st) as [st'|e]; cbn; split; reflexivity.
Qed.

(** An action outside the three named ones is stored as it came. *)
Lemma analytics_action_unvalidated_witness :
  exists event,
    action event = JString (lit "purge") /\
    stored (snd (createAnalyticsHandler sampleAnalyticsOptions freshState
                   (sampleRequest 0 (lit "purge")))) = [event].
Proof.
  destruct (analytics_action_unvalidated _ sampleAnalyticsOptions) as (Happ & _).
  destruct (Happ freshState (sampleRequest 0 (lit "purge"))
              (JObject [ (lit "action", JString (lit "purge")) ])
              eq_refl eq_refl ltac:(discriminate) ltac:(vm_compute; discriminate))
    as (event & Ht & _ & Hsave).
  exists event. split.
  - apply Ht; reflexivity.
  - cbn in Hsave. apply Hsave.
Defined.

(** C10, as stated for every parsed body, fails at the body [null]: reading
    [body.action] throws, the App Router handler answers 500 and stores
    nothing. *)
Lemma null_body_is_not_persisted : ~ persistsAction nullPost.
Proof.
  intros H. destruct (H JNull eq_refl) as (event & Hstored & _).
  vm_compute in Hstored. discriminate Hstored.
Qed.

Lemma rateLimitStep_next :
  forall limit request counts,
    rateLimitStep limit request counts =
    (<[clientKey request := nextClientData counts request]> counts,
     if limit <? count (nextClientData counts request)
     then Some (tooManyRequests (nextClientData counts request) request)
     else None).
Proof.
  intros limit request counts. unfold rateLimitStep, nextClientData, tooManyRequests.
  cbn [count resetAt].
  destruct (limit <? _); reflexivity.
Qed.

Lemma nextClientData_opens :
  forall counts request,
    opensWindow counts (clientKey request) (now request) ->
    nextClientData counts request = mkClientData 1 (now request + windowMs).
Proof.
  intros counts request H. unfold opensWindow in H. unfold nextClientData.
  destruct (counts !! clientKey request) as [d|].
  - apply Z.ltb_lt in H. rewrite H. reflexivity.
  - cbn [resetAt]. replace (now request + windowMs <? now request) with false; [reflexivity|].
    symmetry. apply Z.ltb_ge. unfold windowMs. lia.
Qed.

Lemma nextClientData_within :
  forall counts request d,
    counts !! clientKey request = Some d ->
    now request <= resetAt d ->
    nextClientData counts request = mkClientData (count d + 1) (resetAt d).
Proof.
  intros counts request d Hd Hle. unfold nextClientData. rewrite Hd.
  replace (resetAt d <? now request) with false; [reflexivity|].
  symmetry. apply Z.ltb_ge. exact Hle.
Qed.

Lemma method_post_dispatch :
  forall request, method request = lit "POST" ->
    eqString (method request) (lit "OPTIONS") = false /\
    eqString (method request) (lit "POST") = true.
Proof. intros request ->. split; reflexivity. Qed.

(** A valid POST under the limit is answered 200. *)
Lemma post_under_limit :
  forall (S : Type) (options : AnalyticsHandlerOptions S) (state : HandlerState S)
         (request : Request) (limit : Z),
    rateLimit options = Some limit -> limit <> 0 ->
    neverRejects (storage options) ->
    validPost request ->
    count (nextClientData (requestCounts state) request) <= limit ->
    exists response st',
      createAnalyticsHandler options state request =
      (response,
       mkHandlerState
         (<[clientKey request := nextClientData (requestCounts state) request]>
            (requestCounts state)) st') /\
      status response = 200.
Proof.
  intros S options state request limit Hl Hnz Hsave (Hm & body & Hj & Hnull) Hle.
  destruct (method_post_dispatch request Hm) as (Ho & Hp).
  unfold createAnalyticsHandler. rewrite Ho, Hp. cbn [negb].
  rewrite Hl. cbn [nonZero]. apply Z.eqb_neq in Hnz. rewrite Hnz. cbn [negb].
  rewrite rateLimitStep_next.
  replace (limit <? _) with false by (symmetry; apply Z.ltb_ge; exact Hle).
  unfold analyticsTry. rewrite Hj. cbn [bind].
  destruct (buildEvent_action request body Hnull) as (event & -> & _). cbn [bind].
  destruct (Hsave event (stored state)) as (st' & ->). cbn [bind].
  eexists _, st'. split; reflexivity.
Qed.

(** A POST over the limit is answered 429 and nothing is stored. *)
Lemma post_over_limit :
  forall (S : Type) (options : AnalyticsHandlerOptions S) (state : HandlerState S)
         (request : Request) (limit : Z),
    rateLimit options = Some limit -> limit <> 0 ->
    method request = lit "POST" ->
    limit < count (nextClientData (requestCounts state) request) ->
    createAnalyticsHandler options state request =
    (tooManyRequests (nextClientData (requestCounts state) request) request,
     mkHandlerState
       (<[clientKey request := nextClientData (requestCounts state) request]>
          (requestCounts state)) (stored state)).
Proof.
  intros S options state request limit Hl Hnz Hm Hlt.
  destruct (method_post_dispatch request Hm) as (Ho & Hp).
  unfold createAnalyticsHandler. rewrite Ho, Hp. cbn [negb].
  rewrite Hl. cbn [nonZero]. apply Z.eqb_neq in Hnz. rewrite Hnz. cbn [negb].
  rewrite rateLimitStep_next.
  replace (limit <? _) with true by (symmetry; apply Z.ltb_lt; exact Hlt).
  reflexivity.
Qed.




(** At the instant the window's reset timestamp is reached the request still
    counts against the old window, and the hint is zero seconds. *)
Example retry_after_at_reset_instant :
  let (a1, s1) := createAnalyticsHandler sampleAnalyticsOptions freshState
                    (sampleRequest 0 (lit "copy")) in
  let (a2, s2) := createAnalyticsHandler sampleAnalyticsOptions s1
                    (sampleRequest 0 (lit "copy")) in
  let (a3, s3) := createAnalyticsHandler sampleAnalyticsOptions s2
                    (sampleRequest 60000 (lit "copy")) in
  status a3 = 429 /\ headers a3 = [ (lit "Retry-After", lit "0") ].
Proof. vm_compute. split; reflexivity. Qed.

(** The body [null] on the two handlers: the App Router answers 500 and only
    the request counter changes; the Pages Router stores a [copy] event. *)
Example null_body_on_pages_router :
  createAnalyticsHandler sampleAnalyticsOptions freshState nullPost
  = (mkResponse 500 [] failureBody,
     mkHandlerState {[ lit "203.0.113.7" := mkClientData 1 60000 ]} []) /\
  exists event,
    snd (createAnalyticsPageHandler sampleAnalyticsOptions [] nullPagePost) = [event] /\
    action event = JString (lit "copy").
Proof.
  split.
  - unfold createAnalyticsHandler.
    change (eqString (method nullPost) (lit "OPTIONS")) with false.
    change (eqString (method nullPost) (lit "POST")) with true. cbn [negb].
    change (nonZero (rateLimit sampleAnalyticsOptions)) with true. cbn iota.
    rewrite rateLimitStep_next.
    rewrite nextClientData_opens by exact I.
    reflexivity.
  - eexists. split; reflexivity.
Qed.

(** ** The Markdown assembler *)



(** An empty url gets its Source line too. *)
Example source_line_for_empty_url :
  exists out,
    generateMarkdown Server recordWithEmptyUrl = Ok out /\
    metadataBlock (markdown out) = [lit "- **Source**: "].
Proof. eexists. split; vm_compute; reflexivity. Qed.







(** ** The matcher: captures *)

Lemma getcap_clearcaps_other :
  forall n ns cs, ~ In n ns -> getcap n (clearcaps ns cs) = getcap n cs.
Proof.
  intros n ns cs Hn. unfold getcap, clearcaps.
  induction cs as [|[k s] cs IH]; cbn; [reflexivity|].
  destruct (existsb (Nat.eqb k) ns) eqn:Hk; cbn.
  - destruct (Nat.eqb k n) eqn:Hkn; [|exact IH].
    apply Nat.eqb_eq in Hkn. subst k.
    apply existsb_exists in Hk. destruct Hk as (x & Hx & Hnx).
    apply Nat.eqb_eq in Hnx. subst x. contradiction.
  - destruct (Nat.eqb k n); [reflexivity | exact IH].
Qed.

Lemma getcap_setcap_same : forall n s cs, getcap n (setcap n s cs) = Some s.
Proof. intros n s cs. unfold getcap, setcap. cbn. rewrite Nat.eqb_refl. reflexivity. Qed.

Lemma getcap_setcap_other :
  forall n m s cs, n <> m -> getcap n (setcap m s cs) = getcap n cs.
Proof.
  intros n m s cs Hnm. unfold setcap.
  transitivity (getcap n (clearcaps [m] cs)).
  - unfold getcap. cbn. destruct (Nat.eqb m n) eqn:E; [|reflexivity].
    apply Nat.eqb_eq in E. congruence.
  - apply getcap_clearcaps_other. cbn. intros [H|[]]. congruence.
Qed.

(** What holds from a state to itself and carries over one more iteration,
    holds from a state to every result of the loop. *)
Lemma starLoop_closure :
  forall (f : MatchState -> list MatchState) (forget : list nat) (greedy : bool)
         (R : MatchState -> MatchState -> Prop),
    (forall st, R st st) ->
    (forall st st1 st2,
        In st1 (f (withCaps (clearcaps forget (caps st)) st)) ->
        progressed st st1 = true -> R st1 st2 -> R st st2) ->
    forall fuel st st', In st' (starLoop f forget greedy fuel st) -> R st st'.
Proof.
  intros f forget greedy R Hrefl Hstep fuel.
  induction fuel as [|k IH]; intros st st' Hin; cbn in Hin.
  - destruct Hin as [<-|[]]. apply Hrefl.
  - assert (Hcases : st' = st \/
             In st' (flat_map (starLoop f forget greedy k)
                       (List.filter (progressed st)
                          (f (withCaps (clearcaps forget (caps st)) st))))).
    { destruct greedy.
      - apply in_app_or in Hin. destruct Hin as [H|[<-|[]]]; [right; exact H | left; reflexivity].
      - destruct Hin as [<-|H]; [left; reflexivity | right; exact H]. }
    destruct Hcases as [->|Hin']; [apply Hrefl|].
    apply in_flat_map in Hin'. destruct Hin' as (st1 & H1 & H2).
    apply filter_In in H1. destruct H1 as (H1 & Hp).
    eapply Hstep; [exact H1 | exact Hp | apply IH; exact H2].
Qed.

Lemma caps_skip : forall n st, caps (skip n st) = caps st.
Proof.
  induction n as [|n IH]; intros st; cbn; [reflexivity|].
  rewrite IH. unfold advance. destruct (rest st); reflexivity.
Qed.

(** A pattern leaves alone the captures of groups it does not contain. *)
Lemma matches_untouched :
  forall n r st st',
    ~ In n (groups r) -> In st' (matches r st) -> getcap n (caps st') = getcap n (caps st).
Proof.
  intros n r. induction r as [|p|r1 IH1 r2 IH2|r1 IH1 r2 IH2|g r IH|m r IH|ic m|r IH| | |];
    intros st st' Hn Hin; cbn [matches] in Hin.
  - destruct Hin as [<-|[]]. reflexivity.
  - destruct (rest st) as [|c tl] eqn:Hr; [destruct Hin|].
    destruct (p c); [|destruct Hin]. destruct Hin as [<-|[]].
    unfold advance. rewrite Hr. reflexivity.
  - apply in_flat_map in Hin. destruct Hin as (s1 & H1 & H2).
    cbn in Hn. rewrite in_app_iff in Hn.
    rewrite (IH2 s1 st') by tauto. apply IH1; tauto.
  - cbn in Hn. rewrite in_app_iff in Hn.
    apply in_app_or in Hin. destruct Hin as [H|H]; [apply IH1 | apply IH2]; tauto.
  - revert Hin. apply starLoop_closure with (R := fun a b => getcap n (caps b) = getcap n (caps a)).
    + reflexivity.
    + intros s0 s1 s2 H1 _ H2. rewrite H2.
      rewrite (IH _ s1 Hn H1). cbn [caps withCaps].
      apply getcap_clearcaps_other. exact Hn.
  - apply in_map_iff in Hin. destruct Hin as (s1 & <- & H1).
    cbn [groups] in Hn. cbn [caps withCaps].
    rewrite getcap_setcap_other by (intros ->; apply Hn; left; reflexivity).
    apply IH; [intros H; apply Hn; right; exact H | exact H1].
  - destruct (getcap m (caps st)) as [s|]; [|destruct Hin as [<-|[]]; reflexivity].
    destruct (startsWith _ s (rest st)); [|destruct Hin].
    destruct Hin as [<-|[]]. rewrite caps_skip. reflexivity.
  - destruct (matches r st); [|destruct Hin]. destruct Hin as [<-|[]]. reflexivity.
  - destruct (before st); [|destruct Hin]. destruct Hin as [<-|[]]. reflexivity.
  - destruct (rest st); [|destruct Hin]. destruct Hin as [<-|[]]. reflexivity.
  - destruct (xorb _ _); [|destruct Hin]. destruct Hin as [<-|[]]. reflexivity.
Qed.

Lemma groups_seqOf_chars :
  forall (mk : Z -> regex) (s : jsstring),
    (forall c, groups (mk c) = []) -> groups (seqOf (List.map mk s)) = [].
Proof.
  intros mk s Hmk. induction s as [|c s IH]; [reflexivity|].
  cbn [List.map seqOf]. destruct (List.map mk s) eqn:E; [apply Hmk|].
  cbn [groups]. rewrite Hmk, IH. reflexivity.
Qed.

Lemma groups_StrI : forall s, groups (StrI s) = [].
Proof. intros s. apply groups_seqOf_chars. reflexivity. Qed.

Lemma matchAt_In :
  forall r st st', matchAt r st = Some st' -> In st' (matches r (withCaps [] st)).
Proof.
  intros r st st' H. unfold matchAt in H.
  destruct (matches r (withCaps [] st)) as [|x l]; [discriminate H|].
  injection H as ->. left. reflexivity.
Qed.

(** Group 1 of [reElement] takes part in every match. *)
Lemma reElement_sets_group1 :
  forall name body st st',
    In st' (matches (reElement name body) st) -> exists v, getcap 1 (caps st') = Some v.
Proof.
  intros name body st st' Hin. unfold reElement in Hin. cbn [seqOf matches] in Hin.
  apply in_flat_map in Hin. destruct Hin as (s1 & _ & Hin).
  apply in_flat_map in Hin. destruct Hin as (s2 & _ & Hin).
  apply in_flat_map in Hin. destruct Hin as (s3 & _ & Hin).
  apply in_flat_map in Hin. destruct Hin as (s4 & H4 & Hin).
  apply in_map_iff in H4. destruct H4 as (s5 & <- & _).
  rewrite (matches_untouched 1 _ _ _ ltac:(rewrite groups_StrI; exact (fun H => H)) Hin).
  cbn [caps withCaps]. rewrite getcap_setcap_same. eexists. reflexivity.
Qed.

(** ** The converter never throws *)

Lemma replaceLoopWith_total :
  forall (r : regex) (f : captures -> result jsstring),
    (forall st st', matchAt r st = Some st' -> exists piece, f (caps st') = Ok piece) ->
    forall fuel bef s, exists out, replaceLoopWith r f fuel bef s = Ok out.
Proof.
  intros r f Hf fuel. induction fuel as [|k IH]; intros bef s; cbn.
  - eexists. reflexivity.
  - unfold replaceStepWith.
    destruct (matchAt r (mkState bef s [])) as [st'|] eqn:Hm.
    + destruct (Hf _ _ Hm) as (piece & ->). cbn [bind].
      destruct (length (rest st') <? length s)%nat; cbn [bind].
      * destruct (IH (before st') (rest st')) as (more & ->). eexists. reflexivity.
      * destruct s as [|c tl]; cbn [fst snd].
        -- eexists. reflexivity.
        -- destruct (IH (c :: bef) tl) as (more & ->). eexists. reflexivity.
    + cbn [bind]. destruct s as [|c tl].
      * eexists. reflexivity.
      * destruct (IH (c :: bef) tl) as (more & ->). eexists. reflexivity.
Qed.

Lemma blockquoteCallback_defined :
  forall st st',
    matchAt (reElement "blockquote" lazyAny) st = Some st' ->
    exists piece, blockquoteCallback (caps st') = Ok piece.
Proof.
  intros st st' Hm. apply matchAt_In in Hm.
  destruct (reElement_sets_group1 _ _ _ _ Hm) as (v & Hv).
  unfold blockquoteCallback. rewrite Hv. eexists. reflexivity.
Qed.

Lemma serverSideConvert_total :
  forall html opts, exists md, serverSideConvert html opts = Ok md.
Proof.
  intros html opts. unfold serverSideConvert, replaceAllWith.
  destruct (replaceLoopWith_total _ _ blockquoteCallback_defined
              (S (length (convertLists (convertImgs opts (convertAnchors opts
                   (convertBoldItalic (convertHeadings (stripBlocks opts html))))))))
              [] (convertLists (convertImgs opts (convertAnchors opts
                   (convertBoldItalic (convertHeadings (stripBlocks opts html)))))))
    as (out & ->).
  cbn [bind]. eexists. reflexivity.
Qed.

Lemma htmlToMarkdown_server :
  forall html options, exists md, htmlToMarkdown Server html options = Ok md.
Proof. intros html options. unfold htmlToMarkdown. apply serverSideConvert_total. Qed.

(** C7.  On the pattern-substitution path [htmlToMarkdown] returns a string
    for every input string and every combination of options: the only step
    that could throw, the blockquote callback's [content.trim()], always
    receives a string. *)
Theorem htmlToMarkdown_never_throws :
  forall (html : jsstring) (options : HTMLToMarkdownOptions),
    exists md, htmlToMarkdown Server html options = Ok md.
Proof.
  intros html options. unfold htmlToMarkdown. apply serverSideConvert_total.
Qed.

(** On the server the assembler returns for every record, so a record that
    was found is always answered 200. *)
Lemma generateMarkdown_server_total :
  forall c, exists out, generateMarkdown Server c = Ok out.
Proof.
  intros c. unfold generateMarkdown, allParts.
  destruct (nonEmpty (content c)); [|eexists; reflexivity].
  destruct (isHTML (content c)).
  - destruct (htmlToMarkdown_server (content c) noOptions) as (md & ->).
    eexists. reflexivity.
  - eexists. reflexivity.
Qed.

Lemma markdown_handler_server_found :
  forall options slugParam c,
    getContent options (match slugParam with Some s => s | None => [] end) = Ok (Some c) ->
    status (createMarkdownHandler Server options slugParam) = 200.
Proof.
  intros options slugParam c Hget.
  unfold createMarkdownHandler, markdownHandlerTry. rewrite Hget. cbn [bind].
  unfold generateMarkdownString.
  destruct (generateMarkdown_server_total c) as (out & ->). reflexivity.
Qed.

(** ** The matcher on the patterns of the slug chain *)

Lemma clearcaps_nil : forall cs, clearcaps [] cs = cs.
Proof.
  intros cs. unfold clearcaps. induction cs as [|x cs IH]; cbn; [reflexivity|].
  f_equal. exact IH.
Qed.

Lemma matches_Chr_state :
  forall p bef s cs,
    matches (Chr p) (mkState bef s cs) =
    match s with
    | c :: tl => if p c then [mkState (c :: bef) tl cs] else []
    | [] => []
    end.
Proof. intros p bef [|c tl] cs; reflexivity. Qed.

(** A greedy star over a character class lists the prefixes of the run. *)
Lemma starLoop_chr :
  forall p fuel bef s cs,
    (length s < fuel)%nat ->
    starLoop (matches (Chr p)) [] true fuel (mkState bef s cs) = chrStar p bef s cs.
Proof.
  intros p fuel. induction fuel as [|k IH]; intros bef s cs Hlen; [lia|].
  cbn [starLoop]. unfold withCaps. cbn [caps before rest].
  rewrite clearcaps_nil, matches_Chr_state.
  destruct s as [|c tl]; cbn [chrStar]; [reflexivity|].
  destruct (p c); cbn [List.filter flat_map]; [|reflexivity].
  unfold progressed. cbn [rest length].
  replace (length tl <? S (length tl))%nat with true by (symmetry; apply Nat.ltb_lt; lia).
  cbn [flat_map]. rewrite app_nil_r. rewrite IH by (cbn in Hlen; lia). reflexivity.
Qed.

Lemma matches_star_chr :
  forall p bef s cs,
    matches (Star true (Chr p)) (mkState bef s cs) = chrStar p bef s cs.
Proof.
  intros p bef s cs.
  change (matches (Star true (Chr p)) (mkState bef s cs))
    with (starLoop (matches (Chr p)) [] true (S (length s)) (mkState bef s cs)).
  apply starLoop_chr. lia.
Qed.

Lemma matches_plus_chr :
  forall p bef s cs,
    matches (Plus true (Chr p)) (mkState bef s cs) =
    match s with
    | c :: tl => if p c then chrStar p (c :: bef) tl cs else []
    | [] => []
    end.
Proof.
  intros p bef s cs. unfold Plus.
  change (matches (Seq (Chr p) (Star true (Chr p))) (mkState bef s cs))
    with (flat_map (matches (Star true (Chr p))) (matches (Chr p) (mkState bef s cs))).
  rewrite matches_Chr_state.
  destruct s as [|c tl]; [reflexivity|].
  destruct (p c); [|reflexivity].
  cbn [flat_map]. rewrite app_nil_r. apply matches_star_chr.
Qed.

Lemma head_chrStar :
  forall p s bef cs,
    head (chrStar p bef s cs) =
    Some (mkState (fst (runEnd p bef s)) (snd (runEnd p bef s)) cs).
Proof.
  intros p s. induction s as [|c tl IH]; intros bef cs; cbn; [reflexivity|].
  destruct (p c); [|reflexivity].
  specialize (IH (c :: bef) cs).
  destruct (chrStar p (c :: bef) tl cs); [discriminate IH | exact IH].
Qed.

Lemma runEnd_length : forall p s bef, (length (snd (runEnd p bef s)) <= length s)%nat.
Proof.
  intros p s. induction s as [|c tl IH]; intros bef; cbn; [lia|].
  destruct (p c); [specialize (IH (c :: bef)); lia | cbn; lia].
Qed.

Lemma runEnd_before : forall p s bef, bef <> [] -> fst (runEnd p bef s) <> [].
Proof.
  intros p s. induction s as [|c tl IH]; intros bef Hb; cbn; [exact Hb|].
  destruct (p c); [apply IH; discriminate | exact Hb].
Qed.

Lemma runEnd_rest : forall p s bef, snd (runEnd p bef s) = dropWhile p s.
Proof.
  intros p s. induction s as [|c tl IH]; intros bef; cbn; [reflexivity|].
  destruct (p c); [apply IH | reflexivity].
Qed.

(** A star followed by the end of input succeeds only over a run that reaches
    the end. *)
Lemma chrStar_then_Eol :
  forall p s bef cs,
    flat_map (matches Eol) (chrStar p bef s cs) =
    if forallb p s then [mkState (rev s ++ bef) [] cs] else [].
Proof.
  intros p s. induction s as [|c tl IH]; intros bef cs; cbn [chrStar forallb].
  - reflexivity.
  - destruct (p c); cbn [andb]; [|reflexivity].
    rewrite flat_map_app, IH. cbn [flat_map matches rest]. rewrite !app_nil_r.
    cbn [rev]. rewrite <- app_assoc. reflexivity.
Qed.

Lemma matchAt_state :
  forall r bef s, matchAt r (mkState bef s []) = head (matches r (mkState bef s [])).
Proof. reflexivity. Qed.

(** *** Deleting the characters of a class *)

Lemma replaceLoop_delete :
  forall p fuel bef s,
    (length s < fuel)%nat ->
    replaceLoop (Chr p) (const []) fuel bef s = List.filter (fun c => negb (p c)) s.
Proof.
  intros p fuel. induction fuel as [|k IH]; intros bef s Hlen; [lia|].
  cbn [replaceLoop]. unfold replaceStep. rewrite matchAt_state, matches_Chr_state.
  destruct s as [|c tl]; [reflexivity|].
  cbn [List.filter]. cbn in Hlen.
  destruct (p c); cbn [head negb].
  - cbn [rest before caps length].
    replace (length tl <? S (length tl))%nat with true by (symmetry; apply Nat.ltb_lt; lia).
    unfold const. cbn [app]. apply IH. lia.
  - cbn [app]. f_equal. apply IH. lia.
Qed.

(** *** Squashing the runs of a class *)

Lemma squash_runEnd :
  forall p s bef, squash p false (snd (runEnd p bef s)) = squash p true s.
Proof.
  intros p s. induction s as [|c tl IH]; intros bef; cbn [runEnd squash]; [reflexivity|].
  destruct (p c) eqn:Hc; [apply IH|].
  cbn [snd squash]. rewrite Hc. reflexivity.
Qed.

Lemma replaceLoop_squash :
  forall p fuel bef s,
    (length s < fuel)%nat ->
    replaceLoop (Plus true (Chr p)) (const [HYPHEN]) fuel bef s = squash p false s.
Proof.
  intros p fuel. induction fuel as [|k IH]; intros bef s Hlen; [lia|].
  cbn [replaceLoop]. unfold replaceStep. rewrite matchAt_state, matches_plus_chr.
  destruct s as [|c tl]; [reflexivity|].
  cbn [squash]. cbn in Hlen.
  destruct (p c).
  - rewrite head_chrStar. cbn [rest before caps].
    pose proof (runEnd_length p tl (c :: bef)) as Hr.
    replace (length _ <? length (c :: tl))%nat with true
      by (symmetry; apply Nat.ltb_lt; cbn; lia).
    unfold const. cbn [app]. f_equal.
    rewrite IH by lia. apply squash_runEnd.
  - cbn [head app]. f_equal. apply IH. lia.
Qed.

(** *** Stripping the hyphens at the two ends *)

Lemma matches_edge_inside :
  forall bef s,
    bef <> [] ->
    matchAt reEdgeHyphens (mkState bef s []) =
    if (nonEmpty s && forallb isHyphen s) then Some (mkState (rev s ++ bef) [] []) else None.
Proof.
  intros bef s Hb. rewrite matchAt_state. unfold reEdgeHyphens.
  change (Is HYPHEN) with (Chr isHyphen).
  change (matches (Alt (Seq Bol (Plus true (Chr isHyphen))) (Seq (Plus true (Chr isHyphen)) Eol))
            (mkState bef s []))
    with (flat_map (matches (Plus true (Chr isHyphen))) (matches Bol (mkState bef s [])) ++
          flat_map (matches Eol) (matches (Plus true (Chr isHyphen)) (mkState bef s []))).
  destruct bef as [|b bef]; [contradiction|].
  cbn [matches before flat_map app].
  rewrite matches_plus_chr.
  destruct s as [|c tl]; [reflexivity|].
  cbn [nonEmpty forallb andb].
  destruct (isHyphen c); [|reflexivity].
  rewrite chrStar_then_Eol. cbn [andb].
  destruct (forallb isHyphen tl); [|reflexivity].
  cbn [head rev]. rewrite <- app_assoc. reflexivity.
Qed.

Lemma replaceLoop_edge_inside :
  forall fuel bef s,
    (length s < fuel)%nat -> bef <> [] ->
    replaceLoop reEdgeHyphens (const []) fuel bef s = stripTrailing s.
Proof.
  intros fuel. induction fuel as [|k IH]; intros bef s Hlen Hb; [lia|].
  cbn [replaceLoop]. unfold replaceStep. rewrite matches_edge_inside by exact Hb.
  destruct s as [|c tl]; [reflexivity|].
  cbn [nonEmpty andb stripTrailing]. cbn in Hlen.
  destruct (forallb isHyphen (c :: tl)).
  - cbn [rest before length Nat.ltb Nat.leb fst snd].
    unfold const. cbn [app].
    destruct k; [lia|]. cbn [replaceLoop]. unfold replaceStep.
    rewrite matches_edge_inside
      by (intros E; apply app_eq_nil in E; destruct E as [_ E]; exact (Hb E)).
    reflexivity.
  - cbn [app]. f_equal. apply IH; [lia | discriminate].
Qed.

Lemma matches_edge_start :
  forall s,
    matchAt reEdgeHyphens (mkState [] s []) =
    match s with
    | c :: tl =>
        if isHyphen c
        then Some (mkState (fst (runEnd isHyphen [c] tl)) (snd (runEnd isHyphen [c] tl)) [])
        else None
    | [] => None
    end.
Proof.
  intros s. rewrite matchAt_state. unfold reEdgeHyphens.
  change (Is HYPHEN) with (Chr isHyphen).
  change (matches (Alt (Seq Bol (Plus true (Chr isHyphen))) (Seq (Plus true (Chr isHyphen)) Eol))
            (mkState [] s []))
    with (flat_map (matches (Plus true (Chr isHyphen))) (matches Bol (mkState [] s [])) ++
          flat_map (matches Eol) (matches (Plus true (Chr isHyphen)) (mkState [] s []))).
  cbn [matches before flat_map].
  rewrite app_nil_r. rewrite matches_plus_chr.
  destruct s as [|c tl]; [reflexivity|].
  destruct (isHyphen c); [|reflexivity].
  pose proof (head_chrStar isHyphen tl [c] []) as Hh.
  destruct (chrStar isHyphen [c] tl []) as [|x l]; [discriminate Hh|].
  cbn [app head]. exact Hh.
Qed.

Lemma replaceAll_edge :
  forall s, replaceAll reEdgeHyphens (const []) s = stripTrailing (dropWhile isHyphen s).
Proof.
  intros s. unfold replaceAll. cbn [replaceLoop]. unfold replaceStep.
  rewrite matches_edge_start.
  destruct s as [|c tl]; [reflexivity|].
  cbn [dropWhile]. destruct (isHyphen c) eqn:Hc.
  - cbn [rest before].
    pose proof (runEnd_length isHyphen tl [c]) as Hr.
    replace (length _ <? length (c :: tl))%nat with true
      by (symmetry; apply Nat.ltb_lt; cbn; lia).
    unfold const. cbn [app].
    rewrite replaceLoop_edge_inside.
    + rewrite runEnd_rest. reflexivity.
    + cbn. lia.
    + apply runEnd_before. discriminate.
  - cbn [app stripTrailing forallb]. rewrite Hc. cbn [andb]. f_equal.
    apply replaceLoop_edge_inside; [cbn; lia | discriminate].
Qed.

(** The chain of [slugOf] in terms of list functions. *)
Lemma slugOf_steps :
  forall text,
    slugOf text =
    stripTrailing (dropWhile isHyphen
      (squash isHyphen false
         (squash isWhiteSpace false
            (List.filter isSlugChar (toLowerCase text))))).
Proof.
  intros text. unfold slugOf. rewrite replaceAll_edge. do 2 f_equal.
  unfold replaceAll, reHyphens, reSpaces, reNotSlugChar.
  change (Is HYPHEN) with (Chr isHyphen).
  rewrite !replaceLoop_squash by lia.
  rewrite replaceLoop_delete by lia.
  do 2 f_equal. apply filter_ext. intros c. apply negb_involutive.
Qed.

(** ** Slugs in final form *)

(** Decides the comparisons of a goal about character classes one by one,
    dropping the cases the context rules out. *)
Ltac classes :=
  unfold slugAlphabet, isSlugChar, isWhiteSpace, isLower, isDigit, isUpper, isHyphen,
    between, HYPHEN in *;
  repeat match goal with
         | H : context [?a <=? ?b] |- _ => destruct (Z.leb_spec a b); try lia
         | H : context [?a =? ?b] |- _ => destruct (Z.eqb_spec a b); try lia
         | |- context [?a <=? ?b] => destruct (Z.leb_spec a b); try lia
         | |- context [?a =? ?b] => destruct (Z.eqb_spec a b); try lia
         end;
  cbn in *; try reflexivity; try discriminate; try lia.

Lemma slugAlphabet_isSlugChar : forall c, slugAlphabet c = true -> isSlugChar c = true.
Proof. intros c H. classes. Qed.

Lemma slugAlphabet_not_space : forall c, slugAlphabet c = true -> isWhiteSpace c = false.
Proof. intros c H. classes. Qed.

Lemma slugAlphabet_lower : forall c, slugAlphabet c = true -> lowerUnit c = [c].
Proof. intros c H. unfold lowerUnit. classes. Qed.

Lemma slugChar_not_space :
  forall c, isSlugChar c = true -> isWhiteSpace c = false -> slugAlphabet c = true.
Proof.
  intros c H1 H2. unfold isSlugChar in H1. unfold slugAlphabet.
  rewrite H2 in H1. unfold isHyphen. rewrite (Z.eqb_sym HYPHEN c).
  destruct (isLower c), (isDigit c), (c =? HYPHEN); cbn in *; congruence.
Qed.

Lemma slugAlphabet_hyphen : slugAlphabet HYPHEN = true.
Proof. reflexivity. Qed.

Lemma isHyphen_eq : forall c, isHyphen c = true -> c = HYPHEN.
Proof. intros c H. unfold isHyphen in H. apply Z.eqb_eq in H. congruence. Qed.

(** *** What each step establishes *)

Lemma forallb_filter_same :
  forall (p : Z -> bool) s, forallb p (List.filter p s) = true.
Proof.
  intros p s. induction s as [|c tl IH]; cbn; [reflexivity|].
  destruct (p c) eqn:Hc; cbn; [rewrite Hc; exact IH | exact IH].
Qed.

Lemma squash_spaces_alphabet :
  forall s b, forallb isSlugChar s = true ->
    forallb slugAlphabet (squash isWhiteSpace b s) = true.
Proof.
  induction s as [|c tl IH]; intros b H; cbn [squash]; [reflexivity|].
  cbn [forallb] in H. apply andb_true_iff in H. destruct H as (Hc & Htl).
  destruct (isWhiteSpace c) eqn:Hw.
  - destruct b; cbn [forallb]; rewrite ?slugAlphabet_hyphen; cbn [andb]; apply IH; exact Htl.
  - cbn [forallb]. rewrite (slugChar_not_space c Hc Hw). cbn [andb]. apply IH. exact Htl.
Qed.

Lemma squash_hyphens_alphabet :
  forall s b, forallb slugAlphabet s = true ->
    forallb slugAlphabet (squash isHyphen b s) = true.
Proof.
  induction s as [|c tl IH]; intros b H; cbn [squash]; [reflexivity|].
  cbn [forallb] in H. apply andb_true_iff in H. destruct H as (Hc & Htl).
  destruct (isHyphen c) eqn:Hh.
  - destruct b; cbn [forallb]; rewrite ?slugAlphabet_hyphen; cbn [andb]; apply IH; exact Htl.
  - cbn [forallb]. rewrite Hc. cbn [andb]. apply IH. exact Htl.
Qed.

Lemma noRun_cons :
  forall c s, noRun (c :: s) = (negb (isHyphen c) || noLead s) && noRun s.
Proof.
  intros c [|d tl]; cbn [noRun noLead].
  - rewrite orb_true_r. reflexivity.
  - rewrite negb_andb. reflexivity.
Qed.

Lemma squash_hyphens_noRun :
  forall s,
    noRun (squash isHyphen false s) = true /\
    noRun (squash isHyphen true s) = true /\
    noLead (squash isHyphen true s) = true.
Proof.
  induction s as [|c tl (IHf & IHt & IHl)]; cbn [squash]; [repeat split; reflexivity|].
  destruct (isHyphen c) eqn:Hh.
  - repeat split; try assumption.
    rewrite noRun_cons, IHl, IHt. rewrite orb_true_r. reflexivity.
  - repeat split.
    + rewrite noRun_cons, Hh, IHf. reflexivity.
    + rewrite noRun_cons, Hh, IHf. reflexivity.
    + cbn [noLead]. rewrite Hh. reflexivity.
Qed.

Lemma noRun_tail : forall c s, noRun (c :: s) = true -> noRun s = true.
Proof. intros c s H. rewrite noRun_cons in H. apply andb_true_iff in H. tauto. Qed.

Lemma dropWhile_forallb :
  forall (p q : Z -> bool) s, forallb q s = true -> forallb q (dropWhile p s) = true.
Proof.
  intros p q s. induction s as [|c tl IH]; intros H; cbn [dropWhile]; [reflexivity|].
  destruct (p c); [|exact H].
  cbn [forallb] in H. apply andb_true_iff in H. apply IH. tauto.
Qed.

Lemma dropWhile_noRun :
  forall p s, noRun s = true -> noRun (dropWhile p s) = true.
Proof.
  intros p s. induction s as [|c tl IH]; intros H; cbn [dropWhile]; [reflexivity|].
  destruct (p c); [|exact H]. apply IH. eapply noRun_tail. exact H.
Qed.

Lemma dropWhile_noLead : forall s, noLead (dropWhile isHyphen s) = true.
Proof.
  induction s as [|c tl IH]; cbn [dropWhile]; [reflexivity|].
  destruct (isHyphen c) eqn:Hh; [exact IH|]. cbn [noLead]. rewrite Hh. reflexivity.
Qed.

Lemma stripTrailing_cons :
  forall c tl,
    stripTrailing (c :: tl) =
    if isHyphen c && forallb isHyphen tl then [] else c :: stripTrailing tl.
Proof. reflexivity. Qed.

Lemma stripTrailing_nil :
  forall s, stripTrailing s = [] -> forallb isHyphen s = true.
Proof.
  intros [|c tl] H; [reflexivity|].
  rewrite stripTrailing_cons in H. cbn [forallb].
  destruct (isHyphen c && forallb isHyphen tl); [reflexivity | discriminate H].
Qed.

Lemma stripTrailing_forallb :
  forall (q : Z -> bool) s, forallb q s = true -> forallb q (stripTrailing s) = true.
Proof.
  intros q s. induction s as [|c tl IH]; intros H; [reflexivity|].
  rewrite stripTrailing_cons.
  destruct (isHyphen c && forallb isHyphen tl); [reflexivity|].
  cbn [forallb] in *. apply andb_true_iff in H. destruct H as (-> & H).
  cbn [andb]. apply IH. exact H.
Qed.

Lemma stripTrailing_noLead : forall s, noLead s = true -> noLead (stripTrailing s) = true.
Proof.
  intros [|c tl] H; [reflexivity|]. rewrite stripTrailing_cons.
  destruct (isHyphen c && forallb isHyphen tl); [reflexivity | exact H].
Qed.

Lemma stripTrailing_noRun : forall s, noRun s = true -> noRun (stripTrailing s) = true.
Proof.
  induction s as [|c tl IH]; intros H; [reflexivity|].
  rewrite stripTrailing_cons.
  destruct (isHyphen c && forallb isHyphen tl); [reflexivity|].
  rewrite noRun_cons in *. apply andb_true_iff in H. destruct H as (H1 & H2).
  rewrite (IH H2), andb_true_r.
  destruct (isHyphen c); cbn [negb orb] in *; [|reflexivity].
  destruct (noLead (stripTrailing tl)) eqn:E; [reflexivity|].
  destruct (noLead tl) eqn:E'; [|discriminate H1].
  rewrite (stripTrailing_noLead tl E') in E. discriminate E.
Qed.

Lemma stripTrailing_noTrail : forall s, noTrail (stripTrailing s) = true.
Proof.
  induction s as [|c tl IH]; [reflexivity|].
  rewrite stripTrailing_cons.
  destruct (isHyphen c && forallb isHyphen tl) eqn:E; [reflexivity|].
  cbn [noTrail]. destruct (stripTrailing tl) as [|d X] eqn:EX; [|exact IH].
  apply stripTrailing_nil in EX. rewrite EX, andb_true_r in E. rewrite E. reflexivity.
Qed.

(** The slug of any text is in final form. *)
Lemma slugOf_normal : forall text, normal (slugOf text) = true.
Proof.
  intros text. rewrite slugOf_steps. unfold normal.
  set (s1 := List.filter isSlugChar (toLowerCase text)).
  set (s2 := squash isWhiteSpace false s1).
  set (s3 := squash isHyphen false s2).
  assert (A3 : forallb slugAlphabet s3 = true).
  { apply squash_hyphens_alphabet, squash_spaces_alphabet, forallb_filter_same. }
  assert (R3 : noRun s3 = true) by apply squash_hyphens_noRun.
  rewrite stripTrailing_forallb by (apply dropWhile_forallb; exact A3).
  rewrite stripTrailing_noRun by (apply dropWhile_noRun; exact R3).
  rewrite stripTrailing_noLead by apply dropWhile_noLead.
  rewrite stripTrailing_noTrail. reflexivity.
Qed.

(** *** What each step leaves alone *)

Lemma toLowerCase_alphabet :
  forall s, forallb slugAlphabet s = true -> toLowerCase s = s.
Proof.
  unfold toLowerCase. induction s as [|c tl IH]; intros H; [reflexivity|].
  cbn [forallb] in H. apply andb_true_iff in H. destruct H as (Hc & Htl).
  cbn [flat_map]. rewrite (slugAlphabet_lower c Hc), (IH Htl). reflexivity.
Qed.

Lemma filter_alphabet :
  forall s, forallb slugAlphabet s = true -> List.filter isSlugChar s = s.
Proof.
  induction s as [|c tl IH]; intros H; [reflexivity|].
  cbn [forallb] in H. apply andb_true_iff in H. destruct H as (Hc & Htl).
  cbn [List.filter]. rewrite (slugAlphabet_isSlugChar c Hc), (IH Htl). reflexivity.
Qed.

Lemma squash_spaces_alphabet_id :
  forall s, forallb slugAlphabet s = true -> squash isWhiteSpace false s = s.
Proof.
  induction s as [|c tl IH]; intros H; [reflexivity|].
  cbn [forallb] in H. apply andb_true_iff in H. destruct H as (Hc & Htl).
  cbn [squash]. rewrite (slugAlphabet_not_space c Hc), (IH Htl). reflexivity.
Qed.

Lemma squash_hyphens_id :
  forall s, noRun s = true ->
    squash isHyphen false s = s /\ (noLead s = true -> squash isHyphen true s = s).
Proof.
  induction s as [|c tl IH]; intros H; [split; reflexivity|].
  rewrite noRun_cons in H. apply andb_true_iff in H. destruct H as (H1 & H2).
  destruct (IH H2) as (IHf & IHt). cbn [squash noLead].
  destruct (isHyphen c) eqn:Hh; cbn [negb orb] in H1.
  - split; [|discriminate].
    rewrite (IHt H1). rewrite (isHyphen_eq c Hh). reflexivity.
  - split; [|intros _]; rewrite IHf; reflexivity.
Qed.

Lemma dropWhile_noLead_id : forall s, noLead s = true -> dropWhile isHyphen s = s.
Proof.
  intros [|c tl] H; [reflexivity|]. cbn [dropWhile noLead] in *.
  destruct (isHyphen c); [discriminate H | reflexivity].
Qed.

Lemma noTrail_not_all_hyphens :
  forall c tl, noTrail (c :: tl) = true -> forallb isHyphen (c :: tl) = false.
Proof.
  intros c tl. revert c. induction tl as [|d tl IH]; intros c H.
  - cbn [noTrail forallb] in *. destruct (isHyphen c); [discriminate H | reflexivity].
  - change (forallb isHyphen (c :: d :: tl))
      with (isHyphen c && forallb isHyphen (d :: tl)).
    rewrite (IH d H). apply andb_false_r.
Qed.

Lemma stripTrailing_noTrail_id : forall s, noTrail s = true -> stripTrailing s = s.
Proof.
  induction s as [|c tl IH]; intros H; [reflexivity|].
  cbn [stripTrailing]. rewrite (noTrail_not_all_hyphens c tl H).
  f_equal. apply IH. destruct tl; [reflexivity | exact H].
Qed.

(** A string in final form is its own slug. *)
Lemma slugOf_fixed : forall s, normal s = true -> slugOf s = s.
Proof.
  intros s H. unfold normal in H.
  apply andb_true_iff in H. destruct H as (H & Ht).
  apply andb_true_iff in H. destruct H as (H & Hl).
  apply andb_true_iff in H. destruct H as (Ha & Hr).
  rewrite slugOf_steps.
  rewrite (toLowerCase_alphabet s Ha), (filter_alphabet s Ha), (squash_spaces_alphabet_id s Ha).
  rewrite (proj1 (squash_hyphens_id s Hr)).
  rewrite (dropWhile_noLead_id s Hl). apply stripTrailing_noTrail_id. exact Ht.
Qed.

(** *** The numeric fallback *)

Lemma uint_digits :
  forall d, forallb isDigit (lit (NilEmpty.string_of_uint d)) = true.
Proof. induction d; cbn; try reflexivity; exact IHd. Qed.

Lemma natToString_digits : forall n, forallb isDigit (natToString n) = true.
Proof.
  intros n. unfold natToString, NilZero.string_of_uint.
  destruct (Nat.to_uint n) eqn:E; try reflexivity; rewrite <- E; apply uint_digits.
Qed.

Lemma natToString_nonempty : forall n, natToString n <> [].
Proof.
  intros n. unfold natToString, NilZero.string_of_uint.
  destruct (Nat.to_uint n); discriminate.
Qed.

Lemma digit_alphabet : forall c, isDigit c = true -> slugAlphabet c = true.
Proof. intros c H. unfold slugAlphabet. rewrite H. destruct (isLower c); reflexivity. Qed.

Lemma digit_not_hyphen : forall c, isDigit c = true -> isHyphen c = false.
Proof. intros c H. classes. Qed.

Lemma digits_noLead : forall ds, forallb isDigit ds = true -> noLead ds = true.
Proof.
  intros [|d ds] H; [reflexivity|]. cbn [forallb] in H. apply andb_true_iff in H.
  cbn [noLead]. rewrite (digit_not_hyphen d) by tauto. reflexivity.
Qed.

Lemma digits_noRun : forall ds, forallb isDigit ds = true -> noRun ds = true.
Proof.
  induction ds as [|d ds IH]; intros H; [reflexivity|].
  cbn [forallb] in H. apply andb_true_iff in H. destruct H as (Hd & Hds).
  rewrite noRun_cons, (digit_not_hyphen d Hd), (IH Hds). reflexivity.
Qed.

Lemma digits_noTrail : forall ds, forallb isDigit ds = true -> noTrail ds = true.
Proof.
  induction ds as [|d ds IH]; intros H; [reflexivity|].
  cbn [forallb] in H. apply andb_true_iff in H. destruct H as (Hd & Hds).
  cbn [noTrail]. destruct ds; [rewrite (digit_not_hyphen d Hd); reflexivity | apply IH; exact Hds].
Qed.

Lemma digits_alphabet : forall ds, forallb isDigit ds = true -> forallb slugAlphabet ds = true.
Proof.
  induction ds as [|d ds IH]; intros H; [reflexivity|].
  cbn [forallb] in *. apply andb_true_iff in H. destruct H as (Hd & Hds).
  rewrite (digit_alphabet d Hd), (IH Hds). reflexivity.
Qed.

Lemma noTrail_app :
  forall s1 s2, s2 <> [] -> noTrail (s1 ++ s2) = noTrail s2.
Proof.
  induction s1 as [|c s1 IH]; intros s2 H; [reflexivity|].
  cbn [app noTrail]. destruct (s1 ++ s2) eqn:E.
  - apply app_eq_nil in E. destruct E as [_ E]. contradiction.
  - rewrite <- E. apply IH. exact H.
Qed.

(** [heading-N] is in final form. *)
Lemma fallback_normal : forall index, normal (lit "heading-" ++ natToString index) = true.
Proof.
  intros index.
  pose proof (natToString_digits index) as Hd.
  pose proof (natToString_nonempty index) as Hn.
  unfold normal. rewrite forallb_app, (digits_alphabet _ Hd).
  rewrite (noTrail_app _ _ Hn), (digits_noTrail _ Hd).
  change (lit "heading-") with [104; 101; 97; 100; 105; 110; 103; 45].
  cbn [app]. rewrite !noRun_cons, (digits_noLead _ Hd), (digits_noRun _ Hd).
  reflexivity.
Qed.

Lemma orString_nonempty : forall s d, s <> [] -> orString s d = s.
Proof. intros [|c s] d H; [contradiction | reflexivity]. Qed.

Lemma fallback_nonempty : forall index, lit "heading-" ++ natToString index <> [].
Proof. intros index. discriminate. Qed.

(** *** Truncation *)

Lemma firstn_forallb :
  forall (q : Z -> bool) n s, forallb q s = true -> forallb q (firstn n s) = true.
Proof.
  intros q n. induction n as [|n IH]; intros [|c tl] H; try reflexivity.
  cbn [firstn forallb] in *. apply andb_true_iff in H. destruct H as (-> & H).
  apply IH. exact H.
Qed.

Lemma firstn_noLead : forall n s, noLead s = true -> noLead (firstn n s) = true.
Proof. intros [|n] [|c tl] H; try reflexivity. exact H. Qed.

Lemma firstn_noRun : forall n s, noRun s = true -> noRun (firstn n s) = true.
Proof.
  induction n as [|n IH]; intros [|c tl] H; try reflexivity.
  cbn [firstn]. rewrite noRun_cons in *. apply andb_true_iff in H. destruct H as (H1 & H2).
  rewrite (IH tl H2), andb_true_r.
  destruct (isHyphen c); [|reflexivity]. cbn [negb orb] in *.
  apply firstn_noLead. exact H1.
Qed.

(** Both generators return a non-empty id whose characters, runs and first
    character are those of a slug in final form. *)
Lemma generateSlug_normal :
  forall text index,
    normal (generateSlug text index) = true /\ generateSlug text index <> [].
Proof.
  intros text index. unfold generateSlug.
  destruct (slugOf text) as [|c s] eqn:E; cbn [orString].
  - split; [apply fallback_normal | apply fallback_nonempty].
  - split; [rewrite <- E; apply slugOf_normal | discriminate].
Qed.

Lemma normal_parts :
  forall s, normal s = true <->
    forallb slugAlphabet s = true /\ noRun s = true /\ noLead s = true /\ noTrail s = true.
Proof.
  intros s. unfold normal. rewrite !andb_true_iff. tauto.
Qed.

Lemma generateHeadingId_normal :
  forall text index,
    noTrail (generateHeadingId text index) = true ->
    normal (generateHeadingId text index) = true /\ generateHeadingId text index <> [].
Proof.
  intros text index. unfold generateHeadingId, substring0.
  pose proof (slugOf_normal text) as Hs. apply normal_parts in Hs.
  destruct Hs as (Ha & Hr & Hl & _).
  destruct (firstn 50 (slugOf text)) as [|c s] eqn:E; cbn [orString]; intros Ht.
  - split; [apply fallback_normal | apply fallback_nonempty].
  - split; [|discriminate]. rewrite <- E in *. apply normal_parts.
    repeat split;
      [apply firstn_forallb | apply firstn_noRun | apply firstn_noLead | ]; assumption.
Qed.

(** C5, as the code has it.  The untruncated [generateSlug] is idempotent on
    every input.  The truncating [generateHeadingId] is idempotent whenever
    the id it returned does not end with a hyphen (cutting at 50 characters
    can leave one) and is at most 50 characters long (which an id cut from
    the text always is, and the numeric fallback is for every index of up to
    42 digits). *)
Theorem slug_generators_idempotent :
  (forall (text : jsstring) (i j : nat),
      generateSlug (generateSlug text i) j = generateSlug text i) /\
  (forall (text : jsstring) (i j : nat),
      noTrail (generateHeadingId text i) = true ->
      (length (generateHeadingId text i) <= 50)%nat ->
      generateHeadingId (generateHeadingId text i) j = generateHeadingId text i).
Proof.
  split.
  - intros text i j. destruct (generateSlug_normal text i) as (Hn & Hne).
    unfold generateSlug at 1. rewrite (slugOf_fixed _ Hn).
    apply orString_nonempty. exact Hne.
  - intros text i j Ht Hlen. destruct (generateHeadingId_normal text i Ht) as (Hn & Hne).
    unfold generateHeadingId at 1. rewrite (slugOf_fixed _ Hn).
    unfold substring0. rewrite firstn_all2 by exact Hlen.
    apply orString_nonempty. exact Hne.
Qed.

(** A heading whose id is not cut. *)
Lemma slug_generators_idempotent_witness :
  noTrail (generateHeadingId (lit "Hello,  World -- Foo!") 3) = true /\
  (length (generateHeadingId (lit "Hello,  World -- Foo!") 3) <= 50)%nat /\
  generateHeadingId (generateHeadingId (lit "Hello,  World -- Foo!") 3) 0
  = generateHeadingId (lit "Hello,  World -- Foo!") 3.
Proof.
  split; [vm_compute; reflexivity|]. split; [vm_compute; lia|].
  apply (proj2 slug_generators_idempotent); [vm_compute; reflexivity | vm_compute; lia].
Defined.

(** C5, as the specification states it, fails for the truncating generator:
    the slug of [longText] has 51 characters, the fiftieth a hyphen. *)
Lemma headingId_not_idempotent : ~ headingIdIdempotent longText 0.
Proof. unfold headingIdIdempotent. vm_compute. discriminate. Qed.

(** ** The two conversion strategies *)

(** C6 at a list whose items span two lines: the markup and the Markdown of
    each strategy.  The pattern for list items has no [s] flag (those for
    paragraphs, block quotes and code blocks have it), so it skips an item
    with a line break in it; the tags are then only stripped, and the last
    word of one item runs into the first word of the next. *)
Theorem strategies_differ_on_multiline_items :
  innerHTML twoItems =
    lit "<ul><li>first" ++ [NL] ++ lit "item</li><li>second" ++ [NL] ++ lit "item</li></ul>" /\
  htmlToMarkdown (Browser (fun _ => twoItems)) (innerHTML twoItems) noOptions =
    Ok ([NL] ++ lit "- first" ++ [NL] ++ lit "item" ++ [NL] ++
        lit "- second" ++ [NL] ++ lit "item" ++ [NL; NL]) /\
  htmlToMarkdown Server (innerHTML twoItems) noOptions =
    Ok (lit "first" ++ [NL] ++ lit "itemsecond" ++ [NL] ++ lit "item") /\
  ~ strategiesAgree noOptions twoItems.
Proof.
  assert (E1 : htmlToMarkdown (Browser (fun _ => twoItems)) (innerHTML twoItems) noOptions =
               Ok ([NL] ++ lit "- first" ++ [NL] ++ lit "item" ++ [NL] ++
                   lit "- second" ++ [NL] ++ lit "item" ++ [NL; NL]))
    by (vm_compute; reflexivity).
  assert (E2 : htmlToMarkdown Server (innerHTML twoItems) noOptions =
               Ok (lit "first" ++ [NL] ++ lit "itemsecond" ++ [NL] ++ lit "item"))
    by (vm_compute; reflexivity).
  split; [vm_compute; reflexivity|]. split; [exact E1|]. split; [exact E2|].
  intros H. specialize (H _ _ E1 E2). vm_compute in H. discriminate H.
Qed.

Example word_counts_two_items : wordCounts twoItems = Some (4, 3).
Proof. vm_compute. reflexivity. Qed.

(** With each item on one line the two strategies agree. *)
Example word_counts_items_on_one_line : wordCounts twoItemsOneLine = Some (4, 4).
Proof. vm_compute. reflexivity. Qed.

(** The heading patterns lack the flag as well. *)
Example word_counts_two_headings : wordCounts twoHeadings = Some (4, 3).
Proof. vm_compute. reflexivity. Qed.

(** ** The matcher: positions *)

Lemma reaches_refl : forall st, reaches st st.
Proof. intros st. exists []. split; reflexivity. Qed.

Lemma reaches_trans : forall a b c, reaches a b -> reaches b c -> reaches a c.
Proof.
  intros a b c (w1 & R1 & B1) (w2 & R2 & B2). exists (w1 ++ w2). split.
  - rewrite R1, R2, app_assoc. reflexivity.
  - rewrite B2, B1, rev_app_distr, app_assoc. reflexivity.
Qed.

Lemma reaches_withCaps_r : forall cs a b, reaches a b -> reaches a (withCaps cs b).
Proof. intros cs a b H. exact H. Qed.

Lemma in_matches_Chr :
  forall p st st',
    In st' (matches (Chr p) st) ->
    exists c tl, rest st = c :: tl /\ p c = true /\ st' = mkState (c :: before st) tl (caps st).
Proof.
  intros p st st' H. cbn [matches] in H.
  destruct (rest st) as [|c tl] eqn:Hr; [destruct H|].
  destruct (p c) eqn:Hp; [|destruct H]. destruct H as [<-|[]].
  exists c, tl. repeat split; try assumption. unfold advance. rewrite Hr. reflexivity.
Qed.

Lemma in_matches_Seq :
  forall r1 r2 st st',
    In st' (matches (Seq r1 r2) st) ->
    exists s1, In s1 (matches r1 st) /\ In st' (matches r2 s1).
Proof. intros r1 r2 st st' H. cbn [matches] in H. apply in_flat_map in H. exact H. Qed.

Lemma startsWith_length :
  forall eq s input, startsWith eq s input = true -> (length s <= length input)%nat.
Proof.
  intros eq s. induction s as [|c s IH]; intros input H; cbn; [lia|].
  destruct input as [|d input]; [discriminate H|].
  cbn in H. apply andb_true_iff in H. destruct H as (_ & H). apply IH in H. cbn. lia.
Qed.

Lemma skip_reaches :
  forall n st, (n <= length (rest st))%nat -> reaches st (skip n st).
Proof.
  induction n as [|n IH]; intros st H; [apply reaches_refl|].
  cbn [skip]. destruct (rest st) as [|c tl] eqn:Hr; [cbn in H; lia|].
  apply reaches_trans with (advance st).
  - exists [c]. unfold advance. rewrite Hr. cbn. split; reflexivity.
  - apply IH. unfold advance. rewrite Hr. cbn in *. lia.
Qed.

(** Every match ends further along the same input. *)
Lemma matches_reaches :
  forall r st st', In st' (matches r st) -> reaches st st'.
Proof.
  induction r as [|p|r1 IH1 r2 IH2|r1 IH1 r2 IH2|g r IH|m r IH|ic m|r IH| | |];
    intros st st' Hin.
  - destruct Hin as [<-|[]]. apply reaches_refl.
  - apply in_matches_Chr in Hin. destruct Hin as (c & tl & Hr & _ & ->).
    exists [c]. cbn. split; [exact Hr | reflexivity].
  - apply in_matches_Seq in Hin. destruct Hin as (s1 & H1 & H2).
    eapply reaches_trans; [apply IH1 | apply IH2]; eassumption.
  - cbn [matches] in Hin. apply in_app_or in Hin. destruct Hin as [H|H]; auto.
  - cbn [matches] in Hin. revert Hin. apply starLoop_closure with (R := reaches).
    + apply reaches_refl.
    + intros s0 s1 s2 H1 _ H2. apply reaches_trans with s1; [|exact H2].
      apply IH in H1. exact H1.
  - cbn [matches] in Hin. apply in_map_iff in Hin. destruct Hin as (s1 & <- & H1).
    apply reaches_withCaps_r. apply IH. exact H1.
  - cbn [matches] in Hin.
    destruct (getcap m (caps st)) as [s|]; [|destruct Hin as [<-|[]]; apply reaches_refl].
    destruct (startsWith _ s (rest st)) eqn:Hs; [|destruct Hin].
    destruct Hin as [<-|[]]. apply skip_reaches. eapply startsWith_length. exact Hs.
  - cbn [matches] in Hin. destruct (matches r st); [|destruct Hin].
    destruct Hin as [<-|[]]. apply reaches_refl.
  - cbn [matches] in Hin. destruct (before st); [|destruct Hin].
    destruct Hin as [<-|[]]. apply reaches_refl.
  - cbn [matches] in Hin. destruct (rest st); [|destruct Hin].
    destruct Hin as [<-|[]]. apply reaches_refl.
  - cbn [matches] in Hin. destruct (xorb _ _); [|destruct Hin].
    destruct Hin as [<-|[]]. apply reaches_refl.
Qed.

Lemma reaches_input :
  forall st st', reaches st st' -> rev (before st') ++ rest st' = rev (before st) ++ rest st.
Proof.
  intros st st' (w & R & B). rewrite B, R, rev_app_distr, rev_involutive, <- app_assoc.
  reflexivity.
Qed.


(** ** The heading extractor *)





Lemma searchFrom_found :
  forall r s bef st st',
    searchFrom r bef s = Some (st, st') ->
    caps st = [] /\ rev (before st) ++ rest st = rev bef ++ s /\ In st' (matches r st).
Proof.
  intros r s. induction s as [|c tl IH]; intros bef st st' H; cbn [searchFrom] in H.
  - destruct (matchAt r (mkState bef [] [])) as [x|] eqn:E; [|discriminate H].
    injection H as <- <-. repeat split. apply matchAt_In in E. exact E.
  - destruct (matchAt r (mkState bef (c :: tl) [])) as [x|] eqn:E.
    + injection H as <- <-. repeat split. apply matchAt_In in E. exact E.
    + apply IH in H. destruct H as (H1 & H2 & H3). repeat split; try assumption.
      rewrite H2. cbn [rev]. rewrite <- app_assoc. reflexivity.
Qed.

(** Each heading of the loop comes from one match in the input. *)
Lemma execLoop_nth :
  forall r html fuel index bef s i h,
    rev bef ++ s = html ->
    nth_error (execLoop r fuel index bef s) i = Some h ->
    exists st st',
      caps st = [] /\ rev (before st) ++ rest st = html /\ In st' (matches r st) /\
      h = headingOfMatch (caps st') (index + i).
Proof.
  intros r html fuel. induction fuel as [|k IH]; intros index bef s i h Hin Hn.
  - destruct i; discriminate Hn.
  - cbn [execLoop] in Hn.
    destruct (searchFrom r bef s) as [[st st']|] eqn:E; [|destruct i; discriminate Hn].
    apply searchFrom_found in E. destruct E as (Hc & Hi & Hm).
    destruct i as [|i].
    + injection Hn as <-. exists st, st'. rewrite Nat.add_0_r, Hi. repeat split; assumption.
    + cbn [nth_error] in Hn. apply IH in Hn.
      * destruct Hn as (a & b & H1 & H2 & H3 & ->). exists a, b.
        replace (index + S i)%nat with (S index + i)%nat by lia. repeat split; assumption.
      * rewrite (reaches_input _ _ (matches_reaches _ _ _ Hm)), Hi. exact Hin.
Qed.




(** An id attribute written the usual way is not picked up either: the
    greedy [[^>]*] before the optional group has consumed it. *)
Example existing_id_is_skipped :
  extractHeadings (lit "<h2 id='intro'>Introduction</h2>") defaultLevels
  = [mkHtmlHeading (lit "heading-0") (lit "Introduction") (Some 2)].
Proof. vm_compute. reflexivity. Qed.

(** ** The loops never run out of fuel

    The loops of the matcher recurse on a counter that starts above the
    length of the remaining input.  Every round shortens that input, so any
    two counters above its length give the same result: the branch for an
    exhausted counter is never the one that decides. *)

Lemma flat_map_ext_In :
  forall (A B : Type) (f g : A -> list B) (l : list A),
    (forall a, In a l -> f a = g a) -> flat_map f l = flat_map g l.
Proof.
  intros A B f g l H. induction l as [|a l IH]; [reflexivity|].
  cbn [flat_map]. rewrite (H a (or_introl eq_refl)), IH; [reflexivity|].
  intros b Hb. apply H. right. exact Hb.
Qed.

Lemma starLoop_fuel :
  forall f forget greedy fuel1 fuel2 st,
    (length (rest st) < fuel1)%nat -> (length (rest st) < fuel2)%nat ->
    starLoop f forget greedy fuel1 st = starLoop f forget greedy fuel2 st.
Proof.
  intros f forget greedy fuel1.
  induction fuel1 as [|k1 IH]; intros fuel2 st H1 H2; [lia|].
  destruct fuel2 as [|k2]; [lia|]. cbn [starLoop].
  rewrite (flat_map_ext_In _ _ (starLoop f forget greedy k1) (starLoop f forget greedy k2));
    [reflexivity|].
  intros st1 Hin. apply filter_In in Hin. destruct Hin as (_ & Hp).
  unfold progressed in Hp. apply Nat.ltb_lt in Hp. apply IH; lia.
Qed.

Lemma replaceStep_shortens :
  forall r t bef s out bef' s',
    replaceStep r t bef s = (out, Some (bef', s')) -> (length s' < length s)%nat.
Proof.
  intros r t bef s out bef' s' H. unfold replaceStep in H.
  destruct (matchAt r (mkState bef s [])) as [st'|].
  - destruct (length (rest st') <? length s)%nat eqn:E.
    + injection H as _ _ <-. apply Nat.ltb_lt. exact E.
    + destruct s as [|c tl]; [discriminate H|]. injection H as _ _ <-. cbn. lia.
  - destruct s as [|c tl]; [discriminate H|]. injection H as _ _ <-. cbn. lia.
Qed.

Lemma replaceLoop_fuel :
  forall r t fuel1 fuel2 bef s,
    (length s < fuel1)%nat -> (length s < fuel2)%nat ->
    replaceLoop r t fuel1 bef s = replaceLoop r t fuel2 bef s.
Proof.
  intros r t fuel1. induction fuel1 as [|k1 IH]; intros fuel2 bef s H1 H2; [lia|].
  destruct fuel2 as [|k2]; [lia|]. cbn [replaceLoop].
  destruct (replaceStep r t bef s) as [out [[bef' s']|]] eqn:E; [|reflexivity].
  apply replaceStep_shortens in E. f_equal. apply IH; lia.
Qed.

Lemma replaceStepWith_shortens :
  forall r f bef s out bef' s',
    replaceStepWith r f bef s = Ok (out, Some (bef', s')) -> (length s' < length s)%nat.
Proof.
  intros r f bef s out bef' s' H. unfold replaceStepWith in H.
  destruct (matchAt r (mkState bef s [])) as [st'|].
  - destruct (f (caps st')) as [piece|e]; [|discriminate H]. cbn [bind] in H.
    destruct (length (rest st') <? length s)%nat eqn:E.
    + injection H as _ _ <-. apply Nat.ltb_lt. exact E.
    + destruct s as [|c tl]; [discriminate H|]. injection H as _ _ <-. cbn. lia.
  - destruct s as [|c tl]; [discriminate H|]. injection H as _ _ <-. cbn. lia.
Qed.

Lemma replaceLoopWith_fuel :
  forall r f fuel1 fuel2 bef s,
    (length s < fuel1)%nat -> (length s < fuel2)%nat ->
    replaceLoopWith r f fuel1 bef s = replaceLoopWith r f fuel2 bef s.
Proof.
  intros r f fuel1. induction fuel1 as [|k1 IH]; intros fuel2 bef s H1 H2; [lia|].
  destruct fuel2 as [|k2]; [lia|]. cbn [replaceLoopWith].
  destruct (replaceStepWith r f bef s) as [[out [[bef' s']|]]|e] eqn:E; try reflexivity.
  apply replaceStepWith_shortens in E. cbn [bind]. rewrite (IH k2 bef' s'); [reflexivity| |]; lia.
Qed.

Lemma splitLoop_fuel :
  forall r fuel1 fuel2 lenP acc bef s,
    let rounds := (2 * length s + (if (lenP =? length s)%nat then 0 else 1))%nat in
    (rounds < fuel1)%nat -> (rounds < fuel2)%nat ->
    splitLoop r fuel1 lenP acc bef s = splitLoop r fuel2 lenP acc bef s.
Proof.
  intros r fuel1. induction fuel1 as [|k1 IH]; intros fuel2 lenP acc bef s rounds H1 H2; [lia|].
  destruct fuel2 as [|k2]; [lia|]. cbn [splitLoop].
  destruct s as [|c tl]; [reflexivity|]. subst rounds. cbn [length] in *.
  assert (Hstep : forall a b,
             splitLoop r k1 lenP a b tl = splitLoop r k2 lenP a b tl).
  { intros a b. apply IH; destruct (lenP =? length tl)%nat; lia. }
  destruct (matchAt r (mkState bef (c :: tl) [])) as [st'|] eqn:E; [|apply Hstep].
  destruct (length (rest st') =? lenP)%nat eqn:Ep; [apply Hstep|].
  f_equal. apply matchAt_In, matches_reaches in E. destruct E as (w & Hw & _).
  cbn [rest withCaps] in Hw.
  assert (Hle : (length (rest st') <= S (length tl))%nat).
  { change (S (length tl)) with (length (c :: tl)). rewrite Hw, length_app. lia. }
  apply Nat.eqb_neq in Ep.
  apply IH; rewrite Nat.eqb_refl;
    destruct (lenP =? S (length tl))%nat eqn:El; try lia;
    apply Nat.eqb_eq in El; lia.
Qed.

Lemma reaches_length :
  forall st st', reaches st st' -> (length (rest st') <= length (rest st))%nat.
Proof. intros st st' (w & R & _). rewrite R, length_app. lia. Qed.

(** A match of the heading pattern is never empty. *)
Lemma reHeading_shortens :
  forall levels st st',
    In st' (matches (reHeading levels) st) -> (length (rest st') < length (rest st))%nat.
Proof.
  intros levels st st' H. unfold reHeading in H. cbn [seqOf] in H.
  apply in_matches_Seq in H. destruct H as (s1 & H1 & H).
  apply in_matches_Chr in H1. destruct H1 as (c & tl & Hr & _ & ->).
  apply matches_reaches, reaches_length in H. cbn [rest] in H. rewrite Hr. cbn. lia.
Qed.

Lemma searchFrom_suffix :
  forall r s bef st st',
    searchFrom r bef s = Some (st, st') -> (length (rest st) <= length s)%nat.
Proof.
  intros r s. induction s as [|c tl IH]; intros bef st st' H; cbn [searchFrom] in H.
  - destruct (matchAt r (mkState bef [] [])); [|discriminate H]. injection H as <- _. cbn. lia.
  - destruct (matchAt r (mkState bef (c :: tl) [])).
    + injection H as <- _. cbn. lia.
    + apply IH in H. cbn. lia.
Qed.

Lemma execLoop_fuel :
  forall levels fuel1 fuel2 index bef s,
    (length s < fuel1)%nat -> (length s < fuel2)%nat ->
    execLoop (reHeading levels) fuel1 index bef s =
    execLoop (reHeading levels) fuel2 index bef s.
Proof.
  intros levels fuel1. induction fuel1 as [|k1 IH]; intros fuel2 index bef s H1 H2; [lia|].
  destruct fuel2 as [|k2]; [lia|]. cbn [execLoop].
  destruct (searchFrom (reHeading levels) bef s) as [[st st']|] eqn:E; [|reflexivity].
  pose proof (searchFrom_suffix _ _ _ _ _ E) as Hs.
  apply searchFrom_found in E. destruct E as (_ & _ & Hm).
  apply reHeading_shortens in Hm. f_equal. apply IH; lia.
Qed.

(* ===================================================================== *)
(** * Part III: further properties of the code                            *)
(* ===================================================================== *)

(** ** The analytics handler *)

Lemma eqString_eq : forall a b, eqString a b = true <-> a = b.
Proof.
  induction a as [|x a IH]; destruct b as [|y b]; cbn; split; intro H;
    try reflexivity; try discriminate.
  - apply andb_true_iff in H. destruct H as (Hx & Hab).
    apply Z.eqb_eq in Hx. apply IH in Hab. congruence.
  - injection H as -> ->. rewrite Z.eqb_refl. cbn. apply IH. reflexivity.
Qed.

Lemma eqString_neq : forall a b, a <> b -> eqString a b = false.
Proof.
  intros a b H. destruct (eqString a b) eqn:E; [|reflexivity].
  apply eqString_eq in E. contradiction.
Qed.

(** One request of a client inside its window, seen from the counter. *)
Lemma serve_window :
  forall (St : Type) (options : AnalyticsHandlerOptions St) (limit : Z) (key : jsstring)
         (T : Z) (rs : list Request) (state : HandlerState St) (k : Z),
    rateLimit options = Some limit -> limit <> 0 ->
    neverRejects (storage options) ->
    Forall validPost rs ->
    Forall (fun r => clientKey r = key /\ now r <= T) rs ->
    requestCounts state !! key = Some (mkClientData k T) ->
    forall (i : nat) (a : Response),
      nth_error (fst (serve options state rs)) i = Some a ->
      (k + Z.of_nat i < limit -> status a = 200) /\
      (limit <= k + Z.of_nat i -> status a = 429).
Proof.
  intros St options limit key T rs.
  induction rs as [|r rs IH]; intros state k Hl Hnz Hsave Hv Hw Hk i a Hi.
  - destruct i; discriminate Hi.
  - inversion Hv as [|? ? Hv1 Hv2]; subst. inversion Hw as [|? ? (Hkey & Hnow) Hw2]; subst.
    assert (Hnext : nextClientData (requestCounts state) r = mkClientData (k + 1) T).
    { rewrite (nextClientData_within _ _ (mkClientData k T)); [reflexivity| |exact Hnow].
      exact Hk. }
    cbn [serve] in Hi.
    destruct (createAnalyticsHandler options state r) as [a1 s1] eqn:E1.
    destruct (serve options s1 rs) as [as2 s2] eqn:E2.
    assert (Hs1 : requestCounts s1 !! clientKey r = Some (mkClientData (k + 1) T) /\
                  ((k < limit -> status a1 = 200) /\ (limit <= k -> status a1 = 429))).
    { destruct (Z_lt_le_dec k limit) as [Hlt|Hge].
      - destruct (post_under_limit St options state r limit Hl Hnz Hsave Hv1)
          as (resp & st' & Hr & Hst).
        { rewrite Hnext. cbn [count]. lia. }
        rewrite E1 in Hr. injection Hr as -> ->. cbn [requestCounts].
        rewrite lookup_insert_eq, Hnext. split; [reflexivity|]. split; [auto|lia].
      - pose proof (post_over_limit St options state r limit Hl Hnz (proj1 Hv1)) as Hr.
        rewrite Hnext in Hr. cbn [count] in Hr. specialize (Hr ltac:(lia)).
        rewrite E1 in Hr. injection Hr as -> ->. cbn [requestCounts].
        rewrite lookup_insert_eq. split; [reflexivity|]. split; [lia|reflexivity]. }
    destruct Hs1 as (Hk1 & Ha1).
    destruct i as [|i]; cbn [fst nth_error] in Hi.
    + injection Hi as <-. rewrite Z.add_0_r. exact Ha1.
    + specialize (IH s1 (k + 1) Hl Hnz Hsave Hv2 Hw2 Hk1 i a).
      rewrite E2 in IH. specialize (IH Hi).
      replace (k + Z.of_nat (S i)) with (k + 1 + Z.of_nat i) by lia. exact IH.
Qed.

(** X1.  For any non-zero [rateLimit], among the valid POSTs of one client
    that fall in the window its first request opens, exactly the first
    [rateLimit] are answered 200 and every later one is answered 429
    (request number [i], counted from 0, is rejected if and only if
    [rateLimit <= i]). *)
Theorem rate_limit_cuts_off_after_limit :
  forall (St : Type) (options : AnalyticsHandlerOptions St) (s0 : HandlerState St)
         (limit : Z) (r0 : Request) (rs : list Request),
    rateLimit options = Some limit -> limit <> 0 ->
    neverRejects (storage options) ->
    Forall validPost (r0 :: rs) ->
    Forall (fun r => clientKey r = clientKey r0 /\ now r <= now r0 + windowMs) rs ->
    opensWindow (requestCounts s0) (clientKey r0) (now r0) ->
    forall (i : nat) (a : Response),
      nth_error (fst (serve options s0 (r0 :: rs))) i = Some a ->
      (Z.of_nat i < limit -> status a = 200) /\
      (limit <= Z.of_nat i -> status a = 429).
Proof.
  intros St options s0 limit r0 rs Hl Hnz Hsave Hv Hw Hopen i a Hi.
  inversion Hv as [|? ? Hv1 Hv2]; subst.
  pose proof (nextClientData_opens _ _ Hopen) as Hnext.
  cbn [serve] in Hi.
  destruct (createAnalyticsHandler options s0 r0) as [a1 s1] eqn:E1.
  destruct (serve options s1 rs) as [as2 s2] eqn:E2.
  assert (Hs1 : requestCounts s1 !! clientKey r0 = Some (mkClientData 1 (now r0 + windowMs)) /\
                ((0 < limit -> status a1 = 200) /\ (limit <= 0 -> status a1 = 429))).
  { destruct (Z_lt_le_dec 0 limit) as [Hlt|Hge].
    - destruct (post_under_limit St options s0 r0 limit Hl Hnz Hsave Hv1)
        as (resp & st' & Hr & Hst).
      { rewrite Hnext. cbn [count]. lia. }
      rewrite E1 in Hr. injection Hr as -> ->. cbn [requestCounts].
      rewrite lookup_insert_eq, Hnext. split; [reflexivity|]. split; [auto|lia].
    - pose proof (post_over_limit St options s0 r0 limit Hl Hnz (proj1 Hv1)) as Hr.
      rewrite Hnext in Hr. cbn [count] in Hr. specialize (Hr ltac:(lia)).
      rewrite E1 in Hr. injection Hr as -> ->. cbn [requestCounts].
      rewrite lookup_insert_eq. split; [reflexivity|]. split; [lia|reflexivity]. }
  destruct Hs1 as (Hk1 & Ha1).
  destruct i as [|i]; cbn [fst nth_error] in Hi.
  - injection Hi as <-. exact Ha1.
  - pose proof (serve_window St options limit (clientKey r0) (now r0 + windowMs) rs s1 1
                  Hl Hnz Hsave Hv2 Hw Hk1 i a) as H.
    rewrite E2 in H. specialize (H Hi).
    replace (Z.of_nat (S i)) with (1 + Z.of_nat i) by lia. exact H.
Qed.

(** A limit of one: the second request of the window is turned away. *)
Lemma rate_limit_cuts_off_after_limit_witness :
  exists a,
    nth_error
      (fst (serve (inMemoryOptions (Some 1) None) freshState
              [sampleRequest 0 (lit "copy"); sampleRequest 10000 (lit "view");
               sampleRequest 60000 (lit "copy")])) 1 = Some a /\
    status a = 429.
Proof.
  eexists. split; [vm_compute; reflexivity|].
  refine (proj2 (rate_limit_cuts_off_after_limit _ (inMemoryOptions (Some 1) None) freshState 1
                   (sampleRequest 0 (lit "copy"))
                   [sampleRequest 10000 (lit "view"); sampleRequest 60000 (lit "copy")]
                   eq_refl _ _ _ _ _ 1%nat _ _) _).
  - discriminate.
  - intros event st. eexists. reflexivity.
  - repeat constructor; eexists; (split; [reflexivity | discriminate]).
  - repeat constructor; cbn; unfold windowMs; lia.
  - exact I.
  - vm_compute. reflexivity.
  - cbn. lia.
Defined.

Lemma method_not_post :
  forall request, method request <> lit "POST" ->
    eqString (method request) (lit "POST") = false.
Proof. intros request H. apply eqString_neq. exact H. Qed.

(** What a POST leaves in the request counter, whatever its answer. *)
Lemma post_counts :
  forall (St : Type) (options : AnalyticsHandlerOptions St) (state : HandlerState St)
         (request : Request) (limit : Z),
    rateLimit options = Some limit -> limit <> 0 ->
    method request = lit "POST" ->
    requestCounts (snd (createAnalyticsHandler options state request)) =
    <[clientKey request := nextClientData (requestCounts state) request]> (requestCounts state).
Proof.
  intros St options state request limit Hl Hnz Hm.
  destruct (method_post_dispatch request Hm) as (Ho & Hp).
  unfold createAnalyticsHandler. rewrite Ho, Hp. cbn [negb].
  rewrite Hl. cbn [nonZero]. apply Z.eqb_neq in Hnz. rewrite Hnz. cbn [negb].
  rewrite rateLimitStep_next.
  destruct (limit <? _); [reflexivity|].
  destruct (analyticsTry options request (stored state)) as [[response st']|e]; reflexivity.
Qed.

(** X2.  With a rate limit set, a request whose method is not POST leaves
    the handler's state as it was.  A POST is always counted, whether it is
    then answered 200, 429 or 500: inside the client's window its count grows
    by one and the reset time stays (the window is fixed, a rejected request
    does not extend it); a POST that opens a window sets the count to 1 and
    the reset time 60000 ms ahead; the entries of all other clients are
    untouched. *)
Theorem rate_limit_counts_every_post :
  forall (St : Type) (options : AnalyticsHandlerOptions St) (state : HandlerState St)
         (request : Request) (limit : Z),
    rateLimit options = Some limit -> limit <> 0 ->
    let state' := snd (createAnalyticsHandler options state request) in
    (method request <> lit "POST" -> state' = state) /\
    (method request = lit "POST" ->
       (forall key, key <> clientKey request ->
          requestCounts state' !! key = requestCounts state !! key) /\
       (forall d, requestCounts state !! clientKey request = Some d ->
          now request <= resetAt d ->
          requestCounts state' !! clientKey request
          = Some (mkClientData (count d + 1) (resetAt d))) /\
       (opensWindow (requestCounts state) (clientKey request) (now request) ->
          requestCounts state' !! clientKey request
          = Some (mkClientData 1 (now request + windowMs)))).
Proof.
  intros St options state request limit Hl Hnz state'. split.
  - intros Hm. subst state'. unfold createAnalyticsHandler.
    destruct (eqString (method request) (lit "OPTIONS")); [reflexivity|].
    rewrite (method_not_post _ Hm). reflexivity.
  - intros Hm. subst state'. rewrite (post_counts St options state request limit Hl Hnz Hm).
    split; [|split].
    + intros key Hkey. apply lookup_insert_ne. congruence.
    + intros d Hd Hnow. rewrite lookup_insert_eq.
      rewrite (nextClientData_within _ _ d Hd Hnow). reflexivity.
    + intros Hopen. rewrite lookup_insert_eq.
      rewrite (nextClientData_opens _ _ Hopen). reflexivity.
Qed.

(** A request over the limit is counted all the same. *)
Lemma rate_limit_counts_every_post_witness :
  let s1 := snd (createAnalyticsHandler (inMemoryOptions (Some 1) None) freshState
                   (sampleRequest 0 (lit "copy"))) in
  let s2 := snd (createAnalyticsHandler (inMemoryOptions (Some 1) None) s1
                   (sampleRequest 10000 (lit "copy"))) in
  requestCounts s1 !! lit "203.0.113.7" = Some (mkClientData 1 60000) /\
  requestCounts s2 !! lit "203.0.113.7" = Some (mkClientData 2 60000).
Proof.
  intros s1 s2.
  pose proof (rate_limit_counts_every_post _ (inMemoryOptions (Some 1) None) freshState
                (sampleRequest 0 (lit "copy")) 1 eq_refl ltac:(discriminate)) as H1.
  destruct H1 as (_ & H1). destruct (H1 eq_refl) as (_ & _ & H1c).
  specialize (H1c I).
  pose proof (rate_limit_counts_every_post _ (inMemoryOptions (Some 1) None) s1
                (sampleRequest 10000 (lit "copy")) 1 eq_refl ltac:(discriminate)) as H2.
  destruct H2 as (_ & H2). destruct (H2 eq_refl) as (_ & H2b & _).
  specialize (H2b (mkClientData 1 60000) H1c ltac:(cbn; lia)).
  split; [exact H1c | exact H2b].
Defined.

(** X3.  [rateLimit] missing or 0 switches the limiter off: the request
    counter is never written and no request is answered 429. *)
Theorem zero_rate_limit_disables_limiter :
  forall (St : Type) (options : AnalyticsHandlerOptions St) (state : HandlerState St)
         (request : Request),
    rateLimit options = None \/ rateLimit options = Some 0 ->
    requestCounts (snd (createAnalyticsHandler options state request)) = requestCounts state /\
    status (fst (createAnalyticsHandler options state request)) <> 429.
Proof.
  intros St options state request Hl.
  assert (Hz : nonZero (rateLimit options) = false) by (destruct Hl as [-> | ->]; reflexivity).
  unfold createAnalyticsHandler. rewrite Hz.
  destruct (eqString (method request) (lit "OPTIONS")); [split; [reflexivity | discriminate]|].
  destruct (negb (eqString (method request) (lit "POST"))); [split; [reflexivity | discriminate]|].
  destruct (analyticsTry options request (stored state)) as [[response st']|e] eqn:E.
  - split; [reflexivity|]. unfold analyticsTry in E.
    destruct (json request) as [b|]; [|discriminate E]. cbn [bind] in E.
    destruct (buildEvent request b) as [ev|]; [|discriminate E]. cbn [bind] in E.
    destruct (save (storage options) ev (stored state)) as [s1|]; [|discriminate E].
    cbn [bind] in E. injection E as <- _. discriminate.
  - split; [reflexivity | discriminate].
Qed.

Lemma zero_rate_limit_disables_limiter_witness :
  requestCounts (snd (createAnalyticsHandler (inMemoryOptions (Some 0) None) freshState
                        (sampleRequest 0 (lit "copy"))))
  = requestCounts freshState /\
  status (fst (createAnalyticsHandler (inMemoryOptions (Some 0) None) freshState
                 (sampleRequest 0 (lit "copy")))) <> 429.
Proof.
  apply (zero_rate_limit_disables_limiter _ (inMemoryOptions (Some 0) None) freshState
           (sampleRequest 0 (lit "copy"))).
  right. reflexivity.
Defined.

Lemma buildEvent_timestamp :
  forall request body event,
    buildEvent request body = Ok event -> timestamp event = isoNow request.
Proof.
  intros request body event H. unfold buildEvent in H.
  destruct (getProp body "action"); [|discriminate H]. cbn [bind] in H.
  destruct (getProp body "contentId"); [|discriminate H]. cbn [bind] in H.
  destruct (getProp body "url"); [|discriminate H]. cbn [bind] in H.
  destruct (getProp body "metadata"); [|discriminate H]. cbn [bind] in H.
  injection H as <-. reflexivity.
Qed.

(** One call on the in-memory storage: a 200 appends one event stamped with
    the server's clock, any other answer leaves the log alone. *)
Lemma in_memory_step :
  forall limit allowCors state request,
    let '(a, state') := createAnalyticsHandler (inMemoryOptions limit allowCors) state request in
    (status a = 200 /\
     exists event, stored state' = stored state ++ [event] /\
                   timestamp event = isoNow request /\
                   body a = JsonBody [ (lit "success", JBool true);
                                       (lit "event", eventJSON event) ]) \/
    (status a <> 200 /\ stored state' = stored state).
Proof.
  intros limit allowCors state request. unfold createAnalyticsHandler.
  destruct (eqString (method request) (lit "OPTIONS")); [right; split; [discriminate | reflexivity]|].
  destruct (negb (eqString (method request) (lit "POST")));
    [right; split; [discriminate | reflexivity]|].
  assert (Htry :
    match analyticsTry (inMemoryOptions limit allowCors) request (stored state) with
    | Ok (a, st') =>
        status a = 200 /\
        exists event, st' = stored state ++ [event] /\ timestamp event = isoNow request /\
                      body a = JsonBody [ (lit "success", JBool true);
                                          (lit "event", eventJSON event) ]
    | Throw _ => True
    end).
  { unfold analyticsTry.
    destruct (json request) as [b|]; [|exact I]. cbn [bind].
    destruct (buildEvent request b) as [ev|] eqn:Eev; [|exact I]. cbn [bind].
    split; [reflexivity|]. exists ev. split; [reflexivity|].
    split; [exact (buildEvent_timestamp _ _ _ Eev) | reflexivity]. }
  assert (Hgo :
    match analyticsTry (inMemoryOptions limit allowCors) request (stored state) with
    | Ok (a, st') =>
        status a = 200 /\
        exists event, st' = stored state ++ [event] /\ timestamp event = isoNow request /\
                      body a = JsonBody [ (lit "success", JBool true);
                                          (lit "event", eventJSON event) ]
    | Throw _ => True
    end ->
    forall counts,
    let '(a, state') :=
      match analyticsTry (inMemoryOptions limit allowCors) request (stored state) with
      | Ok (response, st') => (response, mkHandlerState counts st')
      | Throw _ => (mkResponse 500 [] failureBody, mkHandlerState counts (stored state))
      end in
    (status a = 200 /\
     exists event, stored state' = stored state ++ [event] /\
                   timestamp event = isoNow request /\
                   body a = JsonBody [ (lit "success", JBool true);
                                       (lit "event", eventJSON event) ]) \/
    (status a <> 200 /\ stored state' = stored state)).
  { intros H counts.
    destruct (analyticsTry (inMemoryOptions limit allowCors) request (stored state))
      as [[a st']|e].
    - left. exact H.
    - right. split; [discriminate | reflexivity]. }
  destruct (nonZero (rateLimit (inMemoryOptions limit allowCors))).
  - rewrite rateLimitStep_next. destruct (_ <? _).
    + right. split; [discriminate | reflexivity].
    + apply Hgo. exact Htry.
  - apply Hgo. exact Htry.
Qed.

Lemma accepted_cons :
  forall request requests response responses,
    accepted (request :: requests) (response :: responses) =
    (if status response =? 200 then [request] else []) ++ accepted requests responses.
Proof.
  intros. unfold accepted. cbn [combine List.filter snd].
  destruct (status response =? 200); reflexivity.
Qed.

(** X4.  On the in-memory storage the log grows by exactly one event for each
    request answered 200 and by none for any other answer; the events follow
    the order of arrival, and each carries the server's clock reading for its
    request as timestamp, whatever the body said. *)
Theorem in_memory_log_follows_accepted_requests :
  forall (limit : option Z) (allowCors : option bool)
         (requests : list Request) (state : HandlerState (list AnalyticsEvent)),
    let responses := fst (serve (inMemoryOptions limit allowCors) state requests) in
    let state' := snd (serve (inMemoryOptions limit allowCors) state requests) in
    length responses = length requests /\
    List.map timestamp (stored state') =
    List.map timestamp (stored state) ++ List.map isoNow (accepted requests responses).
Proof.
  intros limit allowCors requests.
  induction requests as [|r rs IH]; intros state; cbn zeta.
  - cbn. split; [reflexivity|]. rewrite app_nil_r. reflexivity.
  - cbn [serve].
    pose proof (in_memory_step limit allowCors state r) as Hstep.
    destruct (createAnalyticsHandler (inMemoryOptions limit allowCors) state r) as [a s1].
    specialize (IH s1). cbn zeta in IH.
    destruct (serve (inMemoryOptions limit allowCors) s1 rs) as [responses s2].
    cbn [fst snd] in *. destruct IH as (Hlen & Hlog).
    split; [cbn [length]; congruence|].
    rewrite accepted_cons, Hlog.
    destruct Hstep as [(H200 & event & Hst & Hts & _) | (Hn200 & Hst)].
    + rewrite H200, Hst. cbn [Z.eqb Pos.eqb]. rewrite List.map_app. cbn [List.map app].
      rewrite Hts, <- app_assoc. reflexivity.
    + rewrite Hst. apply Z.eqb_neq in Hn200. rewrite Hn200. reflexivity.
Qed.

(** X5.  The Pages Router handler has no rate limiter and does not look at
    the body before it builds the event: on the in-memory storage every POST
    is answered 200 and logged, whatever [rateLimit] is and whatever the body
    (undefined and null included); any other method is answered 405 and
    nothing is logged. *)
Theorem page_handler_accepts_every_post :
  forall (limit : option Z) (allowCors : option bool)
         (log : list AnalyticsEvent) (req : PageRequest),
    let '(a, log') := createAnalyticsPageHandler (inMemoryOptions limit allowCors) log req in
    (pageMethod req = Some (lit "POST") ->
       status a = 200 /\
       exists event, log' = log ++ [event] /\ timestamp event = pageIsoNow req /\
                     body a = JsonBody [ (lit "success", JBool true);
                                         (lit "event", eventJSON event) ]) /\
    (pageMethod req <> Some (lit "POST") -> status a = 405 /\ log' = log).
Proof.
  intros limit allowCors log req. unfold createAnalyticsPageHandler.
  destruct (eqString (match pageMethod req with Some m => m | None => [] end) (lit "POST"))
    eqn:E; cbn [negb].
  - apply eqString_eq in E. cbn. split.
    + intros _. split; [reflexivity|]. eexists. split; [reflexivity|].
      split; reflexivity.
    + intros H. exfalso. apply H. destruct (pageMethod req) as [m|]; [|discriminate E].
      rewrite E. reflexivity.
  - split.
    + intros H. rewrite H in E. discriminate E.
    + intros _. split; reflexivity.
Qed.

(** ** Counting words *)

Lemma matchAt_reSpaces :
  forall bef s,
    matchAt reSpaces (mkState bef s []) =
    match s with
    | c :: tl =>
        if isWhiteSpace c
        then Some (mkState (fst (runEnd isWhiteSpace (c :: bef) tl))
                     (snd (runEnd isWhiteSpace (c :: bef) tl)) [])
        else None
    | [] => None
    end.
Proof.
  intros bef s. rewrite matchAt_state. unfold reSpaces. rewrite matches_plus_chr.
  destruct s as [|c tl]; [reflexivity|].
  destruct (isWhiteSpace c); [apply head_chrStar | reflexivity].
Qed.

Lemma dropWhile_length : forall p s, (length (dropWhile p s) <= length s)%nat.
Proof.
  intros p s. induction s as [|c tl IH]; cbn; [lia|].
  destruct (p c); cbn; lia.
Qed.

Lemma nonEmpty_rev : forall s, nonEmpty (rev s) = nonEmpty s.
Proof.
  intros [|c tl]; [reflexivity|]. cbn [rev].
  destruct (rev tl); reflexivity.
Qed.

Lemma countRuns_dropWhile :
  forall s, countRuns notSpace false (dropWhile isWhiteSpace s) = countRuns notSpace false s.
Proof.
  induction s as [|c tl IH]; [reflexivity|]. cbn [dropWhile countRuns]. unfold notSpace at 2.
  destruct (isWhiteSpace c) eqn:E; cbn [negb]; [exact IH|].
  cbn [countRuns]. unfold notSpace at 1. rewrite E. reflexivity.
Qed.

(** [split(/\s+/)] cuts at the runs of white space: the pieces that are not
    empty are the runs of other characters. *)
Lemma splitLoop_spaces :
  forall fuel lenP acc bef s,
    (length s < fuel)%nat -> (length s <= lenP)%nat ->
    length (List.filter nonEmpty (splitLoop reSpaces fuel lenP acc bef s)) =
    (countRuns notSpace (nonEmpty acc) s + (if nonEmpty acc then 1 else 0))%nat.
Proof.
  induction fuel as [|k IH]; intros lenP acc bef s Hfuel Hlen; [lia|].
  cbn [splitLoop]. destruct s as [|c tl].
  - cbn [List.filter countRuns]. rewrite nonEmpty_rev. destruct (nonEmpty acc); reflexivity.
  - rewrite matchAt_reSpaces. cbn [countRuns]. unfold notSpace at 1. cbn [length] in Hfuel, Hlen.
    destruct (isWhiteSpace c); cbn [negb].
    + cbn [rest before]. rewrite runEnd_rest.
      pose proof (dropWhile_length isWhiteSpace tl) as Hd.
      replace (length (dropWhile isWhiteSpace tl) =? lenP)%nat with false
        by (symmetry; apply Nat.eqb_neq; lia).
      cbn [List.filter]. rewrite nonEmpty_rev.
      assert (Hrest : length (List.filter nonEmpty
                (splitLoop reSpaces k (length (dropWhile isWhiteSpace tl)) []
                   (fst (runEnd isWhiteSpace (c :: bef) tl)) (dropWhile isWhiteSpace tl)))
              = countRuns notSpace false tl).
      { rewrite IH by lia. cbn [nonEmpty]. rewrite countRuns_dropWhile. lia. }
      destruct (nonEmpty acc); cbn [length]; rewrite Hrest; lia.
    + rewrite IH by lia. cbn [nonEmpty].
      destruct (nonEmpty acc); lia.
Qed.

Lemma replaceAll_rePunctuation :
  forall text, replaceAll rePunctuation (const []) text = List.filter isWordOrSpace text.
Proof.
  intros text. unfold replaceAll, rePunctuation. rewrite replaceLoop_delete by lia.
  apply List.filter_ext. intros c. unfold isWordOrSpace. apply negb_involutive.
Qed.

(** [countWords] counts the runs of characters other than white space in what
    the deletion leaves. *)
Lemma countWords_notSpace :
  forall text,
    countWords text = Z.of_nat (countRuns notSpace false (List.filter isWordOrSpace text)).
Proof.
  intros text. unfold countWords. rewrite replaceAll_rePunctuation. f_equal.
  unfold split. destruct (List.filter isWordOrSpace text) as [|c tl] eqn:E.
  - reflexivity.
  - rewrite splitLoop_spaces by (cbn [length]; lia). cbn [nonEmpty]. lia.
Qed.

Lemma wordChar_notSpace : forall c, isWordChar c = true -> isWhiteSpace c = false.
Proof.
  intros c H. unfold isWordChar, isLower, isUpper, isDigit, between in H.
  unfold isWhiteSpace, between. lia.
Qed.

Lemma countRuns_ext :
  forall (p q : Z -> bool) s inside,
    forallb (fun c => Bool.eqb (p c) (q c)) s = true ->
    countRuns p inside s = countRuns q inside s.
Proof.
  intros p q s. induction s as [|c tl IH]; intros inside H; [reflexivity|].
  cbn [forallb] in H. apply andb_true_iff in H. destruct H as (Hc & Htl).
  apply Bool.eqb_prop in Hc. cbn [countRuns]. rewrite Hc, !IH by exact Htl. reflexivity.
Qed.

Lemma filter_word_or_space :
  forall s,
    forallb (fun c => Bool.eqb (notSpace c) (isWordChar c)) (List.filter isWordOrSpace s) = true.
Proof.
  induction s as [|c tl IH]; [reflexivity|]. cbn [List.filter].
  destruct (isWordOrSpace c) eqn:E; [|exact IH].
  cbn [forallb]. rewrite IH, andb_true_r. unfold isWordOrSpace in E. unfold notSpace.
  destruct (isWordChar c) eqn:Ew.
  - rewrite (wordChar_notSpace c Ew). reflexivity.
  - cbn in E. rewrite E. reflexivity.
Qed.

Lemma countWords_countRuns :
  forall text,
    countWords text = Z.of_nat (countRuns isWordChar false (List.filter isWordOrSpace text)).
Proof.
  intros text. rewrite countWords_notSpace. f_equal.
  apply countRuns_ext. apply filter_word_or_space.
Qed.

(** X6.  [countWords] is the number of maximal runs of word characters
    [A-Za-z0-9_] in the text once every character that is neither a word
    character nor white space has been deleted: deleted characters join what
    stands on either side of them, white space separates. *)
Theorem countWords_counts_runs_of_word_characters :
  forall text : jsstring,
    countWords text = Z.of_nat (countRuns isWordChar false (List.filter isWordOrSpace text)).
Proof. exact countWords_countRuns. Qed.





Lemma countRuns_app :
  forall (p : Z -> bool) (w : Z) (b a : jsstring) (inside : bool),
    p w = false ->
    countRuns p inside (a ++ w :: b) = (countRuns p inside a + countRuns p false b)%nat.
Proof.
  intros p w b a. induction a as [|c tl IH]; intros inside Hw.
  - cbn [app countRuns]. rewrite Hw. reflexivity.
  - cbn [app countRuns]. destruct (p c); [destruct inside|]; rewrite IH by exact Hw; lia.
Qed.

(** X8.  White space separates and everything else that is not a word
    character is ignored: the count of a text with a white-space character
    between two parts is the sum of the counts of the parts, while deleting a
    character that is neither a word character nor white space changes
    nothing (so [well-known] is one word and [a - b] two). *)
Theorem countWords_separators :
  forall (a b : jsstring) (c : Z),
    (isWhiteSpace c = true -> countWords (a ++ [c] ++ b) = countWords a + countWords b) /\
    (isWordChar c = false -> isWhiteSpace c = false ->
       countWords (a ++ [c] ++ b) = countWords (a ++ b)).
Proof.
  intros a b c. split.
  - intros Hc. rewrite !countWords_notSpace, !List.filter_app. cbn [List.filter].
    unfold isWordOrSpace at 2. rewrite Hc, orb_true_r. cbn [app].
    rewrite countRuns_app by (unfold notSpace; rewrite Hc; reflexivity). lia.
  - intros Hw Hs. rewrite !countWords_notSpace, !List.filter_app. cbn [List.filter].
    unfold isWordOrSpace at 2. rewrite Hw, Hs. reflexivity.
Qed.

Lemma countWords_separators_witness :
  countWords (lit "well-known" ++ lit " " ++ lit "fact") = countWords (lit "well-known") + countWords (lit "fact") /\
  countWords (lit "well" ++ lit "-" ++ lit "known") = countWords (lit "well" ++ lit "known").
Proof.
  split.
  - apply (proj1 (countWords_separators (lit "well-known") (lit "fact") 32)). reflexivity.
  - apply (proj2 (countWords_separators (lit "well") (lit "known") 45)); reflexivity.
Defined.

(** ** Text the patterns cannot match *)

Lemma opensWith_matches :
  forall (q : Z -> bool) (r : regex) (st st' : MatchState),
    opensWith q r -> In st' (matches r st) ->
    exists c tl, rest st = c :: tl /\ q c = true.
Proof.
  intros q r. induction r; intros st st' Hq Hin; cbn [opensWith] in Hq; try contradiction.
  - apply in_matches_Chr in Hin. destruct Hin as (c & tl & Hr & Hp & _).
    exists c, tl. split; [exact Hr | apply Hq; exact Hp].
  - apply in_matches_Seq in Hin. destruct Hin as (s1 & H1 & _).
    exact (IHr1 st s1 Hq H1).
  - cbn [matches] in Hin. apply in_app_or in Hin. destruct Hq as (Hq1 & Hq2).
    destruct Hin as [Hin|Hin]; [exact (IHr1 st st' Hq1 Hin) | exact (IHr2 st st' Hq2 Hin)].
  - cbn [matches] in Hin. apply in_map_iff in Hin. destruct Hin as (s1 & _ & H1).
    exact (IHr st s1 Hq H1).
Qed.

Lemma opensWith_matchAt :
  forall (q : Z -> bool) (r : regex) (bef s : jsstring),
    opensWith q r ->
    match s with c :: _ => q c = false | [] => True end ->
    matchAt r (mkState bef s []) = None.
Proof.
  intros q r bef s Hq Hs. unfold matchAt.
  destruct (matches r (withCaps [] (mkState bef s []))) as [|st' l] eqn:E; [reflexivity|].
  assert (Hin : In st' (matches r (withCaps [] (mkState bef s [])))) by (rewrite E; left; reflexivity).
  apply (opensWith_matches q) in Hin; [|exact Hq].
  destruct Hin as (c & tl & Hr & Hc). cbn in Hr. subst s. congruence.
Qed.

Lemma forallb_head :
  forall (q : Z -> bool) (s : jsstring),
    forallb (fun c => negb (q c)) s = true ->
    match s with c :: _ => q c = false | [] => True end.
Proof.
  intros q [|c tl] H; [exact I|]. cbn [forallb] in H.
  apply andb_true_iff in H. apply negb_true_iff. exact (proj1 H).
Qed.

(** A replacement leaves alone a text none of whose characters can begin a
    match. *)
Lemma replaceLoop_no_match :
  forall (q : Z -> bool) (r : regex) (t : captures -> jsstring) (fuel : nat)
         (s bef : jsstring),
    opensWith q r -> forallb (fun c => negb (q c)) s = true ->
    replaceLoop r t fuel bef s = s.
Proof.
  intros q r t fuel. induction fuel as [|k IH]; intros s bef Hq Hs; [reflexivity|].
  cbn [replaceLoop]. unfold replaceStep.
  rewrite (opensWith_matchAt q r bef s Hq (forallb_head q s Hs)).
  destruct s as [|c tl]; [reflexivity|].
  cbn [forallb] in Hs. apply andb_true_iff in Hs.
  cbn [app]. rewrite IH; [reflexivity | exact Hq | exact (proj2 Hs)].
Qed.

Lemma replaceAll_no_match :
  forall (q : Z -> bool) (r : regex) (t : captures -> jsstring) (s : jsstring),
    opensWith q r -> forallb (fun c => negb (q c)) s = true ->
    replaceAll r t s = s.
Proof. intros. unfold replaceAll. apply (replaceLoop_no_match q); assumption. Qed.

Lemma replaceLoopWith_no_match :
  forall (q : Z -> bool) (r : regex) (f : captures -> result jsstring) (fuel : nat)
         (s bef : jsstring),
    opensWith q r -> forallb (fun c => negb (q c)) s = true ->
    replaceLoopWith r f fuel bef s = Ok s.
Proof.
  intros q r f fuel. induction fuel as [|k IH]; intros s bef Hq Hs; [reflexivity|].
  cbn [replaceLoopWith]. unfold replaceStepWith.
  rewrite (opensWith_matchAt q r bef s Hq (forallb_head q s Hs)).
  destruct s as [|c tl]; [reflexivity|].
  cbn [forallb] in Hs. apply andb_true_iff in Hs.
  cbn [bind]. rewrite IH; [reflexivity | exact Hq | exact (proj2 Hs)].
Qed.

Lemma searchFrom_no_match :
  forall (q : Z -> bool) (r : regex) (s bef : jsstring),
    opensWith q r -> forallb (fun c => negb (q c)) s = true ->
    searchFrom r bef s = None.
Proof.
  intros q r s. induction s as [|c tl IH]; intros bef Hq Hs.
  - cbn [searchFrom]. rewrite (opensWith_matchAt q r bef [] Hq I). reflexivity.
  - cbn [searchFrom]. rewrite (opensWith_matchAt q r bef (c :: tl) Hq (forallb_head q _ Hs)).
    cbn [forallb] in Hs. apply andb_true_iff in Hs. apply IH; [exact Hq | exact (proj2 Hs)].
Qed.

Lemma includes_false :
  forall c s, includes c s = false -> forallb (fun x => negb (c =? x)) s = true.
Proof.
  intros c s. unfold includes. induction s as [|x tl IH]; [reflexivity|].
  cbn [existsb forallb]. intros H. apply orb_false_iff in H. destruct H as (Hx & Htl).
  rewrite Hx, (IH Htl). reflexivity.
Qed.

(** The side conditions [opensWith] leaves on a concrete pattern. *)
Ltac opens :=
  cbv -[Z.eqb Z.leb Z.add andb fold]; repeat split; intros c;
  unfold fold, isUpper, between;
  repeat match goal with |- context [if ?b then _ else _] => destruct b eqn:? end;
  lia.

Lemma decodeHTMLEntities_plain :
  forall text, includes AMP text = false -> decodeHTMLEntities text = text.
Proof.
  intros text H. apply includes_false in H.
  unfold decodeHTMLEntities, entities. cbn [fold_left fst snd].
  repeat (rewrite (replaceAll_no_match (Z.eqb AMP) _ _ text); [| opens | exact H]).
  reflexivity.
Qed.

(** ** White space at the ends, blank lines inside *)

Lemma dropWhile_head :
  forall (p : Z -> bool) s,
    match dropWhile p s with c :: _ => p c = false | [] => True end.
Proof.
  intros p s. induction s as [|c tl IH]; cbn [dropWhile]; [exact I|].
  destruct (p c) eqn:E; [exact IH | exact E].
Qed.

Lemma dropWhile_suffix :
  forall (p : Z -> bool) s, exists w, s = w ++ dropWhile p s.
Proof.
  intros p s. induction s as [|c tl IH]; cbn [dropWhile]; [exists []; reflexivity|].
  destruct (p c).
  - destruct IH as (w & Hw). exists (c :: w). cbn [app]. f_equal. exact Hw.
  - exists []. reflexivity.
Qed.

Lemma trimEnd_prefix : forall s, exists w, s = trimEnd s ++ w.
Proof.
  intros s. unfold trimEnd.
  destruct (dropWhile_suffix isWhiteSpace (rev s)) as (w & Hw).
  exists (rev w). rewrite <- rev_app_distr, <- Hw, rev_involutive. reflexivity.
Qed.

Lemma trim_trimmed : forall s, trimmed (trim s) = true.
Proof.
  intros s. unfold trim, trimStart.
  pose proof (dropWhile_head isWhiteSpace s) as Hhead.
  set (t := dropWhile isWhiteSpace s) in *. clearbody t.
  unfold trimEnd.
  pose proof (dropWhile_head isWhiteSpace (rev t)) as Hlast.
  destruct (dropWhile_suffix isWhiteSpace (rev t)) as (w & Hw).
  set (u := dropWhile isWhiteSpace (rev t)) in *. clearbody u.
  destruct u as [|x u']; [reflexivity|].
  assert (Ht : t = rev (x :: u') ++ rev w).
  { rewrite <- rev_app_distr, <- Hw, rev_involutive. reflexivity. }
  destruct (rev (x :: u')) as [|y v] eqn:Ev.
  - apply (f_equal (@length Z)) in Ev. rewrite length_rev in Ev. discriminate Ev.
  - unfold trimmed. rewrite Ht in Hhead. cbn [app] in Hhead. rewrite Hhead. cbn [negb andb].
    rewrite <- Ev. cbn [rev]. rewrite last_last. rewrite Hlast. reflexivity.
Qed.

Lemma noBlankRun_cons :
  forall a tl,
    noBlankRun (a :: tl) = (negb (a =? NL) || (leadNL tl <? 2)%nat) && noBlankRun tl.
Proof.
  intros a tl. cbn [noBlankRun].
  destruct tl as [|b [|c tl']]; cbn [leadNL].
  - cbn. rewrite orb_true_r. reflexivity.
  - destruct (b =? NL); cbn; rewrite orb_true_r; reflexivity.
  - destruct (a =? NL), (b =? NL), (c =? NL); reflexivity.
Qed.

Lemma noBlankRun_tail : forall a tl, noBlankRun (a :: tl) = true -> noBlankRun tl = true.
Proof.
  intros a tl H. rewrite noBlankRun_cons in H. apply andb_true_iff in H. exact (proj2 H).
Qed.

Lemma noBlankRun_dropWhile :
  forall p s, noBlankRun s = true -> noBlankRun (dropWhile p s) = true.
Proof.
  intros p s. induction s as [|c tl IH]; intros H; [reflexivity|].
  cbn [dropWhile]. destruct (p c); [apply IH; exact (noBlankRun_tail _ _ H) | exact H].
Qed.

Lemma leadNL_app : forall a b, (leadNL a <= leadNL (a ++ b))%nat.
Proof.
  induction a as [|c tl IH]; intros b; cbn [leadNL app]; [lia|].
  destruct (c =? NL); [specialize (IH b); lia | lia].
Qed.

Lemma noBlankRun_prefix : forall a b, noBlankRun (a ++ b) = true -> noBlankRun a = true.
Proof.
  induction a as [|c tl IH]; intros b H; [reflexivity|].
  cbn [app] in H. rewrite noBlankRun_cons in *. apply andb_true_iff in H.
  destruct H as (Hc & Htl). rewrite (IH b Htl), andb_true_r.
  destruct (c =? NL); cbn [negb orb] in *; [|reflexivity].
  apply Nat.ltb_lt in Hc. apply Nat.ltb_lt. pose proof (leadNL_app tl b). lia.
Qed.

Lemma noBlankRun_trim : forall s, noBlankRun s = true -> noBlankRun (trim s) = true.
Proof.
  intros s H. unfold trim, trimStart.
  apply (noBlankRun_dropWhile isWhiteSpace) in H.
  destruct (trimEnd_prefix (dropWhile isWhiteSpace s)) as (w & Hw).
  rewrite Hw in H. exact (noBlankRun_prefix _ _ H).
Qed.

Lemma capRuns_tidy :
  forall s k, (k <= 2)%nat ->
    noBlankRun (capRuns k s) = true /\ (leadNL (capRuns k s) + k <= 2)%nat.
Proof.
  induction s as [|c tl IH]; intros k Hk; [cbn; split; [reflexivity | lia]|].
  cbn [capRuns]. destruct (c =? NL) eqn:E.
  - destruct (k <? 2)%nat eqn:Ek.
    + apply Nat.ltb_lt in Ek. destruct (IH (S k) ltac:(lia)) as (Hn & Hl).
      rewrite noBlankRun_cons, Hn, E. cbn [negb orb leadNL]. rewrite E. split; [|lia].
      rewrite andb_true_r. apply Nat.ltb_lt. lia.
    + apply Nat.ltb_ge in Ek. exact (IH k Hk).
  - destruct (IH O ltac:(lia)) as (Hn & Hl).
    rewrite noBlankRun_cons, Hn, E. cbn [negb orb andb leadNL]. rewrite E. split; [reflexivity | lia].
Qed.

Lemma capRuns_start :
  forall k s,
    match s with c :: _ => (c =? NL) = false | [] => True end ->
    capRuns k s = capRuns O s.
Proof.
  intros k [|c tl] H; [reflexivity|]. cbn [capRuns]. rewrite H. reflexivity.
Qed.

Lemma capRuns_dropWhile :
  forall s, capRuns 2 s = capRuns O (dropWhile (Z.eqb NL) s).
Proof.
  induction s as [|c tl IH]; [reflexivity|].
  cbn [capRuns dropWhile]. rewrite (Z.eqb_sym NL c).
  destruct (c =? NL) eqn:E; cbn [Nat.ltb Nat.leb].
  - exact IH.
  - cbn [capRuns]. rewrite E. reflexivity.
Qed.

Lemma matchAt_reBlankLines :
  forall bef s,
    matchAt reBlankLines (mkState bef s []) =
    match s with
    | a :: b :: c :: tl =>
        if (a =? NL) && (b =? NL) && (c =? NL)
        then Some (mkState (fst (runEnd (Z.eqb NL) (c :: b :: a :: bef) tl))
                     (snd (runEnd (Z.eqb NL) (c :: b :: a :: bef) tl)) [])
        else None
    | _ => None
    end.
Proof.
  intros bef s. rewrite matchAt_state. unfold reBlankLines. cbn [seqOf]. unfold Is.
  change (matches (Seq (Chr (Z.eqb NL)) (Seq (Chr (Z.eqb NL)) (Plus true (Chr (Z.eqb NL)))))
            (mkState bef s []))
    with (flat_map (fun st => flat_map (matches (Plus true (Chr (Z.eqb NL))))
                                (matches (Chr (Z.eqb NL)) st))
            (matches (Chr (Z.eqb NL)) (mkState bef s []))).
  rewrite matches_Chr_state.
  destruct s as [|a s]; [reflexivity|]. rewrite (Z.eqb_sym NL a).
  destruct (a =? NL); cbn [andb flat_map]; [|destruct s as [|? [|? ?]]; reflexivity].
  rewrite app_nil_r, matches_Chr_state.
  destruct s as [|b s]; [reflexivity|]. rewrite (Z.eqb_sym NL b).
  destruct (b =? NL); cbn [andb flat_map]; [|destruct s; reflexivity].
  rewrite app_nil_r, matches_plus_chr.
  destruct s as [|c s]; [reflexivity|]. rewrite (Z.eqb_sym NL c).
  destruct (c =? NL); [apply head_chrStar | reflexivity].
Qed.

(** Replacing [/\n{3,}/g] by two line feeds cuts every run down to two. *)
Lemma replaceLoop_reBlankLines :
  forall fuel bef s,
    (length s < fuel)%nat ->
    replaceLoop reBlankLines (const [NL; NL]) fuel bef s = capRuns O s.
Proof.
  induction fuel as [|k IH]; intros bef s Hlen; [lia|].
  cbn [replaceLoop]. unfold replaceStep. rewrite matchAt_reBlankLines.
  destruct s as [|a s]; [reflexivity|]. cbn [length] in Hlen.
  assert (Hcopy : forall rest', (length rest' < k)%nat ->
            match rest' with
            | b :: c :: _ => (a =? NL) && (b =? NL) && (c =? NL) = false
            | _ => True
            end ->
            [a] ++ replaceLoop reBlankLines (const [NL; NL]) k (a :: bef) rest'
            = capRuns O (a :: rest')).
  { intros rest' Hl Hno. rewrite IH by exact Hl. cbn [capRuns app].
    destruct (a =? NL) eqn:Ea; [|reflexivity]. cbn [Nat.ltb Nat.leb]. f_equal.
    destruct rest' as [|b r2]; [reflexivity|]. cbn [capRuns].
    destruct (b =? NL) eqn:Eb; [|reflexivity]. cbn [Nat.ltb Nat.leb]. f_equal.
    destruct r2 as [|c r3]; [reflexivity|]. cbn [andb] in Hno.
    rewrite (capRuns_start 1), (capRuns_start 2) by exact Hno. reflexivity. }
  destruct s as [|b s]; [apply Hcopy; [cbn; lia | exact I]|].
  destruct s as [|c s]; [apply Hcopy; [cbn in *; lia | exact I]|].
  destruct ((a =? NL) && (b =? NL) && (c =? NL)) eqn:E.
  - cbn [rest before caps]. rewrite runEnd_rest.
    pose proof (dropWhile_length (Z.eqb NL) s) as Hd. cbn [length] in Hlen |- *.
    replace (length (dropWhile (Z.eqb NL) s) <? S (S (S (length s))))%nat with true
      by (symmetry; apply Nat.ltb_lt; lia).
    unfold const. rewrite IH by lia.
    apply andb_true_iff in E. destruct E as (E & Ec).
    apply andb_true_iff in E. destruct E as (Ea & Eb).
    cbn [capRuns app]. rewrite Ea, Eb, Ec. cbn [Nat.ltb Nat.leb].
    rewrite capRuns_dropWhile.
    apply Z.eqb_eq in Ea. apply Z.eqb_eq in Eb. subst a b. reflexivity.
  - apply Hcopy; [cbn in *; lia | exact E].
Qed.

Lemma cleanUp_tidy :
  forall markdown, trimmed (cleanUp markdown) = true /\ noBlankRun (cleanUp markdown) = true.
Proof.
  intros markdown. unfold cleanUp. split; [apply trim_trimmed|].
  apply noBlankRun_trim. unfold replaceAll. rewrite replaceLoop_reBlankLines by lia.
  apply capRuns_tidy. lia.
Qed.

(** X9.  Whatever the pattern converter returns neither begins nor ends with
    white space and never has three line feeds in a row. *)
Theorem server_conversion_is_tidy :
  forall (html : jsstring) (opts : HTMLToMarkdownOptions) (md : jsstring),
    serverSideConvert html opts = Ok md ->
    trimmed md = true /\ noBlankRun md = true.
Proof.
  intros html opts md H. unfold serverSideConvert in H.
  destruct (replaceAllWith _ _ _) as [m|e]; [|discriminate H].
  cbn [bind] in H. injection H as <-. apply cleanUp_tidy.
Qed.

Lemma server_conversion_is_tidy_witness :
  serverSideConvert (lit " <p>a</p><hr><hr><p>b</p> ") defaultOptions
  = Ok (lit "a" ++ [NL; NL] ++ lit "---" ++ [NL; NL] ++ lit "---" ++ [NL; NL] ++ lit "b") /\
  trimmed (lit "a" ++ [NL; NL] ++ lit "---" ++ [NL; NL] ++ lit "---" ++ [NL; NL] ++ lit "b") = true /\
  noBlankRun (lit "a" ++ [NL; NL] ++ lit "---" ++ [NL; NL] ++ lit "---" ++ [NL; NL] ++ lit "b") = true.
Proof.
  assert (H : serverSideConvert (lit " <p>a</p><hr><hr><p>b</p> ") defaultOptions
              = Ok (lit "a" ++ [NL; NL] ++ lit "---" ++ [NL; NL] ++ lit "---" ++ [NL; NL] ++ lit "b"))
    by (vm_compute; reflexivity).
  split; [exact H|].
  exact (server_conversion_is_tidy _ _ _ H).
Defined.

(** ** Plain text *)

Lemma cleanUp_plain :
  forall text,
    includes LT text = false -> includes AMP text = false ->
    cleanUp text = trim (capRuns O text).
Proof.
  intros text Hlt Hamp. apply includes_false in Hlt. unfold cleanUp.
  rewrite (replaceAll_no_match (Z.eqb LT) _ _ text); [| opens | exact Hlt].
  rewrite (replaceAll_no_match (Z.eqb LT) _ _ text); [| opens | exact Hlt].
  rewrite (decodeHTMLEntities_plain text Hamp).
  unfold replaceAll. rewrite replaceLoop_reBlankLines by lia. reflexivity.
Qed.

Lemma htmlToMarkdown_plain :
  forall (text : jsstring) (options : HTMLToMarkdownOptions),
    includes LT text = false -> includes AMP text = false ->
    htmlToMarkdown Server text options = Ok (trim (capRuns O text)).
Proof.
  intros text options Hlt Hamp. pose proof (includes_false _ _ Hlt) as H.
  unfold htmlToMarkdown, serverSideConvert.
  set (opts := mergeOptions defaultOptions options). clearbody opts.
  assert (H1 : stripBlocks opts text = text).
  { unfold stripBlocks. destruct (on (stripScripts opts)); [|reflexivity].
    repeat (rewrite (replaceAll_no_match (Z.eqb LT) _ _ text); [| opens | exact H]).
    reflexivity. }
  rewrite H1.
  assert (H2 : convertHeadings text = text).
  { unfold convertHeadings.
    repeat (rewrite (replaceAll_no_match (Z.eqb LT) _ _ text); [| opens | exact H]).
    reflexivity. }
  rewrite H2.
  assert (H3 : convertBoldItalic text = text).
  { unfold convertBoldItalic.
    repeat (rewrite (replaceAll_no_match (Z.eqb LT) _ _ text); [| opens | exact H]).
    reflexivity. }
  rewrite H3.
  assert (H4 : convertAnchors opts text = text).
  { unfold convertAnchors. destruct (on (convertLinks opts)); [|reflexivity].
    repeat (rewrite (replaceAll_no_match (Z.eqb LT) _ _ text); [| opens | exact H]).
    reflexivity. }
  rewrite H4.
  assert (H5 : convertImgs opts text = text).
  { unfold convertImgs. destruct (on (convertImages opts)); [|reflexivity].
    repeat (rewrite (replaceAll_no_match (Z.eqb LT) _ _ text); [| opens | exact H]).
    reflexivity. }
  rewrite H5.
  assert (H6 : convertLists text = text).
  { unfold convertLists.
    repeat (rewrite (replaceAll_no_match (Z.eqb LT) _ _ text); [| opens | exact H]).
    reflexivity. }
  rewrite H6.
  unfold replaceAllWith.
  rewrite (replaceLoopWith_no_match (Z.eqb LT)); [| opens | exact H]. cbn [bind].
  assert (H7 : convertCode text = text).
  { unfold convertCode.
    repeat (rewrite (replaceAll_no_match (Z.eqb LT) _ _ text); [| opens | exact H]).
    reflexivity. }
  rewrite H7.
  assert (H8 : convertParagraphs text = text).
  { unfold convertParagraphs.
    repeat (rewrite (replaceAll_no_match (Z.eqb LT) _ _ text); [| opens | exact H]).
    reflexivity. }
  rewrite H8, (cleanUp_plain text Hlt Hamp). reflexivity.
Qed.

(** X10.  A text with neither [<] nor [&] has nothing to convert: for every
    choice of options the pattern converter returns it with the runs of line
    feeds cut down to two and the white space at both ends removed, and
    nothing else changed. *)
Theorem plain_text_is_only_tidied :
  forall (text : jsstring) (options : HTMLToMarkdownOptions),
    includes LT text = false -> includes AMP text = false ->
    htmlToMarkdown Server text options = Ok (trim (capRuns O text)).
Proof. exact htmlToMarkdown_plain. Qed.

Lemma plain_text_is_only_tidied_witness :
  htmlToMarkdown Server (lit "  5 > 3" ++ [NL; NL; NL; NL] ++ lit "so it is. ") noOptions
  = Ok (lit "5 > 3" ++ [NL; NL] ++ lit "so it is.").
Proof.
  apply (plain_text_is_only_tidied (lit "  5 > 3" ++ [NL; NL; NL; NL] ++ lit "so it is. ") noOptions);
    reflexivity.
Defined.

(** ** What counts as HTML *)

Lemma searchFrom_later :
  forall (r : regex) (pre s1 bef : jsstring),
    matchAt r (mkState (rev pre ++ bef) s1 []) <> None ->
    searchFrom r bef (pre ++ s1) <> None.
Proof.
  intros r pre. induction pre as [|c pre IH]; intros s1 bef H.
  - cbn [app rev] in *. destruct s1 as [|x tl]; cbn [searchFrom];
      destruct (matchAt r _); try discriminate; exfalso; apply H; reflexivity.
  - cbn [app searchFrom]. destruct (matchAt r (mkState bef (c :: pre ++ s1) [])); [discriminate|].
    apply IH. cbn [rev] in H. rewrite <- app_assoc in H. exact H.
Qed.

Lemma chrStar_In :
  forall (p : Z -> bool) (w rest' bef : jsstring) (cs : captures),
    forallb p w = true ->
    In (mkState (rev w ++ bef) rest' cs) (chrStar p bef (w ++ rest') cs).
Proof.
  intros p w. induction w as [|c w IH]; intros rest' bef cs Hw.
  - cbn [app rev]. destruct rest' as [|x tl]; cbn [chrStar]; [left; reflexivity|].
    destruct (p x); [apply in_or_app; right|]; left; reflexivity.
  - cbn [forallb] in Hw. apply andb_true_iff in Hw. destruct Hw as (Hc & Hw).
    cbn [app chrStar rev]. rewrite Hc. apply in_or_app. left.
    rewrite <- app_assoc. exact (IH rest' (c :: bef) cs Hw).
Qed.

Lemma isHTML_includes :
  forall str, isHTML str = true ->
    exists pre c mid post,
      str = pre ++ [LT; c] ++ mid ++ [GT] ++ post /\ isLower (fold c) = true.
Proof.
  intros str H. unfold isHTML, test, search in H. cbn [start before rest] in H.
  destruct (searchFrom reHTML [] str) as [[st st']|] eqn:E; [|discriminate H]. clear H.
  apply searchFrom_found in E. destruct E as (_ & Hin & Hm). cbn [rev app] in Hin.
  unfold reHTML in Hm. cbn [seqOf] in Hm.
  apply in_matches_Seq in Hm. destruct Hm as (s1 & H1 & Hm).
  apply in_matches_Seq in Hm. destruct Hm as (s2 & H2 & Hm).
  apply in_matches_Seq in Hm. destruct Hm as (s3 & H3 & H4).
  apply in_matches_Chr in H1. destruct H1 as (c1 & r1 & Hr1 & Hc1 & ->).
  apply in_matches_Chr in H2. destruct H2 as (c2 & r2 & Hr2 & Hc2 & ->).
  apply matches_reaches in H3. destruct H3 as (w & Hw & _).
  apply in_matches_Chr in H4. destruct H4 as (c4 & r4 & Hr4 & Hc4 & _).
  cbn [rest] in *. apply Z.eqb_eq in Hc1, Hc4. subst c1 c4 r1 r2.
  exists (rev (before st)), c2, w, r4. split; [|exact Hc2].
  rewrite <- Hin, Hr1, Hr4. reflexivity.
Qed.

Lemma isHTML_found :
  forall pre c mid post,
    isLower (fold c) = true -> isHTML (pre ++ [LT; c] ++ mid ++ [GT] ++ post) = true.
Proof.
  intros pre c mid post Hc. unfold isHTML, test, search. cbn [start before rest].
  destruct (searchFrom reHTML [] (pre ++ [LT; c] ++ mid ++ [GT] ++ post)) eqn:E; [reflexivity|].
  exfalso. revert E. apply searchFrom_later.
  rewrite matchAt_state. unfold reHTML. cbn [seqOf]. unfold Is, DotAll.
  change (matches (Seq (Chr (Z.eqb LT)) (Seq (Chr (fun c0 => isLower (fold c0)))
                    (Seq (Star true (Chr (fun _ => true))) (Chr (Z.eqb GT))))) ?st)
    with (flat_map (fun st1 => flat_map (fun st2 =>
            flat_map (matches (Chr (Z.eqb GT))) (matches (Star true (Chr (fun _ => true))) st2))
            (matches (Chr (fun c0 => isLower (fold c0))) st1))
          (matches (Chr (Z.eqb LT)) st)).
  cbn [app]. rewrite matches_Chr_state. cbn [Z.eqb LT Pos.eqb flat_map].
  rewrite matches_Chr_state, Hc. cbn [flat_map]. rewrite !app_nil_r, matches_star_chr.
  pose proof (chrStar_In (fun _ => true) mid (GT :: post) (c :: LT :: rev pre) []
                ltac:(clear; induction mid; [reflexivity | assumption])) as Hin.
  destruct (flat_map _ _) as [|st l] eqn:Ef; [|discriminate].
  exfalso.
  assert (Hin' : In (mkState (GT :: rev mid ++ c :: LT :: rev pre) post [])
                   (flat_map (matches (Chr (Z.eqb GT)))
                      (chrStar (fun _ => true) (c :: LT :: rev pre) (mid ++ GT :: post) []))).
  { apply in_flat_map. eexists. split; [exact Hin|].
    rewrite matches_Chr_state. cbn. left. reflexivity. }
  rewrite Ef in Hin'. exact Hin'.
Qed.

(** X11.  [isHTML] holds exactly for the strings in which some [<] is
    directly followed by an ASCII letter and a [>] stands anywhere after that
    letter, line breaks in between included. *)
Theorem isHTML_iff_tag_like :
  forall str : jsstring,
    isHTML str = true <->
    exists pre c mid post,
      str = pre ++ [LT; c] ++ mid ++ [GT] ++ post /\ isLower (fold c) = true.
Proof.
  intros str. split.
  - apply isHTML_includes.
  - intros (pre & c & mid & post & -> & Hc). apply isHTML_found. exact Hc.
Qed.

(** ** The assembler of the copy hook and the assembler of the server *)

Lemma includes_app :
  forall c a b, includes c (a ++ b) = includes c a || includes c b.
Proof. intros c a b. unfold includes. apply existsb_app. Qed.





(** ** Headings read from Markdown *)

Lemma reaches_consumed_eq :
  forall st st' w, rest st = w ++ rest st' -> consumed st st' = w.
Proof.
  intros st st' w H. unfold consumed. rewrite H, length_app.
  replace (length w + length (rest st') - length (rest st'))%nat with (length w) by lia.
  rewrite firstn_app, firstn_all, Nat.sub_diag. cbn [firstn]. apply app_nil_r.
Qed.

Lemma matches_Upto_chr :
  forall (p : Z -> bool) (n : nat) (st st' : MatchState),
    In st' (matches (Upto n (Chr p)) st) ->
    exists w, rest st = w ++ rest st' /\ (length w <= n)%nat.
Proof.
  intros p n. induction n as [|k IH]; intros st st' H.
  - cbn in H. destruct H as [<-|[]]. exists []. split; [reflexivity | cbn; lia].
  - cbn [Upto] in H. cbn [matches] in H. apply in_app_or in H. destruct H as [H|[<-|[]]].
    + apply in_flat_map in H. destruct H as (s1 & H1 & H2).
      apply in_matches_Chr in H1. destruct H1 as (c & tl & Hr & _ & ->).
      apply IH in H2. destruct H2 as (w & Hw & Hl). cbn [rest] in Hw.
      exists (c :: w). split; [rewrite Hr, Hw; reflexivity | cbn; lia].
    + exists []. split; [reflexivity | cbn; lia].
Qed.

Lemma matches_Repeat_chr :
  forall (p : Z -> bool) (lo extra : nat) (st st' : MatchState),
    In st' (matches (Repeat lo extra (Chr p)) st) ->
    exists w, rest st = w ++ rest st' /\ (lo <= length w <= lo + extra)%nat.
Proof.
  intros p lo extra. induction lo as [|k IH]; intros st st' H.
  - cbn [Repeat] in H. apply matches_Upto_chr in H. destruct H as (w & Hw & Hl).
    exists w. split; [exact Hw | lia].
  - cbn [Repeat] in H. apply in_matches_Seq in H. destruct H as (s1 & H1 & H2).
    apply in_matches_Chr in H1. destruct H1 as (c & tl & Hr & _ & ->).
    apply IH in H2. destruct H2 as (w & Hw & Hl). cbn [rest] in Hw.
    exists (c :: w). split; [rewrite Hr, Hw; reflexivity | cbn; lia].
Qed.

(** Group 1 of the Markdown heading pattern holds one to six characters. *)
Lemma reMarkdownHeading_level :
  forall line cs,
    firstMatch reMarkdownHeading line = Some cs ->
    (1 <= length (cap 1 cs) <= 6)%nat.
Proof.
  intros line cs H. unfold firstMatch in H.
  destruct (search reMarkdownHeading (start line)) as [[st st']|] eqn:E; [|discriminate H].
  injection H as <-. unfold search in E. apply searchFrom_found in E.
  destruct E as (_ & _ & Hm). unfold reMarkdownHeading in Hm. cbn [seqOf] in Hm.
  apply in_matches_Seq in Hm. destruct Hm as (s1 & H1 & Hm).
  apply in_matches_Seq in Hm. destruct Hm as (s2 & H2 & Hm).
  cbn [matches] in H2. apply in_map_iff in H2. destruct H2 as (s2' & <- & H2).
  apply matches_Repeat_chr in H2. destruct H2 as (w & Hw & Hl).
  match type of Hm with
  | In _ (matches ?tail _) =>
      assert (G : ~ In 1%nat (groups tail)) by (vm_compute; intros [E|[]]; discriminate E)
  end.
  unfold cap. rewrite (matches_untouched 1 _ _ _ G Hm). cbn [withCaps caps].
  rewrite getcap_setcap_same, (reaches_consumed_eq _ _ _ Hw). lia.
Qed.

Lemma headingLines_well_formed :
  forall ls index h,
    In h (headingLines ls index) ->
    1 <= level h <= 6 /\ normal (id h) = true /\ id h <> [] /\ trimmed (text h) = true.
Proof.
  induction ls as [|line tl IH]; intros index h H; [destruct H|].
  cbn [headingLines] in H.
  destruct (firstMatch reMarkdownHeading line) as [cs|] eqn:E; [|exact (IH _ _ H)].
  destruct H as [<-|H]; [|exact (IH _ _ H)].
  cbn [level id text]. apply reMarkdownHeading_level in E.
  destruct (generateSlug_normal (trim (cap 2 cs)) index) as (Hn & Hne).
  split; [lia|]. split; [exact Hn|]. split; [exact Hne | apply trim_trimmed].
Qed.

(** X13.  Every heading [generateMarkdown] reports has a level from 1 to 6,
    a text without white space at its ends, and an id that is not empty and
    consists of lower-case letters, digits and single hyphens, none of them
    at either end. *)
Theorem document_headings_are_well_formed :
  forall (env : Env) (c : LLMContent) (out : MarkdownOutput) (h : TOCHeading),
    generateMarkdown env c = Ok out ->
    In h (headings out) ->
    1 <= level h <= 6 /\ normal (id h) = true /\ id h <> [] /\ trimmed (text h) = true.
Proof.
  intros env c out h H Hin. unfold generateMarkdown in H.
  destruct (allParts env c) as [parts|e]; [|discriminate H].
  cbn [bind] in H. injection H as <-. cbn [headings] in Hin.
  exact (headingLines_well_formed _ _ _ Hin).
Qed.

Lemma document_headings_are_well_formed_witness :
  exists out h,
    generateMarkdown Server samplePost = Ok out /\ In h (headings out) /\
    text h = lit "Hello" /\
    1 <= level h <= 6 /\ normal (id h) = true /\ id h <> [] /\ trimmed (text h) = true.
Proof.
  destruct (generateMarkdown Server samplePost) as [out|e] eqn:E;
    [|vm_compute in E; discriminate E].
  exists out, (mkHeading (lit "hello") (lit "Hello") 1 None).
  assert (Hin : In (mkHeading (lit "hello") (lit "Hello") 1 None) (headings out)).
  { vm_compute in E. injection E as <-. left. reflexivity. }
  split; [reflexivity|]. split; [exact Hin|]. split; [reflexivity|].
  exact (document_headings_are_well_formed Server samplePost out _ E Hin).
Defined.

(** X14.  The document [generateMarkdown] returns has no white space at
    either end, and the two numbers that go with it are computed from that
    document and from nothing else: the word count is its [countWords], and
    the reading time is the least number of minutes that covers the word
    count at 200 words per minute, whatever reading time the record
    carried. *)
Theorem document_metrics_are_consistent :
  forall (env : Env) (c : LLMContent) (out : MarkdownOutput),
    generateMarkdown env c = Ok out ->
    trimmed (markdown out) = true /\
    wordCount out = countWords (markdown out) /\
    (readingTime_ out - 1) * 200 < wordCount out <= readingTime_ out * 200.
Proof.
  intros env c out H. unfold generateMarkdown in H.
  destruct (allParts env c) as [parts|e]; [|discriminate H].
  cbn [bind] in H. injection H as <-. cbn [markdown wordCount readingTime_].
  split; [apply trim_trimmed|]. split; [reflexivity|].
  unfold calculateReadingTime, defaultWordsPerMinute. cbn zeta.
  rewrite Qceiling_quotient by lia.
  set (n := countWords (trim (join [NL] parts))).
  pose proof (Z.div_mod (- n) 200 ltac:(lia)) as Hd.
  pose proof (Z.mod_pos_bound (- n) 200 ltac:(lia)) as Hm.
  lia.
Qed.

Lemma document_metrics_are_consistent_witness :
  exists out,
    generateMarkdown Server samplePost = Ok out /\
    readingTime samplePost = Some 5 /\ readingTime_ out = 1 /\
    trimmed (markdown out) = true /\
    wordCount out = countWords (markdown out) /\
    (readingTime_ out - 1) * 200 < wordCount out <= readingTime_ out * 200.
Proof.
  destruct (generateMarkdown Server samplePost) as [out|e] eqn:E;
    [|vm_compute in E; discriminate E].
  exists out. split; [reflexivity|]. split; [reflexivity|].
  split; [vm_compute in E; injection E as <-; reflexivity|].
  exact (document_metrics_are_consistent Server samplePost out E).
Defined.

(** ** Headings read from HTML *)

Lemma altOf_In :
  forall (rs : list regex) (st st' : MatchState),
    rs <> [] -> In st' (matches (altOf rs) st) ->
    exists r, In r rs /\ In st' (matches r st).
Proof.
  induction rs as [|r rs IH]; intros st st' Hne H; [contradiction|].
  destruct rs as [|r2 rs].
  - exists r. split; [left; reflexivity | exact H].
  - change (altOf (r :: r2 :: rs)) with (Alt r (altOf (r2 :: rs))) in H.
    cbn [matches] in H. apply in_app_or in H. destruct H as [H|H].
    + exists r. split; [left; reflexivity | exact H].
    + destruct (IH st st' ltac:(discriminate) H) as (r' & Hin & Hm).
      exists r'. split; [right; exact Hin | exact Hm].
Qed.

(** A match of a level name reads a letter [h], in either case, and the
    level's digit. *)
Lemma matches_levelName :
  forall (l : HeadingLevel) (st st' : MatchState),
    In st' (matches (StrI (lit (levelName l))) st) ->
    exists x, rest st = [x; 48 + levelNumber l] ++ rest st'.
Proof.
  intros l st st' H.
  assert (Hs : StrI (lit (levelName l)) = Seq (IsI 104) (IsI (48 + levelNumber l)))
    by (destruct l; reflexivity).
  rewrite Hs in H. clear Hs.
  apply in_matches_Seq in H. destruct H as (s1 & H1 & H2).
  apply in_matches_Chr in H1. destruct H1 as (x & t1 & R1 & _ & ->).
  apply in_matches_Chr in H2. destruct H2 as (y & t2 & R2 & P2 & ->).
  cbn [rest] in *. subst t1. exists x. rewrite R1. cbn [app]. do 2 f_equal.
  apply Z.eqb_eq in P2. revert P2. unfold fold, isUpper, between.
  destruct l; cbn [levelNumber Z.add Pos.add Pos.succ];
    repeat match goal with |- context [if ?b then _ else _] => destruct b eqn:? end; lia.
Qed.

Lemma reHeading_level :
  forall levels st st',
    levels <> [] ->
    In st' (matches (reHeading levels) st) ->
    exists l x, In l levels /\ getcap 1 (caps st') = Some [x; 48 + levelNumber l].
Proof.
  intros levels st st' Hne H. unfold reHeading in H. cbn [seqOf] in H.
  apply in_matches_Seq in H. destruct H as (s1 & H1 & H).
  apply in_matches_Seq in H. destruct H as (s2 & H2 & H).
  cbn [matches] in H2. apply in_map_iff in H2. destruct H2 as (s2' & <- & H2).
  unfold levelPattern in H2. apply altOf_In in H2.
  2: { destruct levels; [contradiction | discriminate]. }
  destruct H2 as (r & Hr & H2). apply in_map_iff in Hr. destruct Hr as (l & <- & Hl).
  apply matches_levelName in H2. destruct H2 as (x & Hx).
  match type of H with
  | In _ (matches ?tail _) =>
      assert (G : ~ In 1%nat (groups tail))
        by (vm_compute; intros [E|[E|[]]]; discriminate E)
  end.
  exists l, x. split; [exact Hl|].
  rewrite (matches_untouched 1 _ _ _ G H). cbn [withCaps caps].
  rewrite getcap_setcap_same, (reaches_consumed_eq _ _ _ Hx). reflexivity.
Qed.

(** X15.  When at least one level is requested, every heading
    [extractHeadings] returns has the level of one of the requested tags (a
    number, never NaN), a text without white space at its ends, and an id
    that is not empty. *)
Theorem extracted_headings_have_requested_levels :
  forall (html : jsstring) (levels : list HeadingLevel) (h : HtmlHeading),
    levels <> [] ->
    In h (extractHeadings html levels) ->
    (exists l, In l levels /\ hlevel h = Some (levelNumber l)) /\
    trimmed (htext h) = true /\
    hid h <> [].
Proof.
  intros html levels h Hne Hin.
  apply In_nth_error in Hin. destruct Hin as (i & Hi).
  unfold extractHeadings in Hi.
  apply (execLoop_nth _ html) in Hi; [|reflexivity].
  destruct Hi as (st & st' & _ & _ & Hm & ->).
  destruct (reHeading_level levels st st' Hne Hm) as (l & x & Hl & Hcap).
  unfold headingOfMatch. cbn [hlevel htext hid]. split; [|split].
  - exists l. split; [exact Hl|]. unfold cap. rewrite Hcap. cbn [levelOf].
    destruct l; reflexivity.
  - apply trim_trimmed.
  - destruct (cap 2 (caps st')) as [|c tl]; cbn [orString]; [|discriminate].
    apply fallback_nonempty.
Qed.

Lemma extracted_headings_have_requested_levels_witness :
  exists h,
    In h (extractHeadings (lit "<H3 class='x'> <b>Setup</b> </H3>") defaultLevels) /\
    htext h = lit "Setup" /\
    (exists l, In l defaultLevels /\ hlevel h = Some (levelNumber l)) /\
    trimmed (htext h) = true /\
    hid h <> [].
Proof.
  exists (mkHtmlHeading (lit "heading-0") (lit "Setup") (Some 3)).
  assert (Hin : In (mkHtmlHeading (lit "heading-0") (lit "Setup") (Some 3))
                  (extractHeadings (lit "<H3 class='x'> <b>Setup</b> </H3>") defaultLevels))
    by (vm_compute; left; reflexivity).
  split; [exact Hin|]. split; [reflexivity|].
  refine (extracted_headings_have_requested_levels _ defaultLevels _ _ Hin). discriminate.
Defined.

(** Without a requested level the pattern's first group is empty and the
    level is NaN. *)
Example no_levels_no_number :
  extractHeadings (lit "<>x</>") [] = [mkHtmlHeading (lit "heading-0") (lit "x") None].
Proof. vm_compute. reflexivity. Qed.

(** ** When the slug is empty *)

Lemma isAlnum_slugChar : forall c, isAlnum c = true -> isSlugChar c = true.
Proof. intros c. unfold isAlnum, isSlugChar. destruct (isLower c), (isDigit c); cbn; congruence. Qed.

Lemma isAlnum_not_space : forall c, isAlnum c = true -> isWhiteSpace c = false.
Proof.
  intros c H. unfold isAlnum, isLower, isDigit, between in H. unfold isWhiteSpace, between. lia.
Qed.

Lemma isAlnum_not_hyphen : forall c, isAlnum c = true -> isHyphen c = false.
Proof.
  intros c H. unfold isAlnum, isLower, isDigit, between in H. unfold isHyphen, HYPHEN. lia.
Qed.

Lemma existsb_alnum_filter :
  forall s, existsb isAlnum (List.filter isSlugChar s) = existsb isAlnum s.
Proof.
  induction s as [|c tl IH]; [reflexivity|]. cbn [List.filter existsb].
  destruct (isSlugChar c) eqn:E; cbn [existsb]; rewrite IH; [reflexivity|].
  destruct (isAlnum c) eqn:Ea; [|reflexivity].
  rewrite (isAlnum_slugChar c Ea) in E. discriminate E.
Qed.

Lemma existsb_alnum_squash :
  forall (p : Z -> bool),
    (forall c, isAlnum c = true -> p c = false) ->
    forall s inRun, existsb isAlnum (squash p inRun s) = existsb isAlnum s.
Proof.
  intros p Hp. induction s as [|c tl IH]; intros inRun; [reflexivity|].
  cbn [squash existsb]. destruct (p c) eqn:E.
  - assert (Ea : isAlnum c = false).
    { destruct (isAlnum c) eqn:Ea; [|reflexivity]. rewrite (Hp c Ea) in E. discriminate E. }
    rewrite Ea. cbn [orb]. destruct inRun; cbn [existsb]; rewrite IH; reflexivity.
  - cbn [existsb]. rewrite IH. reflexivity.
Qed.

Lemma existsb_alnum_hyphens :
  forall s, forallb isHyphen s = true -> existsb isAlnum s = false.
Proof.
  induction s as [|c tl IH]; intros H; [reflexivity|].
  cbn [forallb existsb] in *. apply andb_true_iff in H. destruct H as (Hc & Htl).
  rewrite (IH Htl), orb_false_r.
  destruct (isAlnum c) eqn:Ea; [|reflexivity].
  rewrite (isAlnum_not_hyphen c Ea) in Hc. discriminate Hc.
Qed.

Lemma existsb_alnum_dropWhile :
  forall s, existsb isAlnum (dropWhile isHyphen s) = existsb isAlnum s.
Proof.
  induction s as [|c tl IH]; [reflexivity|]. cbn [dropWhile existsb].
  destruct (isHyphen c) eqn:E; [|reflexivity].
  rewrite IH. destruct (isAlnum c) eqn:Ea; [|reflexivity].
  rewrite (isAlnum_not_hyphen c Ea) in E. discriminate E.
Qed.

Lemma existsb_alnum_stripTrailing :
  forall s, existsb isAlnum (stripTrailing s) = existsb isAlnum s.
Proof.
  induction s as [|c tl IH]; [reflexivity|]. rewrite stripTrailing_cons.
  destruct (isHyphen c && forallb isHyphen tl) eqn:E.
  - symmetry. apply existsb_alnum_hyphens. exact E.
  - cbn [existsb]. rewrite IH. reflexivity.
Qed.

Lemma existsb_alnum_slugOf :
  forall text, existsb isAlnum (slugOf text) = existsb isAlnum (toLowerCase text).
Proof.
  intros text. rewrite slugOf_steps.
  rewrite existsb_alnum_stripTrailing, existsb_alnum_dropWhile.
  rewrite (existsb_alnum_squash isHyphen isAlnum_not_hyphen).
  rewrite (existsb_alnum_squash isWhiteSpace isAlnum_not_space).
  apply existsb_alnum_filter.
Qed.

Lemma slugOf_empty_iff :
  forall text, slugOf text = [] <-> existsb isAlnum (toLowerCase text) = false.
Proof.
  intros text. rewrite <- existsb_alnum_slugOf. split.
  - intros ->. reflexivity.
  - intros H. pose proof (slugOf_normal text) as Hn. apply normal_parts in Hn.
    destruct Hn as (Ha & _ & Hl & _).
    destruct (slugOf text) as [|c tl]; [reflexivity|]. exfalso.
    cbn [forallb] in Ha. apply andb_true_iff in Ha. destruct Ha as (Hc & _).
    cbn [noLead] in Hl. cbn [existsb] in H. apply orb_false_iff in H. destruct H as (Hn & _).
    unfold slugAlphabet in Hc. unfold isAlnum in Hn.
    destruct (isHyphen c); [discriminate Hl|]. rewrite orb_false_r in Hc. congruence.
Qed.

Lemma firstn_nil_iff : forall (n : nat) (s : jsstring), firstn (S n) s = [] <-> s = [].
Proof. intros n [|c tl]; cbn; split; intros H; try reflexivity; discriminate H. Qed.

(** X16.  Both id generators fall back on [heading-] and the index exactly
    when the lower-cased text has no ASCII letter and no digit.  For every
    other text the id does not depend on the index, so two headings with the
    same text receive the same id. *)
Theorem fallback_id_only_without_letters_and_digits :
  forall (text : jsstring) (index : nat),
    (existsb isAlnum (toLowerCase text) = false ->
       generateSlug text index = lit "heading-" ++ natToString index /\
       generateHeadingId text index = lit "heading-" ++ natToString index) /\
    (existsb isAlnum (toLowerCase text) = true ->
       forall other : nat,
         generateSlug text index = generateSlug text other /\
         generateHeadingId text index = generateHeadingId text other).
Proof.
  intros text index. unfold generateSlug, generateHeadingId, substring0. split.
  - intros H. apply slugOf_empty_iff in H. rewrite H. split; reflexivity.
  - intros H other.
    assert (Hne : slugOf text <> []).
    { intros E. apply slugOf_empty_iff in E. congruence. }
    destruct (slugOf text) as [|c tl]; [contradiction|]. split; reflexivity.
Qed.

Lemma fallback_id_only_without_letters_and_digits_witness :
  generateHeadingId [8212; 8212] 4 = lit "heading-4" /\
  generateHeadingId (lit "Setup") 4 = generateHeadingId (lit "Setup") 9.
Proof.
  split.
  - apply (proj1 (fallback_id_only_without_letters_and_digits [8212; 8212] 4)). reflexivity.
  - apply (proj2 (fallback_id_only_without_letters_and_digits (lit "Setup") 4)). reflexivity.
Defined.

(** ** File names *)

(** X17.  [sanitizeFilename] returns at most 100 characters, all of them
    lower-case letters, digits or hyphens (so no dot, slash or backslash),
    never two hyphens in a row and no hyphen in front; the result is empty
    exactly when the lower-cased name has no ASCII letter and no digit. *)
Theorem sanitized_filenames_are_safe :
  forall name : jsstring,
    forallb slugAlphabet (sanitizeFilename name) = true /\
    noLead (sanitizeFilename name) = true /\
    noRun (sanitizeFilename name) = true /\
    (length (sanitizeFilename name) <= 100)%nat /\
    (sanitizeFilename name = [] <-> existsb isAlnum (toLowerCase name) = false).
Proof.
  intros name. unfold sanitizeFilename, substring0.
  pose proof (slugOf_normal name) as Hn. apply normal_parts in Hn.
  destruct Hn as (Ha & Hr & Hl & _).
  split; [apply firstn_forallb; exact Ha|].
  split; [apply firstn_noLead; exact Hl|].
  split; [apply firstn_noRun; exact Hr|].
  split; [apply firstn_le_length|].
  rewrite firstn_nil_iff. apply slugOf_empty_iff.
Qed.

(** A file name made of punctuation only is not replaced by the default
    name: the download is called [.md]. *)
Example download_name_can_be_bare_extension :
  downloadName (downloadAsFile (lit "text") (mkDownloadOptions (Some (lit "???")) None None))
  = lit ".md" /\
  downloadName (downloadAsFile (lit "text") (mkDownloadOptions (Some []) None None))
  = lit "content.md".
Proof. split; vm_compute; reflexivity. Qed.

(** ** Tables *)

(** X18.  [convertTable] writes one line per row and puts the separator line
    directly under the first row, with that row's number of columns, whether
    or not the first row has header cells; header cells in later rows never
    get a separator.  A table without rows gives the empty string. *)
Theorem convertTable_separator_follows_first_row :
  forall table : Node,
    convertTable table =
    match querySelectorAll [lit "tr"] table with
    | [] => []
    | first :: others =>
        [NL] ++ rowLine first ++ separatorLine first ++
        concat (List.map rowLine others) ++ [NL]
    end.
Proof.
  intros table. unfold convertTable.
  destruct (querySelectorAll [lit "tr"] table) as [|first others]; [reflexivity|].
  cbn zeta.
  match goal with |- context [fold_left ?f _ _] => set (step := f) end.
  assert (Hrest : forall rows markdown index,
            fold_left step rows (markdown, true, index) =
            (markdown ++ concat (List.map rowLine rows), true, (index + length rows)%nat)).
  { induction rows as [|row rows IH]; intros markdown index.
    - cbn. rewrite app_nil_r, Nat.add_0_r. reflexivity.
    - cbn [fold_left]. unfold step at 2. cbn [negb andb].
      rewrite IH. cbn [List.map concat length].
      f_equal; [f_equal|lia]. unfold rowLine, cellsOf.
      rewrite <- !app_assoc. reflexivity. }
  cbn [fold_left]. unfold step at 2. cbn [negb andb Nat.eqb]. rewrite orb_true_r.
  rewrite Hrest. unfold rowLine, separatorLine, cellsOf.
  rewrite <- !app_assoc. reflexivity.
Qed.

(** Header cells in the second row only: the separator still follows the
    first row. *)
Example table_with_late_header :
  convertTable
    (Element (lit "table") []
       [ Element (lit "tr") [] [ Element (lit "td") [] [TextNode (lit "a")] ];
         Element (lit "tr") [] [ Element (lit "th") [] [TextNode (lit "b")] ] ])
  = [NL] ++ lit "| a |" ++ [NL] ++ lit "| --- |" ++ [NL] ++ lit "| b |" ++ [NL; NL].
Proof. vm_compute. reflexivity. Qed.

(** ** Keyboard navigation *)

Lemma findIndex_range :
  forall (A : Type) (p : A -> bool) (l : list A) (i : Z),
    findIndex p l i = -1 \/ i <= findIndex p l i < i + Z.of_nat (length l).
Proof.
  intros A p l. induction l as [|x tl IH]; intros i; [left; reflexivity|].
  cbn [findIndex length]. destruct (p x); [right; lia|].
  destruct (IH (i + 1)) as [H|H]; [left; exact H | right; lia].
Qed.

Lemma findIndex_none :
  forall (A : Type) (p : A -> bool) (l : list A) (i : Z),
    forallb (fun x => negb (p x)) l = true -> findIndex p l i = -1.
Proof.
  intros A p l. induction l as [|x tl IH]; intros i H; [reflexivity|].
  cbn [forallb] in H. apply andb_true_iff in H. destruct H as (Hx & Htl).
  cbn [findIndex]. apply negb_true_iff in Hx. rewrite Hx. apply IH. exact Htl.
Qed.

Lemma idAt_in_range :
  forall headings i,
    0 <= i < Z.of_nat (length headings) ->
    exists h, nth_error headings (Z.to_nat i) = Some h /\ idAt headings i = Ok (id h).
Proof.
  intros headings i Hi. unfold idAt.
  replace (i <? 0) with false by (symmetry; apply Z.ltb_ge; lia).
  destruct (nth_error headings (Z.to_nat i)) as [h|] eqn:E.
  - exists h. split; reflexivity.
  - apply nth_error_None in E. lia.
Qed.

(** X19.  The keyboard listener of the table of contents never reads outside
    the list: whatever the key and the active id, it ends normally, and the
    id it scrolls to, if any, is the id of one of the headings.  When the
    active id is null or belongs to no heading, Alt+ArrowDown and Alt+ArrowUp
    both go to the first heading. *)
Theorem keyboard_navigation_stays_in_range :
  forall (headings : list TOCHeading) (activeId : option jsstring) (e : KeyboardEvent),
    (exists r, handleKeyDown headings activeId e = Ok r /\
               forall target, r = Some target -> exists h, In h headings /\ id h = target) /\
    (forall first others,
       headings = first :: others ->
       forallb (fun h => negb (isActive activeId h)) headings = true ->
       altKey e = true ->
       key e = lit "ArrowDown" \/ key e = lit "ArrowUp" ->
       handleKeyDown headings activeId e = Ok (Some (id first))).
Proof.
  intros headings activeId e. split.
  - unfold handleKeyDown. destruct headings as [|h0 hs] eqn:Eh; [exists None; split; [reflexivity | discriminate]|].
    rewrite <- Eh.
    assert (Hlen : 0 < Z.of_nat (length headings)) by (rewrite Eh; cbn [length]; lia).
    pose proof (findIndex_range _ (isActive activeId) headings 0) as Hr.
    set (currentIndex := findIndex (isActive activeId) headings 0) in *. clearbody currentIndex.
    assert (Hgo : forall i, 0 <= i < Z.of_nat (length headings) ->
              exists r, (let* target := idAt headings i in Ok (Some target)) = Ok r /\
                        forall target, r = Some target ->
                          exists h, In h headings /\ id h = target).
    { intros i Hi. destruct (idAt_in_range headings i Hi) as (h & Hn & ->).
      cbn [bind]. eexists. split; [reflexivity|].
      intros target Ht. injection Ht as <-. exists h. split; [|reflexivity].
      exact (nth_error_In _ _ Hn). }
    destruct (eqString (key e) (lit "ArrowDown") && altKey e); [apply Hgo; lia|].
    destruct (eqString (key e) (lit "ArrowUp") && altKey e); [apply Hgo; lia|].
    exists None. split; [reflexivity | discriminate].
  - intros first others Eh Hnone Halt Hkey. subst headings. unfold handleKeyDown.
    rewrite (findIndex_none _ _ _ 0 Hnone), Halt.
    destruct Hkey as [-> | ->].
    + replace (eqString (lit "ArrowDown") (lit "ArrowDown")) with true by reflexivity.
      cbn [andb]. cbn zeta.
      replace (Z.min (-1 + 1) (Z.of_nat (length (first :: others)) - 1)) with 0
        by (cbn [length]; lia).
      reflexivity.
    + replace (eqString (lit "ArrowUp") (lit "ArrowDown")) with false by reflexivity.
      replace (eqString (lit "ArrowUp") (lit "ArrowUp")) with true by reflexivity.
      cbn [andb]. cbn zeta.
      replace (Z.max (-1 - 1) 0) with 0 by lia.
      reflexivity.
Qed.

Lemma keyboard_navigation_stays_in_range_witness :
  handleKeyDown
    [mkHeading (lit "a") (lit "A") 2 None; mkHeading (lit "b") (lit "B") 2 None]
    None (mkKeyboardEvent (lit "ArrowUp") true)
  = Ok (Some (lit "a")).
Proof.
  refine (proj2 (keyboard_navigation_stays_in_range
                   [mkHeading (lit "a") (lit "A") 2 None; mkHeading (lit "b") (lit "B") 2 None]
                   None (mkKeyboardEvent (lit "ArrowUp") true))
            _ _ eq_refl eq_refl eq_refl _).
  right. reflexivity.
Defined.

(** ** The Markdown middleware and route handler *)

(** X20.  On the server the conversion cannot fail, so the answer of the
    route handler is decided by the lookup alone: 404 exactly when it returns
    null, 200 exactly when it returns a record, and 500 exactly when the
    lookup itself throws. *)
Theorem server_handler_status_follows_lookup :
  forall (options : MarkdownHandlerOptions) (slugParam : option jsstring),
    let slug := match slugParam with Some s => s | None => [] end in
    let response := createMarkdownHandler Server options slugParam in
    (status response = 404 <-> getContent options slug = Ok None) /\
    (status response = 200 <-> exists c, getContent options slug = Ok (Some c)) /\
    (status response = 500 <-> exists e, getContent options slug = Throw e).
Proof.
  intros options slugParam slug response. subst response.
  unfold createMarkdownHandler, markdownHandlerTry. fold slug.
  destruct (getContent options slug) as [[c|]|e]; cbn [bind].
  - unfold generateMarkdownString.
    destruct (generateMarkdown_server_total c) as (out & ->). cbn [bind status].
    split; [split; discriminate|].
    split; [split; [intros _; exists c; reflexivity | reflexivity]|].
    split; [discriminate | intros (e & He); discriminate He].
  - cbn [status]. split; [split; reflexivity|].
    split; [split; [discriminate | intros (c & Hc); discriminate Hc]|].
    split; [discriminate | intros (e & He); discriminate He].
  - cbn [status]. split; [split; discriminate|].
    split; [split; [discriminate | intros (c & Hc); discriminate Hc]|].
    split; [intros _; exists e; reflexivity | reflexivity].
Qed.



(** ** The nested table of contents *)

Lemma LayAll_weaken :
  forall st lo hi cs kids,
    LayAll st lo hi cs kids ->
    forall lo' hi', (lo' <= lo)%nat -> (hi <= hi')%nat -> LayAll st lo' hi' cs kids.
Proof.
  intros st.
  apply (LayAll_min st
           (fun lo hi a t => forall lo' hi', (lo' <= lo)%nat -> (hi <= hi')%nat ->
                                             Lay st lo' hi' a t)
           (fun lo hi cs kids => forall lo' hi', (lo' <= lo)%nat -> (hi <= hi')%nat ->
                                                 LayAll st lo' hi' cs kids)).
  - intros lo hi a it cs kids Ha Hit Hcs _ IH lo' hi' Hlo Hhi.
    apply Lay_node with cs; [lia | exact Hit | exact Hcs | apply IH; lia].
  - intros lo hi lo' hi' _ _. constructor.
  - intros lo hi a t cs kids _ IHt _ IHk lo' hi' Hlo Hhi.
    constructor; [apply IHt | apply IHk]; assumption.
Qed.

Lemma Lay_weaken :
  forall st lo hi a t,
    Lay st lo hi a t ->
    forall lo' hi', (lo' <= lo)%nat -> (hi <= hi')%nat -> Lay st lo' hi' a t.
Proof.
  intros st lo hi a t H lo' hi' Hlo Hhi.
  inversion H as [lo0 hi0 a0 it cs kids Ha Hit Hcs Hkids]; subst.
  apply Lay_node with cs; [lia | exact Hit | exact Hcs |].
  apply (LayAll_weaken _ _ _ _ _ Hkids); lia.
Qed.

Lemma LayAll_agree :
  forall st lo hi cs kids,
    LayAll st lo hi cs kids ->
    forall st', (forall x, (lo <= x < hi)%nat -> st' !! x = st !! x) ->
                LayAll st' lo hi cs kids.
Proof.
  intros st.
  apply (LayAll_min st
           (fun lo hi a t => forall st', (forall x, (lo <= x < hi)%nat -> st' !! x = st !! x) ->
                                         Lay st' lo hi a t)
           (fun lo hi cs kids => forall st', (forall x, (lo <= x < hi)%nat -> st' !! x = st !! x) ->
                                             LayAll st' lo hi cs kids)).
  - intros lo hi a it cs kids Ha Hit Hcs _ IH st' Hag.
    apply Lay_node with cs; [exact Ha | rewrite Hag by lia; exact Hit | exact Hcs |].
    apply IH. intros x Hx. apply Hag. lia.
  - intros lo hi st' _. constructor.
  - intros lo hi a t cs kids _ IHt _ IHk st' Hag.
    constructor; [apply IHt | apply IHk]; assumption.
Qed.

Lemma LayAll_app :
  forall st lo hi cs1 kids1 cs2 kids2,
    LayAll st lo hi cs1 kids1 -> LayAll st lo hi cs2 kids2 ->
    LayAll st lo hi (cs1 ++ cs2) (kids1 ++ kids2).
Proof.
  intros st lo hi cs1 kids1 cs2 kids2 H1 H2.
  induction H1 as [|lo hi a t cs kids Ht Hk IH]; [exact H2|].
  cbn [app]. constructor; [exact Ht | apply IH; exact H2].
Qed.

(** Reading the store at the addresses of a laid-out forest gives the
    forest. *)
Lemma LayAll_reify :
  forall st lo hi cs kids,
    LayAll st lo hi cs kids ->
    forall fuel, (hi - lo <= fuel)%nat -> omap (reify fuel st) cs = kids.
Proof.
  intros st.
  apply (LayAll_min st
           (fun lo hi a t => forall fuel, (hi - a <= fuel)%nat -> reify fuel st a = Some t)
           (fun lo hi cs kids => forall fuel, (hi - lo <= fuel)%nat ->
                                              omap (reify fuel st) cs = kids)).
  - intros lo hi a it cs kids Ha Hit Hcs _ IH fuel Hfuel.
    destruct fuel as [|k]; [lia|]. cbn [reify]. rewrite Hit, Hcs.
    rewrite IH by lia. reflexivity.
  - intros lo hi fuel _. reflexivity.
  - intros lo hi a t cs kids Ht IHt _ IHk fuel Hfuel.
    assert (Ha : (lo <= a)%nat) by (inversion Ht; lia).
    change (omap (reify fuel st) (a :: cs))
      with (match reify fuel st a with
            | Some y => y :: omap (reify fuel st) cs
            | None => omap (reify fuel st) cs
            end).
    rewrite IHt by lia. rewrite IHk by exact Hfuel. reflexivity.
Qed.

Lemma Spine_agree :
  forall st res done hi above frames,
    Spine st res done hi above frames ->
    forall st', (forall x, (x < hi)%nat -> st' !! x = st !! x) ->
                Spine st' res done hi above frames.
Proof.
  intros st res done hi above frames H.
  induction H as [hi above rs Hres Hlay | hi above f below cs Hf Hkids Hlt Hbelow IH];
    intros st' Hag.
  - apply Spine_root with rs; [exact Hres|].
    apply (LayAll_agree _ _ _ _ _ Hlay). intros x Hx. apply Hag. lia.
  - apply Spine_frame with cs; [rewrite Hag by lia; exact Hf| |exact Hlt|].
    + apply (LayAll_agree _ _ _ _ _ Hkids). intros x Hx. apply Hag. lia.
    + apply IH. intros x Hx. apply Hag. lia.
Qed.

Lemma Lay_item :
  forall st lo hi a i t l cs kids,
    (lo <= a < hi)%nat ->
    st !! a = Some (mkItem i t l (Some cs)) ->
    LayAll st (S a) hi cs kids ->
    Lay st lo hi a (mkHeading i t l (Some kids)).
Proof.
  intros st lo hi a i t l cs kids Ha Hit Hkids.
  exact (Lay_node st lo hi a (mkItem i t l (Some cs)) cs kids Ha Hit eq_refl Hkids).
Qed.

(** Closing the stack: the store holds the roots that are complete followed
    by the tree of the stack. *)
Lemma Spine_close :
  forall st res done hi above frames,
    Spine st res done hi above frames ->
    forall hi' inner,
      (hi <= hi')%nat ->
      LayAll st hi hi' above inner ->
      LayAll st 0 hi' res (done ++ closeAll frames inner).
Proof.
  intros st res done hi above frames H.
  induction H as [hi above rs Hres Hlay | hi above f below cs Hf Hkids Hlt Hbelow IH];
    intros hi' inner Hhi Hinner.
  - cbn [closeAll]. rewrite Hres. apply LayAll_app.
    + apply (LayAll_weaken _ _ _ _ _ Hlay); lia.
    + apply (LayAll_weaken _ _ _ _ _ Hinner); lia.
  - cbn [closeAll]. apply IH; [lia|].
    constructor; [|constructor].
    apply (Lay_item st (frameAddr f) hi' (frameAddr f) _ _ _ (cs ++ above));
      [lia | exact Hf |].
    apply LayAll_app.
    + apply (LayAll_weaken _ _ _ _ _ Hkids); lia.
    + apply (LayAll_weaken _ _ _ _ _ Hinner); lia.
Qed.

(** The entry on top of the stack is complete: it goes to the children of
    the entry under it, or to the roots. *)
Lemma Spine_absorb :
  forall st res done n f below cs,
    st !! frameAddr f
    = Some (mkItem (id (frameHead f)) (text (frameHead f)) (level (frameHead f)) (Some cs)) ->
    LayAll st (S (frameAddr f)) n cs (frameKids f) ->
    (frameAddr f < n)%nat ->
    Spine st res done (frameAddr f) [frameAddr f] below ->
    exists done' below',
      Spine st res done' n [] below' /\
      List.map frameKey below' = List.map frameKey below /\
      done' ++ closeAll below' [] = done ++ closeAll below [closeFrame f []] /\
      match below' with
      | [] => exists pre, done' = pre ++ [closeFrame f []]
      | g :: _ => exists pre, frameKids g = pre ++ [closeFrame f []]
      end.
Proof.
  intros st res done n f below cs Hf Hkids Hlt Hbelow.
  assert (Htree : Lay st (frameAddr f) n (frameAddr f) (closeFrame f [])).
  { apply (Lay_item st (frameAddr f) n (frameAddr f) _ _ _ cs); [lia | exact Hf |].
    rewrite app_nil_r. exact Hkids. }
  inversion Hbelow as [hi above rs Hres Hlay | hi above g rest cs' Hg Hgk Hglt Hrest]; subst.
  - exists (done ++ [closeFrame f []]), []. split; [|split; [reflexivity|split]].
    + apply Spine_root with (rs ++ [frameAddr f]); [rewrite app_nil_r; reflexivity|].
      apply LayAll_app.
      * apply (LayAll_weaken _ _ _ _ _ Hlay); lia.
      * constructor; [|constructor]. apply (Lay_weaken _ _ _ _ _ Htree); lia.
    + cbn [closeAll]. rewrite app_nil_r. reflexivity.
    + exists done. reflexivity.
  - exists done, (mkFrame (frameAddr g) (frameHead g) (frameKids g ++ [closeFrame f []]) :: rest).
    split; [|split; [reflexivity|split]].
    + apply Spine_frame with (cs' ++ [frameAddr f]); cbn [frameAddr frameHead frameKids].
      * rewrite app_nil_r. exact Hg.
      * apply LayAll_app.
        -- apply (LayAll_weaken _ _ _ _ _ Hgk); lia.
        -- constructor; [|constructor]. apply (Lay_weaken _ _ _ _ _ Htree); lia.
      * lia.
      * exact Hrest.
    + cbn [closeAll]. unfold closeFrame at 1. cbn [frameAddr frameHead frameKids].
      rewrite app_nil_r. reflexivity.
    + exists (frameKids g). reflexivity.
Qed.

(** *** Document order and nesting of the forest the stack stands for *)

Lemma preorder_closeFrame :
  forall f inner t,
    preorder (closeFrame f (inner ++ [t])) = preorder (closeFrame f inner) ++ preorder t.
Proof.
  intros f inner t. unfold closeFrame. cbn [preorder].
  rewrite !flat_map_app. cbn [flat_map]. rewrite app_nil_r, !app_assoc. reflexivity.
Qed.

Lemma preorder_closeAll :
  forall frames t t' x,
    preorder t' = preorder t ++ x ->
    flat_map preorder (closeAll frames [t']) = flat_map preorder (closeAll frames [t]) ++ x.
Proof.
  induction frames as [|g below IH]; intros t t' x H.
  - cbn [closeAll flat_map]. rewrite !app_nil_r. exact H.
  - cbn [closeAll]. apply IH.
    pose proof (preorder_closeFrame g [] t') as E1.
    pose proof (preorder_closeFrame g [] t) as E2.
    cbn [app] in E1, E2. rewrite E1, E2, H, app_assoc. reflexivity.
Qed.

Lemma preorder_push :
  forall done frames t,
    flat_map preorder (done ++ closeAll frames [t]) =
    flat_map preorder (done ++ closeAll frames []) ++ preorder t.
Proof.
  intros done frames t. rewrite !flat_map_app, <- app_assoc. f_equal.
  destruct frames as [|f below].
  - cbn [closeAll flat_map app]. apply app_nil_r.
  - cbn [closeAll]. apply preorder_closeAll. apply (preorder_closeFrame f [] t).
Qed.

Lemma nonIncreasing_cons :
  forall a l,
    nonIncreasing (a :: l) =
    match l with b :: _ => (b <=? a) && nonIncreasing l | [] => true end.
Proof. reflexivity. Qed.

Lemma nonIncreasing_snoc :
  forall l y,
    nonIncreasing l = true ->
    (forall pre x, l = pre ++ [x] -> y <= x) ->
    nonIncreasing (l ++ [y]) = true.
Proof.
  induction l as [|a l IH]; intros y Hl Hlast; [reflexivity|].
  cbn [app]. rewrite nonIncreasing_cons. rewrite nonIncreasing_cons in Hl.
  destruct l as [|b l'].
  - cbn [app]. rewrite andb_true_r. apply Z.leb_le. apply (Hlast [] a). reflexivity.
  - apply andb_true_iff in Hl. destruct Hl as (Hba & Hl).
    cbn [app]. rewrite Hba. cbn [andb].
    apply (IH y Hl). intros pre x E. apply (Hlast (a :: pre) x). rewrite E. reflexivity.
Qed.

Lemma endsFrom_levels :
  forall lvl (l : list TOCHeading),
    endsFrom lvl l -> forall pre x, List.map level l = pre ++ [x] -> lvl <= x.
Proof.
  intros lvl l H pre x E.
  destruct (rev l) as [|t r] eqn:Er.
  - apply (f_equal (@rev _)) in Er. rewrite rev_involutive in Er. subst l.
    destruct pre; discriminate E.
  - apply (f_equal (@rev _)) in Er. rewrite rev_involutive in Er. cbn [rev] in Er. subst l.
    rewrite List.map_app in E. cbn [List.map] in E.
    apply app_inj_tail in E. destruct E as (_ & <-).
    apply (H (rev r) t). reflexivity.
Qed.

Lemma nested_leaf : forall h, nested (leaf h) = true.
Proof. reflexivity. Qed.

Lemma nested_closeFrame_swap :
  forall g t t',
    level t' = level t -> (nested t = true -> nested t' = true) ->
    nested (closeFrame g [t]) = true -> nested (closeFrame g [t']) = true.
Proof.
  intros g t t' Hlvl Hn H. unfold closeFrame in *. cbn [nested] in *.
  rewrite forallb_app, List.map_app in *. cbn [forallb List.map] in *.
  rewrite Hlvl. apply andb_true_iff in H. destruct H as (H1 & H2).
  apply andb_true_iff in H1. destruct H1 as (Hk & Ht).
  rewrite andb_true_r in Ht. apply andb_true_iff in Ht. destruct Ht as (Hlt & Hnt).
  rewrite Hk, Hlt, (Hn Hnt), H2. reflexivity.
Qed.

Lemma nested_closeAll :
  forall frames done t t',
    level t' = level t -> (nested t = true -> nested t' = true) ->
    nestedForest (done ++ closeAll frames [t]) = true ->
    nestedForest (done ++ closeAll frames [t']) = true.
Proof.
  induction frames as [|g below IH]; intros done t t' Hlvl Hn H.
  - cbn [closeAll] in *. unfold nestedForest in *.
    rewrite forallb_app, List.map_app in *. cbn [forallb List.map] in *.
    rewrite Hlvl. apply andb_true_iff in H. destruct H as (H1 & H2).
    apply andb_true_iff in H1. destruct H1 as (Hd & Ht).
    rewrite andb_true_r in Ht. rewrite Hd, (Hn Ht), H2. reflexivity.
  - cbn [closeAll] in *. revert H. apply IH; [reflexivity|].
    apply nested_closeFrame_swap; assumption.
Qed.

Lemma nested_push :
  forall done frames h,
    match frames with
    | [] => endsFrom (level h) done
    | f :: _ => endsFrom (level h) (frameKids f) /\ level (frameHead f) < level h
    end ->
    nestedForest (done ++ closeAll frames []) = true ->
    nestedForest (done ++ closeAll frames [leaf h]) = true.
Proof.
  intros done frames h Hj H. destruct frames as [|f below].
  - cbn [closeAll] in *. rewrite app_nil_r in H. unfold nestedForest in *.
    apply andb_true_iff in H. destruct H as (Hd & Hl).
    rewrite forallb_app, List.map_app. cbn [forallb List.map]. rewrite Hd. cbn [andb].
    apply nonIncreasing_snoc; [exact Hl|].
    apply (endsFrom_levels _ _ Hj).
  - destruct Hj as (Hends & Hlt). cbn [closeAll] in *. revert H.
    apply nested_closeAll; [reflexivity|].
    unfold closeFrame. cbn [nested]. rewrite !app_nil_r.
    intros H. apply andb_true_iff in H. destruct H as (Hk & Hl).
    rewrite forallb_app, List.map_app. cbn [forallb List.map].
    rewrite Hk. apply Z.ltb_lt in Hlt. cbn [leaf level] in *. rewrite Hlt. cbn [andb].
    apply nonIncreasing_snoc; [exact Hl|].
    apply (endsFrom_levels _ _ Hends).
Qed.

(** *** The loop *)

Lemma endsFrom_snoc :
  forall lvl pre (t : TOCHeading), lvl <= level t -> endsFrom lvl (pre ++ [t]).
Proof.
  intros lvl pre t H pre' t' E. apply app_inj_tail in E. destruct E as (_ & <-). exact H.
Qed.

(** The [while] loop: the entries it pops are complete and move to the
    children of the entry they hang from; the forest stays the same. *)
Lemma popWhile_spine :
  forall (k : nat) (frames : list Frame) st res done n lvl,
    length frames = k ->
    Spine st res done n [] frames ->
    match frames with
    | [] => endsFrom lvl done
    | f :: _ => endsFrom lvl (frameKids f)
    end ->
    exists done' frames',
      popWhile lvl (List.map frameKey frames) = List.map frameKey frames' /\
      Spine st res done' n [] frames' /\
      done' ++ closeAll frames' [] = done ++ closeAll frames [] /\
      match frames' with
      | [] => endsFrom lvl done'
      | f :: _ => endsFrom lvl (frameKids f) /\ level (frameHead f) < lvl
      end.
Proof.
  induction k as [|k IH]; intros frames st res done n lvl Hlen Hspine Hj.
  - destruct frames; [|discriminate Hlen].
    exists done, []. repeat split; [exact Hspine | exact Hj].
  - destruct frames as [|f below]; [discriminate Hlen|].
    change (List.map frameKey (f :: below))
      with ((frameAddr f, level (frameHead f)) :: List.map frameKey below).
    cbn [popWhile].
    destruct (lvl <=? level (frameHead f)) eqn:E.
    + apply Z.leb_le in E.
      inversion Hspine as [|hi above f0 below0 cs Hf Hkids Hlt Hbelow]; subst.
      rewrite app_nil_r in Hf.
      destruct (Spine_absorb _ _ _ _ _ _ _ Hf Hkids Hlt Hbelow)
        as (done1 & below1 & Hs1 & Hkeys & Hforest & Hlast).
      assert (Hlen1 : length below1 = k).
      { apply (f_equal (@length _)) in Hkeys. rewrite !length_map in Hkeys.
        cbn [length] in Hlen. lia. }
      assert (Hj1 : match below1 with
                    | [] => endsFrom lvl done1
                    | g :: _ => endsFrom lvl (frameKids g)
                    end).
      { destruct below1 as [|g rest]; destruct Hlast as (pre & ->);
          apply endsFrom_snoc; exact E. }
      destruct (IH below1 st res done1 n lvl Hlen1 Hs1 Hj1)
        as (done' & frames' & Hpop & Hs' & Hf' & Hj').
      exists done', frames'. rewrite <- Hkeys. split; [exact Hpop|].
      split; [exact Hs'|]. split; [|exact Hj'].
      rewrite Hf', Hforest. reflexivity.
    + apply Z.leb_gt in E. exists done, (f :: below).
      split; [reflexivity|]. split; [exact Hspine|]. split; [reflexivity|].
      split; [exact Hj | exact E].
Qed.

Lemma store_after_push :
  forall (st : list Item) (new : Item) (p x : nat),
    (x < length st)%nat -> p <> x ->
    alter (pushChild (length st)) p (st ++ [new]) !! x = st !! x.
Proof.
  intros st new p x Hx Hp. rewrite list_lookup_alter_ne by exact Hp.
  apply lookup_app_l. exact Hx.
Qed.

(** One round of the loop adds the heading to the forest as a leaf, last in
    document order, and keeps the forest nested. *)
Lemma addHeading_represents :
  forall b forest h,
    Represents b forest ->
    exists forest',
      Represents (addHeading b h) forest' /\
      flat_map preorder forest' = flat_map preorder forest ++ [entry h] /\
      (nestedForest forest = true -> nestedForest forest' = true).
Proof.
  intros b forest h (done & frames & Hstack & Hspine & Hbound & ->).
  assert (Hj : match frames with
               | [] => endsFrom (level h) done
               | f :: _ => endsFrom (level h) (frameKids f)
               end).
  { destruct frames as [|f below]; rewrite Hbound; intros pre t0 E;
      destruct pre; discriminate E. }
  destruct (popWhile_spine (length frames) frames _ _ _ _ (level h) eq_refl Hspine Hj)
    as (done' & frames' & Hpop & Hspine' & Hforest & Hj').
  rewrite <- Hforest.
  exists (done' ++ closeAll frames' [leaf h]).
  split; [|split; [apply preorder_push | apply nested_push; exact Hj']].
  unfold addHeading. rewrite Hstack, Hpop.
  set (n := length (store b)) in *.
  set (new := mkItem (id h) (text h) (level h) (Some [])).
  destruct frames' as [|f below].
  - cbn [List.map].
    exists done', [mkFrame n h []]. cbn [store result_ stack].
    split; [reflexivity|]. split; [|split; reflexivity].
    rewrite length_app. cbn [length]. replace (n + 1)%nat with (S n) by lia.
    inversion Hspine' as [hi above rs Hres Hlay|]; subst.
    rewrite app_nil_r in Hres. rewrite Hres.
    apply Spine_frame with []; cbn [frameAddr frameHead frameKids].
    + apply list_lookup_middle. reflexivity.
    + constructor.
    + lia.
    + apply Spine_root with rs; [reflexivity|].
      apply (LayAll_agree _ _ _ _ _ Hlay). intros x Hx. apply lookup_app_l. lia.
  - cbn [List.map]. unfold frameKey at 1.
    exists done', (mkFrame n h [] :: f :: below). cbn [store result_ stack].
    split; [reflexivity|]. split; [|split; reflexivity].
    rewrite length_alter, length_app. cbn [length]. replace (n + 1)%nat with (S n) by lia.
    inversion Hspine' as [|hi above f0 below0 cs Hf Hkids Hlt Hbelow]; subst.
    rewrite app_nil_r in Hf.
    apply Spine_frame with []; cbn [frameAddr frameHead frameKids].
    + rewrite list_lookup_alter_ne by lia. apply list_lookup_middle. reflexivity.
    + constructor.
    + lia.
    + apply Spine_frame with cs.
      * rewrite list_lookup_alter_eq, lookup_app_l by exact Hlt. rewrite Hf. reflexivity.
      * apply (LayAll_agree _ _ _ _ _ Hkids). intros x Hx.
        apply store_after_push; lia.
      * exact Hlt.
      * apply (Spine_agree _ _ _ _ _ _ Hbelow). intros x Hx.
        apply store_after_push; lia.
Qed.

Lemma fold_addHeading_represents :
  forall hs b forest,
    Represents b forest ->
    exists forest',
      Represents (fold_left addHeading hs b) forest' /\
      flat_map preorder forest' = flat_map preorder forest ++ List.map entry hs /\
      (nestedForest forest = true -> nestedForest forest' = true).
Proof.
  induction hs as [|h hs IH]; intros b forest Hb.
  - exists forest. cbn. rewrite app_nil_r. repeat split; [exact Hb | auto].
  - destruct (addHeading_represents b forest h Hb) as (f1 & H1 & Hp1 & Hn1).
    destruct (IH _ _ H1) as (f2 & H2 & Hp2 & Hn2).
    exists f2. cbn [fold_left List.map]. split; [exact H2|]. split; [|auto].
    rewrite Hp2, Hp1, <- app_assoc. reflexivity.
Qed.

Lemma Represents_reify :
  forall b forest,
    Represents b forest ->
    omap (reify (S (length (store b))) (store b)) (result_ b) = forest.
Proof.
  intros b forest (done & frames & _ & Hspine & _ & ->).
  apply (LayAll_reify (store b) 0 (length (store b))); [|lia].
  apply (Spine_close _ _ _ _ _ _ Hspine); [lia | constructor].
Qed.

Lemma Represents_empty : Represents (mkBuilder [] [] []) [].
Proof.
  exists [], []. cbn. repeat split.
  apply Spine_root with []; [reflexivity | constructor].
Qed.

(** The nested table of contents holds the headings it was given, in their
    order, and is nested by level. *)
Lemma buildNestedTOC_forest :
  forall hs,
    flat_map preorder (buildNestedTOC hs) = List.map entry hs /\
    nestedForest (buildNestedTOC hs) = true.
Proof.
  intros hs. destruct hs as [|h hs]; [split; reflexivity|].
  unfold buildNestedTOC.
  destruct (fold_addHeading_represents (h :: hs) _ _ Represents_empty) as (forest & Hr & Hp & Hn).
  rewrite (Represents_reify _ _ Hr). split; [exact Hp | apply Hn; reflexivity].
Qed.

(** X22.  Reading the nested table of contents in document order, each
    heading before its children, gives back the list it was built from:
    every heading appears exactly once, with its id, text and level, and in
    the order of the input. *)
Theorem nested_toc_keeps_every_heading_in_order :
  forall headings : list TOCHeading,
    flat_map preorder (buildNestedTOC headings) = List.map entry headings.
Proof. intros headings. apply buildNestedTOC_forest. Qed.

(** X23.  In the nested table of contents every node has an array of
    children (empty at the leaves), every child has a greater level than its
    parent, and neither among the roots nor among the children of one node
    is a level greater than that of the sibling before it. *)
Theorem nested_toc_is_nested_by_level :
  forall headings : list TOCHeading,
    nestedForest (buildNestedTOC headings) = true.
Proof. intros headings. apply buildNestedTOC_forest. Qed.

Lemma nonIncreasing_app :
  forall a b, nonIncreasing (a ++ b) = true -> nonIncreasing a = true /\ nonIncreasing b = true.
Proof.
  induction a as [|x a IH]; intros b H; [split; [reflexivity | exact H]|].
  cbn [app] in H. rewrite nonIncreasing_cons in H. rewrite nonIncreasing_cons.
  destruct a as [|y a'].
  - cbn [app] in H. split; [reflexivity|]. destruct b; [reflexivity|].
    apply andb_true_iff in H. exact (proj2 H).
  - cbn [app] in H. apply andb_true_iff in H. destruct H as (Hyx & H).
    destruct (IH b H) as (Ha & Hb). rewrite Hyx, Ha. split; [reflexivity | exact Hb].
Qed.

Lemma preorder_head :
  forall t, exists rest', preorder t = entry t :: rest'.
Proof. intros [i x l c]. eexists. reflexivity. Qed.

(** A nested tree whose levels never rise in document order is a leaf. *)
Lemma nested_flat :
  forall t,
    nested t = true ->
    nonIncreasing (List.map snd (preorder t)) = true ->
    t = leaf t.
Proof.
  intros [i x l c] Hn Hl. cbn [nested] in Hn. destruct c as [kids|]; [|discriminate Hn].
  destruct kids as [|k kids]; [reflexivity|]. exfalso.
  cbn [forallb] in Hn. apply andb_true_iff in Hn. destruct Hn as (Hn & _).
  apply andb_true_iff in Hn. destruct Hn as (Hn & _).
  apply andb_true_iff in Hn. destruct Hn as (Hlt & _). apply Z.ltb_lt in Hlt.
  cbn [preorder flat_map] in Hl. destruct (preorder_head k) as (rest' & Hk).
  rewrite Hk in Hl. cbn [app List.map snd entry] in Hl.
  rewrite nonIncreasing_cons in Hl. apply andb_true_iff in Hl.
  destruct Hl as (Hle & _). apply Z.leb_le in Hle. lia.
Qed.

Lemma forest_flat :
  forall forest,
    forallb nested forest = true ->
    nonIncreasing (List.map snd (flat_map preorder forest)) = true ->
    forest = List.map leaf forest /\ flat_map preorder forest = List.map entry forest.
Proof.
  induction forest as [|t forest IH]; intros Hn Hl; [split; reflexivity|].
  cbn [forallb] in Hn. apply andb_true_iff in Hn. destruct Hn as (Ht & Hf).
  cbn [flat_map] in Hl. rewrite List.map_app in Hl. apply nonIncreasing_app in Hl.
  destruct Hl as (Hlt & Hlf). destruct (IH Hf Hlf) as (IH1 & IH2).
  pose proof (nested_flat t Ht Hlt) as Eleaf.
  cbn [List.map flat_map]. rewrite IH2. split.
  - rewrite <- IH1. f_equal. exact Eleaf.
  - rewrite Eleaf at 1. reflexivity.
Qed.

Lemma map_leaf_entry :
  forall a b : list TOCHeading,
    List.map entry a = List.map entry b -> List.map leaf a = List.map leaf b.
Proof.
  induction a as [|x a IH]; intros [|y b] H; try discriminate H; [reflexivity|].
  cbn [List.map] in *. unfold entry at 1 3 in H. injection H as Hi Ht Hl Hab.
  f_equal; [|apply IH; exact Hab]. unfold leaf. congruence.
Qed.

(** X24.  Headings whose levels never rise from one to the next, all of one
    level in particular, are not nested at all: the result is the input
    list, each heading with an empty array of children. *)
Theorem headings_that_never_go_deeper_stay_flat :
  forall headings : list TOCHeading,
    nonIncreasing (List.map level headings) = true ->
    buildNestedTOC headings = List.map leaf headings.
Proof.
  intros headings Hl.
  destruct (buildNestedTOC_forest headings) as (Hp & Hn).
  unfold nestedForest in Hn. apply andb_true_iff in Hn. destruct Hn as (Hn & _).
  assert (Hlv : nonIncreasing (List.map snd (flat_map preorder (buildNestedTOC headings))) = true).
  { rewrite Hp, List.map_map. exact Hl. }
  destruct (forest_flat _ Hn Hlv) as (E1 & E2).
  rewrite E1. apply map_leaf_entry. rewrite <- E2. exact Hp.
Qed.

Lemma headings_that_never_go_deeper_stay_flat_witness :
  buildNestedTOC
    [mkHeading (lit "a") (lit "A") 3 None; mkHeading (lit "b") (lit "B") 2 None;
     mkHeading (lit "c") (lit "C") 2 None]
  = [mkHeading (lit "a") (lit "A") 3 (Some []); mkHeading (lit "b") (lit "B") 2 (Some []);
     mkHeading (lit "c") (lit "C") 2 (Some [])].
Proof.
  apply (headings_that_never_go_deeper_stay_flat
           [mkHeading (lit "a") (lit "A") 3 None; mkHeading (lit "b") (lit "B") 2 None;
            mkHeading (lit "c") (lit "C") 2 None]).
  reflexivity.
Defined.

(** ** Entities *)

(** X25.  [decodeHTMLEntities] returns a text without an ampersand as it
    is. *)
Theorem text_without_ampersand_is_not_decoded :
  forall text : jsstring,
    includes AMP text = false -> decodeHTMLEntities text = text.
Proof. exact decodeHTMLEntities_plain. Qed.

Lemma text_without_ampersand_is_not_decoded_witness :
  decodeHTMLEntities (lit "#39; is not < 5") = lit "#39; is not < 5".
Proof.
  apply (text_without_ampersand_is_not_decoded (lit "#39; is not < 5")). reflexivity.
Defined.

(** ** Aggregating the log *)

Lemma eqString_refl : forall a, eqString a a = true.
Proof. intros a. apply eqString_eq. reflexivity. Qed.

Lemma eqString_sym : forall a b, eqString a b = eqString b a.
Proof.
  intros a b. destruct (eqString a b) eqn:E.
  - apply eqString_eq in E. subst. symmetry. apply eqString_refl.
  - destruct (eqString b a) eqn:E'; [|reflexivity].
    apply eqString_eq in E'. subst. rewrite eqString_refl in E. discriminate E.
Qed.

Lemma lookupString_cons :
  forall (A : Type) (key k : jsstring) (a : A) (l : list (jsstring * A)),
    lookupString key ((k, a) :: l) = if eqString k key then Some a else lookupString key l.
Proof.
  intros A key k a l. unfold lookupString. cbn [List.find fst].
  destruct (eqString k key); reflexivity.
Qed.

Lemma lookupString_hasOwn :
  forall key counts v, lookupString key counts = Some v -> hasOwn key counts = true.
Proof.
  intros key counts. induction counts as [|[k a] l IH]; intros v H; [discriminate H|].
  rewrite lookupString_cons in H. unfold hasOwn. cbn [existsb fst].
  destruct (eqString k key); [reflexivity|]. exact (IH v H).
Qed.

Lemma lookupString_app_found :
  forall (A : Type) (key : jsstring) (l l' : list (jsstring * A)) (v : A),
    lookupString key l = Some v -> lookupString key (l ++ l') = Some v.
Proof.
  intros A key l l' v. induction l as [|[k a] l IH]; intros H; [discriminate H|].
  cbn [app]. rewrite lookupString_cons in *. destruct (eqString k key); [exact H | exact (IH H)].
Qed.

Lemma lookupString_counted :
  forall (key name : jsstring) (counts : Counts) (n : Z),
    lookupString name counts = Some (Some n) ->
    lookupString name
      (List.map (fun p => if eqString (fst p) key
                          then (fst p, option_map (Z.add 1) (snd p)) else p) counts)
    = Some (Some (if eqString key name then 1 + n else n)).
Proof.
  intros key name counts n. induction counts as [|[k a] l IH]; intros H; [discriminate H|].
  cbn [List.map fst snd]. rewrite lookupString_cons in H.
  destruct (eqString k key) eqn:Ek.
  - rewrite lookupString_cons. apply eqString_eq in Ek. subst k.
    destruct (eqString key name) eqn:En.
    + injection H as ->. reflexivity.
    + exact (IH H).
  - rewrite lookupString_cons. destruct (eqString k name) eqn:En.
    + injection H as ->. apply eqString_eq in En. subst k.
      rewrite eqString_sym, Ek. reflexivity.
    + exact (IH H).
Qed.

(** One round of the loop, seen from the counter [name]. *)
Lemma counter_after_round :
  forall (key name : jsstring) (counts : Counts) (n : Z),
    lookupString name counts = Some (Some n) ->
    lookupString name (if hasProperty key counts then increment key counts else counts)
    = Some (Some (n + (if eqString key name then 1 else 0))).
Proof.
  intros key name counts n H.
  pose proof (lookupString_hasOwn _ _ _ H) as Hown.
  destruct (eqString key name) eqn:E.
  - apply eqString_eq in E. subst key. unfold hasProperty, increment. rewrite Hown. cbn [orb].
    rewrite (lookupString_counted name name counts n H), eqString_refl. f_equal. f_equal. lia.
  - rewrite Z.add_0_r. destruct (hasProperty key counts); [|exact H].
    unfold increment. destruct (hasOwn key counts).
    + rewrite (lookupString_counted key name counts n H), E. reflexivity.
    + destruct (eqString key (lit "__proto__")); [exact H|].
      apply lookupString_app_found. exact H.
Qed.

Lemma aggregateLoop_counter :
  forall (numberToString : spec_float -> jsstring) (name : jsstring)
         (events : list AnalyticsEvent) (counts out : Counts) (n : Z),
    lookupString name counts = Some (Some n) ->
    aggregateLoop numberToString events counts = Ok out ->
    lookupString name out
    = Some (Some (n + Z.of_nat (length (List.filter (actionIs numberToString name) events)))).
Proof.
  intros numberToString name events.
  induction events as [|e events IH]; intros counts out n Hn Hout.
  - cbn in Hout. injection Hout as <-. cbn. rewrite Z.add_0_r. exact Hn.
  - cbn [aggregateLoop] in Hout.
    destruct (toStringJSON numberToString (action e)) as [key|err] eqn:Ekey;
      [|discriminate Hout]. cbn [bind] in Hout.
    rewrite (IH _ _ _ (counter_after_round key name counts n Hn) Hout).
    cbn [List.filter]. unfold actionIs at 2. rewrite Ekey.
    destruct (eqString key name); cbn [length]; f_equal; f_equal; lia.
Qed.

(** X26.  When [aggregateEvents] returns, each of the counters [copy],
    [view] and [download] holds the number of stored events whose action
    reads as that name; events with any other action, which the handlers
    store as well, change none of the three. *)
Theorem aggregate_counts_the_three_actions :
  forall (numberToString : spec_float -> jsstring) (St : Type)
         (adapter : AnalyticsStorageAdapter St) (st : St)
         (events : list AnalyticsEvent) (counts : Counts) (name : jsstring),
    getAll adapter st = Ok events ->
    aggregateEvents numberToString adapter st = Ok counts ->
    In name [lit "copy"; lit "view"; lit "download"] ->
    lookupString name counts
    = Some (Some (Z.of_nat (length (List.filter (actionIs numberToString name) events)))).
Proof.
  intros numberToString St adapter st events counts name Hall Hagg Hname.
  unfold aggregateEvents in Hagg. rewrite Hall in Hagg. cbn [bind] in Hagg.
  assert (H0 : lookupString name initialCounts = Some (Some 0)).
  { destruct Hname as [<-|[<-|[<-|[]]]]; reflexivity. }
  rewrite (aggregateLoop_counter numberToString name events _ _ 0 H0 Hagg).
  reflexivity.
Qed.

Lemma aggregate_counts_the_three_actions_witness :
  exists counts,
    aggregateEvents (fun _ => lit "0") createInMemoryStorage
      [ mkEvent (JString (lit "copy")) None None (lit "t1") None;
        mkEvent (JString (lit "purge")) None None (lit "t2") None;
        mkEvent (JString (lit "toString")) None None (lit "t3") None;
        mkEvent (JArray [JString (lit "copy")]) None None (lit "t4") None ]
    = Ok counts /\
    counts = [ (lit "copy", Some 2); (lit "view", Some 0); (lit "download", Some 0);
               (lit "toString", None) ] /\
    lookupString (lit "copy") counts = Some (Some 2).
Proof.
  eexists. split; [vm_compute; reflexivity|]. split; [reflexivity|].
  refine (aggregate_counts_the_three_actions (fun _ => lit "0") _ createInMemoryStorage
            [ mkEvent (JString (lit "copy")) None None (lit "t1") None;
              mkEvent (JString (lit "purge")) None None (lit "t2") None;
              mkEvent (JString (lit "toString")) None None (lit "t3") None;
              mkEvent (JArray [JString (lit "copy")]) None None (lit "t4") None ]
            _ _ (lit "copy") eq_refl _ _).
  - vm_compute. reflexivity.
  - left. reflexivity.
Defined.

(** ** An escaped entity is decoded twice *)

Lemma matches_Str :
  forall (w post bef : jsstring) (cs : captures),
    w <> [] ->
    matches (Str w) (mkState bef (w ++ post) cs) = [mkState (rev w ++ bef) post cs].
Proof.
  induction w as [|c w IH]; intros post bef cs Hne; [contradiction|].
  destruct w as [|d w].
  - cbn [Str List.map seqOf app rev]. unfold Is. rewrite matches_Chr_state, Z.eqb_refl.
    reflexivity.
  - change (Str (c :: d :: w)) with (Seq (Is c) (Str (d :: w))).
    change (matches (Seq (Is c) (Str (d :: w))) (mkState bef ((c :: d :: w) ++ post) cs))
      with (flat_map (matches (Str (d :: w)))
              (matches (Chr (Z.eqb c)) (mkState bef (c :: (d :: w) ++ post) cs))).
    rewrite matches_Chr_state, Z.eqb_refl. cbn [flat_map].
    rewrite IH by discriminate. cbn [app rev]. rewrite <- !app_assoc. reflexivity.
Qed.

Lemma replaceLoop_skip :
  forall (q : Z -> bool) (r : regex) (t : captures -> jsstring) (pre s bef : jsstring)
         (fuel : nat),
    opensWith q r -> forallb (fun c => negb (q c)) pre = true ->
    replaceLoop r t (length pre + fuel) bef (pre ++ s)
    = pre ++ replaceLoop r t fuel (rev pre ++ bef) s.
Proof.
  intros q r t pre. induction pre as [|c pre IH]; intros s bef fuel Hq Hpre; [reflexivity|].
  cbn [forallb] in Hpre. apply andb_true_iff in Hpre. destruct Hpre as (Hc & Hpre).
  cbn [length Nat.add app replaceLoop]. unfold replaceStep.
  rewrite (opensWith_matchAt q r bef (c :: pre ++ s) Hq);
    [|apply negb_true_iff; exact Hc].
  cbn [app]. rewrite IH by assumption. cbn [rev]. rewrite <- app_assoc. reflexivity.
Qed.

(** One occurrence of an entity in a text that has no other ampersand. *)
Lemma replaceAll_entity :
  forall (name repl pre post : jsstring),
    includes AMP pre = false -> includes AMP post = false ->
    replaceAll (Str (AMP :: name)) (fun _ => repl) (pre ++ (AMP :: name) ++ post)
    = pre ++ repl ++ post.
Proof.
  intros name repl pre post Hpre Hpost.
  apply includes_false in Hpre. apply includes_false in Hpost.
  assert (Hopen : opensWith (Z.eqb AMP) (Str (AMP :: name))).
  { destruct name as [|d name]; cbn; intros c H; exact H. }
  unfold replaceAll.
  rewrite (replaceLoop_fuel _ _ _ (length pre + S (length ((AMP :: name) ++ post)))).
  2,3: rewrite !length_app; cbn [length]; lia.
  rewrite (replaceLoop_skip (Z.eqb AMP)) by assumption. f_equal.
  cbn [replaceLoop]. unfold replaceStep.
  rewrite matchAt_state, matches_Str by discriminate. cbn [head rest before caps].
  replace (length post <? length ((AMP :: name) ++ post))%nat with true
    by (symmetry; apply Nat.ltb_lt; rewrite length_app; cbn [length]; lia).
  f_equal.
  apply (replaceLoop_no_match (Z.eqb AMP)); assumption.
Qed.

(** X27.  The entity table is applied one entry after the other, [&amp;]
    first, so an ampersand that was escaped is decoded a second time: in a
    text with no other ampersand, [&amp;lt;] becomes [<] and not [&lt;]. *)
Theorem escaped_entity_is_decoded_twice :
  forall pre post : jsstring,
    includes AMP pre = false -> includes AMP post = false ->
    decodeHTMLEntities (pre ++ lit "&amp;lt;" ++ post) = pre ++ lit "<" ++ post.
Proof.
  intros pre post Hpre Hpost.
  unfold decodeHTMLEntities, entities. cbn [fold_left fst snd].
  change (pre ++ lit "&amp;lt;" ++ post)
    with (pre ++ (AMP :: lit "amp;") ++ (lit "lt;" ++ post)).
  change (lit "&amp;") with (AMP :: lit "amp;").
  rewrite (replaceAll_entity (lit "amp;") (lit "&") pre (lit "lt;" ++ post) Hpre)
    by (cbn; exact Hpost).
  change (pre ++ lit "&" ++ lit "lt;" ++ post) with (pre ++ (AMP :: lit "lt;") ++ post).
  change (lit "&lt;") with (AMP :: lit "lt;").
  rewrite (replaceAll_entity (lit "lt;") (lit "<") pre post Hpre Hpost).
  assert (H : forallb (fun x => negb (AMP =? x)) (pre ++ lit "<" ++ post) = true).
  { apply includes_false. rewrite !includes_app, Hpre, Hpost. reflexivity. }
  repeat (rewrite (replaceAll_no_match (Z.eqb AMP) _ _ (pre ++ lit "<" ++ post));
          [| opens | exact H]).
  reflexivity.
Qed.

Lemma escaped_entity_is_decoded_twice_witness :
  decodeHTMLEntities (lit "a " ++ lit "&amp;lt;" ++ lit "b>") = lit "a " ++ lit "<" ++ lit "b>".
Proof.
  apply (escaped_entity_is_decoded_twice (lit "a ") (lit "b>")); reflexivity.
Defined.

(** ** The two strategies on plain text *)








Lemma NL_isWhiteSpace : isWhiteSpace NL = true.
Proof. reflexivity. Qed.







